(** * LightGCN: a shallow embedding of the notebook's model, objective,
      trainer, convergence controller and evaluator.

    Tensor data are IEEE floats in the source.  They are modelled as real
    numbers extended with the three special values a float can take
    ([+inf], [-inf], [nan]); rounding and overflow are not modelled: the
    sum and the product of two numbers are their exact sum and product.
    A float result of the source therefore agrees with the value computed
    here up to rounding, as long as no operation overflows, and the
    statements about float results are chosen accordingly: they give the
    exact value before rounding, or a property that neither rounding nor
    an overflow to an infinity or to [nan] can break (a sign, a bound that
    is itself a float, a shape, which exception is raised).
    Python exceptions are modelled by a result type. *)

From Stdlib Require Import Reals Lra Lia.
From stdpp Require Import gmap list.

(** ** Python runtime: exceptions *)

Inductive exn : Type :=
| IndexError
| ValueError
| ZeroDivisionError
| RuntimeError.

Inductive result (A : Type) : Type :=
| Ok (a : A)
| Raise (e : exn).

Arguments Ok {A} a.
Arguments Raise {A} e.

#[global] Instance result_ret : MRet result := fun A a => Ok a.

#[global] Instance result_bind : MBind result := fun A B k r =>
  match r with
  | Ok a => k a
  | Raise e => Raise e
  end.

(** [for x in xs: acc = body(acc, x)] where the body may raise. *)
Fixpoint for_each {A S : Type} (body : S -> A -> result S) (xs : list A) (s : S)
  : result S :=
  match xs with
  | [] => Ok s
  | x :: xs' => s' ← body s x; for_each body xs' s'
  end.

(** [[f(x) for x in xs]] where [f] may raise. *)
Fixpoint map_result {A B : Type} (f : A -> result B) (xs : list A)
  : result (list B) :=
  match xs with
  | [] => Ok []
  | x :: xs' => y ← f x; ys ← map_result f xs'; Ok (y :: ys)
  end.

(** [xs[i]] for a non-negative index. *)
Definition index {A : Type} (xs : list A) (i : nat) : result A :=
  match xs !! i with
  | Some x => Ok x
  | None => Raise IndexError
  end.

(** [xs[ids]]: indexing a tensor by a tensor (or list) of row ids. *)
Definition gather {A : Type} (xs : list A) (ids : list nat) : result (list A) :=
  map_result (index xs) ids.

(** [range(start, stop, step)] for [step > 0], given as [start] and the
    number of remaining elements. *)
Fixpoint range_from (start step n : nat) : list nat :=
  match n with
  | O => []
  | S n' => start :: range_from (start + step) step n'
  end.

(** [len(range(0, stop, step))] for [step > 0]. *)
Definition range_len (stop step : nat) : nat :=
  match stop with
  | O => O
  | S _ => 1 + (stop - 1) / step
  end.

(** [range(0, stop, step)]; Python raises [ValueError] for a zero step. *)
Definition range_step (stop step : nat) : result (list nat) :=
  if decide (step = 0) then Raise ValueError
  else Ok (range_from 0 step (range_len stop step)).

(** [xs[start:stop]] *)
Definition slice {A : Type} (xs : list A) (start stop : nat) : list A :=
  take (stop - start) (drop start xs).

(** ** Floats *)

Inductive fval : Type :=
| Num (r : R)
| PInf
| NInf
| NaN.

Definition is_finite (x : fval) : Prop :=
  match x with Num _ => True | _ => False end.

Definition fadd (a b : fval) : fval :=
  match a, b with
  | Num x, Num y => Num (x + y)
  | NaN, _ | _, NaN => NaN
  | PInf, NInf | NInf, PInf => NaN
  | PInf, _ | _, PInf => PInf
  | NInf, _ | _, NInf => NInf
  end.

Definition fneg (a : fval) : fval :=
  match a with
  | Num x => Num (- x)
  | PInf => NInf
  | NInf => PInf
  | NaN => NaN
  end.

Definition fsub (a b : fval) : fval := fadd a (fneg b).

(** An infinity times a finite number: the sign decides. *)
Definition inf_times (pos : bool) (y : R) : fval :=
  if Rlt_dec 0 y then (if pos then PInf else NInf)
  else if Rlt_dec y 0 then (if pos then NInf else PInf)
  else NaN.

Definition fmul (a b : fval) : fval :=
  match a, b with
  | Num x, Num y => Num (x * y)
  | NaN, _ | _, NaN => NaN
  | PInf, Num y | Num y, PInf => inf_times true y
  | NInf, Num y | Num y, NInf => inf_times false y
  | PInf, PInf | NInf, NInf => PInf
  | PInf, NInf | NInf, PInf => NInf
  end.

(** Float division by an integer count, as in [x / n] with [x] a float
    tensor or numpy float: no exception, [0/0 = nan], [x/0 = +-inf]. *)
Definition fdiv_count (a : fval) (n : nat) : fval :=
  match n with
  | O =>
      match a with
      | Num x => inf_times true x
      | other => other
      end
  | S _ =>
      match a with
      | Num x => Num (x / INR n)
      | other => other
      end
  end.

(** [a > b] on floats: false as soon as one side is [nan]. *)
Definition fgtb (a b : fval) : bool :=
  match a, b with
  | NaN, _ | _, NaN => false
  | Num x, Num y => if Rgt_dec x y then true else false
  | PInf, PInf => false
  | PInf, _ => true
  | _, PInf => false
  | NInf, _ => false
  | Num _, NInf => true
  end.

(** [np.power(x, -0.5)] *)
Definition np_power_neg_half (a : fval) : fval :=
  match a with
  | Num x =>
      if Rlt_dec 0 x then Num (/ sqrt x)
      else if Rlt_dec x 0 then NaN
      else PInf
  | PInf => Num 0
  | NInf => Num 0
  | NaN => NaN
  end.

(** [sqrt] on floats, as taken by [Tensor.norm(2)]. *)
Definition fsqrt (a : fval) : fval :=
  match a with
  | Num x => if Rlt_dec x 0 then NaN else Num (sqrt x)
  | PInf => PInf
  | NInf => NaN
  | NaN => NaN
  end.

(** [F.softplus] with its defaults [beta = 1], [threshold = 20]. *)
Definition softplus (a : fval) : fval :=
  match a with
  | Num x => if Rlt_dec 20 x then Num x else Num (ln (1 + exp x))
  | PInf => PInf
  | NInf => Num 0
  | NaN => NaN
  end.

(** Sum of a float sequence, accumulated from [0.0] left to right. *)
Definition fsum (xs : list fval) : fval := foldl fadd (Num 0) xs.

(** [torch.mean] / [np.mean] of a one-dimensional float sequence: the sum
    divided by the length; the mean of an empty sequence is [nan]. *)
Definition fmean (xs : list fval) : fval := fdiv_count (fsum xs) (length xs).

(** ** Dense tensors

    A vector is a list of floats, a matrix a list of rows, a tensor of
    rank 3 a list of matrices. *)

Abbreviation vec := (list fval) (only parsing).
Abbreviation matrix := (list (list fval)) (only parsing).
Abbreviation tensor3 := (list (list (list fval))) (only parsing).

(** Elementwise [a + b] and [a * b] of same-shape tensors. *)
Definition vadd (a b : vec) : vec := zip_with fadd a b.
Definition madd (a b : matrix) : matrix := zip_with vadd a b.
Definition vmul (a b : vec) : vec := zip_with fmul a b.

(** [t / n] for an integer [n]. *)
Definition vdiv_count (a : vec) (n : nat) : vec := (fun x => fdiv_count x n) <$> a.
Definition mdiv_count (a : matrix) (n : nat) : matrix := (fun v => vdiv_count v n) <$> a.

(** [torch.cat([a, b], dim=0)] *)
Definition cat (a b : matrix) : matrix := a ++ b.

(** [torch.stack(ts, dim=0)]: the tensors become the slices of the new
    leading axis, shape [L x N x D]. *)
Definition stack_dim0 (ts : list matrix) : tensor3 := ts.

(** [torch.stack(ts, dim=1)]: the new axis is the second one, shape
    [N x L x D]; slice [n] holds row [n] of every tensor, in order. *)
Definition stack_dim1 (ts : list matrix) : tensor3 :=
  match ts with
  | [] => []
  | t0 :: _ => (fun n => (fun t => default [] (t !! n)) <$> ts) <$> seq 0 (length t0)
  end.

(** Reduction of a non-empty list of same-shape tensors by [add]. *)
Definition sum_slices {A : Type} (add : A -> A -> A) (empty : A) (xs : list A) : A :=
  match xs with
  | [] => empty
  | x :: xs' => foldl add x xs'
  end.

(** [t.mean(0)] of a rank-3 tensor: the slices along the leading axis are
    added up and divided by their number. *)
Definition mean_dim0 (t : tensor3) : matrix :=
  mdiv_count (sum_slices madd [] t) (length t).

(** [torch.mean(t, dim=1)] of a rank-3 tensor: for every index of the
    leading axis, the mean over the second axis. *)
Definition mean_dim1 (t : tensor3) : matrix :=
  (fun sl => vdiv_count (sum_slices vadd [] sl) (length sl)) <$> t.

(** [torch.sum(a * b, dim=1)] is the row-wise dot product. *)
Definition dot (a b : vec) : fval := fsum (vmul a b).

(** [t.norm(2)]: the 2-norm of the flattened tensor. *)
Definition norm2 (t : matrix) : fval :=
  fsqrt (fsum ((fun x => fmul x x) <$> concat t)).

(** [x.pow(2)] *)
Definition pow2 (x : fval) : fval := fmul x x.

(** ** Sparse matrices in coordinate format

    [entries] lists the stored (row, column, value) triples; as in scipy
    and torch, triples with the same coordinates add up. *)

Record coo : Type := mk_coo {
  shape : nat * nat;
  entries : list (nat * nat * fval)
}.

(** [coo_matrix((data, (rows, cols)), shape=shape)]; scipy raises
    [ValueError] when the three arrays differ in length or an index
    exceeds the matrix dimensions. *)
Definition coo_matrix (data : list fval) (rows cols : list nat) (shp : nat * nat)
  : result coo :=
  if decide (length rows = length data /\ length cols = length data /\
             Forall (fun i => i < shp.1) rows /\ Forall (fun j => j < shp.2) cols)
  then Ok (mk_coo shp (zip (zip rows cols) data))
  else Raise ValueError.

(** [m.T] *)
Definition transpose (m : coo) : coo :=
  mk_coo (m.(shape).2, m.(shape).1)
         ((fun '(i, j, v) => (j, i, v)) <$> m.(entries)).

(** [a + b] for two sparse matrices of one shape. *)
Definition sp_add (a b : coo) : coo :=
  mk_coo a.(shape) (a.(entries) ++ b.(entries)).

(** The triple [e] is stored at position (a, b). *)
Definition at_pos (a b : nat) (e : nat * nat * fval) : Prop :=
  e.1.1 = a /\ e.1.2 = b.

#[global] Instance at_pos_dec a b e : Decision (at_pos a b e).
Proof. unfold at_pos. apply _. Defined.

(** [m[a, b]]: the stored values at (a, b) added up; [0] when none. *)
Definition entry (m : coo) (a b : nat) : fval :=
  fsum ((fun e => e.2) <$> filter (at_pos a b) m.(entries)).

(** The stored values of row [a]. *)
Definition row_values (m : coo) (a : nat) : list fval :=
  (fun e => e.2) <$> filter (fun e => e.1.1 = a) m.(entries).

(** [np.array(m.sum(1)).flatten()]: the vector of row sums. *)
Definition sum_axis1 (m : coo) : list fval :=
  (fun a => fsum (row_values m a)) <$> seq 0 m.(shape).1.

(** [a @ b] for sparse matrices: every stored (i, k) of [a] meets every
    stored (k, j) of [b]. *)
Definition sp_matmul (a b : coo) : coo :=
  mk_coo (a.(shape).1, b.(shape).2)
    (e1 ← a.(entries);
     e2 ← filter (fun e2 => e2.1.1 = e1.1.2) b.(entries);
     [(e1.1.1, e2.1.2, fmul e1.2 e2.2)]).

(** [torch.sparse.mm(adj, x)]: row [i] of the product is the sum over the
    stored (i, j, v) of [v * x[j]]. *)
Definition scale_row (v : fval) (row : vec) : vec := (fun x => fmul v x) <$> row.

Definition zeros (d : nat) : vec := replicate d (Num 0).

Definition sparse_mm (adj : coo) (x : matrix) : matrix :=
  (fun i =>
     foldl vadd (zeros (length (default [] (x !! 0))))
       ((fun e => scale_row e.2 (default [] (x !! e.1.2))) <$>
        filter (fun e => e.1.1 = i) adj.(entries)))
  <$> seq 0 adj.(shape).1.

(** Broadcasting of a binary elementwise operation along the leading
    axis: equal lengths pair up, a length-1 operand is repeated, anything
    else is a shape error. *)
Definition broadcast {A B C : Type} (f : A -> B -> C) (a : list A) (b : list B)
  : result (list C) :=
  if decide (length a = length b) then Ok (zip_with f a b)
  else match a, b with
       | [x], _ => Ok (f x <$> b)
       | _, [y] => Ok ((fun x => f x y) <$> a)
       | _, _ => Raise RuntimeError
       end.

(** ** Configuration *)

Record config : Type := mk_config {
  cfg_embedding_dim : nat;
  cfg_num_layers : nat;
  cfg_lr : R;
  cfg_batch_size : nat;
  cfg_epochs : nat;
  cfg_patience : nat;
  cfg_eval_k : nat;
  cfg_reg_lambda : R
}.

(** The [config] cell of the notebook. *)
Definition notebook_config : config :=
  mk_config 64 3 (1 / 1000) 1024 200 10 20 (1 / 10000).

(** ** The model *)

Module LightGCN.

Record t : Type := mk {
  num_users : nat;
  num_items : nat;
  embedding_dim : nat;
  num_layers : nat;
  user_embedding : matrix;   (* user_embedding.weight, num_users x embedding_dim *)
  item_embedding : matrix;   (* item_embedding.weight, num_items x embedding_dim *)
  norm_adj : coo
}.

(** The literal [1e-8]. *)
Definition eps : R := / 10 ^ 8.

(** scipy matrix to torch sparse tensor: same indices and shape.  The
    cast [astype(np.float32)] rounds every value to the nearest [float32];
    like every rounding it is left out, so that the values of the result
    are the exact ones the cast is applied to. *)
Definition _convert_sp_mat_to_sp_tensor (mat : coo) : coo :=
  mk_coo mat.(shape) mat.(entries).

(** The first half of [build_adj_matrix]: the symmetric matrix
    [adj = R + R.T].  [user_item_pairs] is the [2 x E] tensor of
    interactions, given as its [E] columns. *)
Definition build_sym_adj (num_users num_items : nat)
    (user_item_pairs : list (nat * nat)) : result coo :=
  let num_nodes := num_users + num_items in
  let rows := (fun p => p.1) <$> user_item_pairs in
  let cols := (fun p => p.2 + num_users) <$> user_item_pairs in
  r_mat ← coo_matrix (replicate (length rows) (Num 1)) rows cols
                     (num_nodes, num_nodes);
  Ok (sp_add r_mat (transpose r_mat)).

Definition build_adj_matrix (num_users num_items : nat)
    (user_item_pairs : list (nat * nat)) : result coo :=
  let num_nodes := num_users + num_items in
  adj ← build_sym_adj num_users num_items user_item_pairs;
  let rowsum := sum_axis1 adj in
  let d_inv_sqrt := (fun s => np_power_neg_half (fadd s (Num eps))) <$> rowsum in
  d_mat_inv_sqrt ← coo_matrix d_inv_sqrt (seq 0 num_nodes) (seq 0 num_nodes)
                              (num_nodes, num_nodes);
  let norm_adj := sp_matmul (sp_matmul d_mat_inv_sqrt adj) d_mat_inv_sqrt in
  Ok (_convert_sp_mat_to_sp_tensor norm_adj).

(** [__init__]; the Xavier-initialised weights are taken as given. *)
Definition __init__ (num_users num_items embedding_dim num_layers : nat)
    (user_weight item_weight : matrix) (user_item_pairs : list (nat * nat))
  : result t :=
  norm_adj ← build_adj_matrix num_users num_items user_item_pairs;
  Ok (mk num_users num_items embedding_dim num_layers user_weight item_weight norm_adj).

(** The message-passing loop shared by [getEmbedding] and [forward]:
    [for _ in range(num_layers): emb = sparse.mm(adj, emb); embs.append(emb)];
    the result is the list of appended layers. *)
Fixpoint message_passing (adj : coo) (emb : matrix) (layers : nat) : list matrix :=
  match layers with
  | O => []
  | S n => let emb' := sparse_mm adj emb in emb' :: message_passing adj emb' n
  end.

Definition getEmbedding (self : t) : matrix * matrix :=
  let all_emb := cat self.(user_embedding) self.(item_embedding) in
  let embs := all_emb :: message_passing self.(norm_adj) all_emb self.(num_layers) in
  let embs := stack_dim1 embs in
  let light_out := mean_dim1 embs in
  (take self.(num_users) light_out, drop self.(num_users) light_out).

Definition forward (self : t) : matrix * matrix :=
  let emb := cat self.(user_embedding) self.(item_embedding) in
  let all_embs := emb :: message_passing self.(norm_adj) emb self.(num_layers) in
  let final_emb := mean_dim0 (stack_dim0 all_embs) in
  (take self.(num_users) final_emb, drop self.(num_users) final_emb).

Definition getEmbeddingTriple (self : t) (users pos_items neg_items : list nat)
  : result (matrix * matrix * matrix * matrix * matrix * matrix) :=
  let '(user_emb, item_emb) := getEmbedding self in
  users_emb ← gather user_emb users;
  pos_emb ← gather item_emb pos_items;
  neg_emb ← gather item_emb neg_items;
  users_emb_0 ← gather self.(user_embedding) users;
  pos_emb_0 ← gather self.(item_embedding) pos_items;
  neg_emb_0 ← gather self.(item_embedding) neg_items;
  Ok (users_emb, pos_emb, neg_emb, users_emb_0, pos_emb_0, neg_emb_0).

End LightGCN.

(** ** BPR loss *)

Definition bpr_loss (cfg : config) (model : LightGCN.t)
    (users pos_items neg_items : list nat) : result fval :=
  '(users_emb, pos_emb, neg_emb, user_emb_0, pos_emb_0, neg_emb_0) ←
    LightGCN.getEmbeddingTriple model users pos_items neg_items;
  pos_scores ← broadcast dot users_emb pos_emb;
  neg_scores ← broadcast dot users_emb neg_emb;
  diffs ← broadcast fsub neg_scores pos_scores;
  let loss := fmean (softplus <$> diffs) in
  let reg_loss :=
    fdiv_count
      (fmul (Num cfg.(cfg_reg_lambda))
         (fadd (fadd (pow2 (norm2 user_emb_0)) (pow2 (norm2 pos_emb_0)))
               (pow2 (norm2 neg_emb_0))))
      (length users) in
  Ok (fadd loss reg_loss).

(** ** Early stopping *)

Module EarlyStopping.

Record t : Type := mk {
  patience : nat;
  delta : fval;
  verbose : bool;
  best_score : option fval;
  counter : nat;
  early_stop : bool
}.

Definition __init__ (patience : nat) (delta : fval) (verbose : bool) : t :=
  mk patience delta verbose None 0 false.

Definition __call__ (self : t) (current_score : fval) : t :=
  if match self.(best_score) with
     | None => true
     | Some best => fgtb current_score (fadd best self.(delta))
     end
  then mk self.(patience) self.(delta) self.(verbose)
          (Some current_score) 0 self.(early_stop)
  else mk self.(patience) self.(delta) self.(verbose)
          self.(best_score) (self.(counter) + 1) self.(early_stop).

End EarlyStopping.

(** ** Ranking metrics *)

(** [np.log2] on a positive integer. *)
Definition log2 (n : nat) : R := (ln (INR n) / ln 2)%R.

(** Python's [sum] over floats: from [0], left to right. *)
Definition rsum (xs : list R) : R := foldl Rplus 0%R xs.

(** [np.mean] of a list of Python floats. *)
Definition np_mean (xs : list R) : fval := fmean (Num <$> xs).

(** [a / b] on Python integers. *)
Definition int_truediv (a b : nat) : result R :=
  if decide (b = 0) then Raise ZeroDivisionError else Ok (INR a / INR b)%R.

Definition recall_at_k (ranked_list ground_truth : list nat) (k : nat) : result R :=
  int_truediv
    (size ((list_to_set (take k ranked_list) : gset nat) ∩ list_to_set ground_truth))
    (size (list_to_set ground_truth : gset nat)).

Definition precision_at_k (ranked_list ground_truth : list nat) (k : nat) : result R :=
  int_truediv
    (size ((list_to_set (take k ranked_list) : gset nat) ∩ list_to_set ground_truth))
    k.

Definition ndcg_at_k (ranked_list ground_truth : list nat) (k : nat) : R :=
  let dcg :=
    foldl (fun dcg '(i, item) =>
             if decide (item ∈ ground_truth) then (dcg + 1 / log2 (i + 2))%R else dcg)
          0%R (imap (fun i item => (i, item)) (take k ranked_list)) in
  let idcg := rsum ((fun i => 1 / log2 (i + 2))%R <$> seq 0 (min (length ground_truth) k)) in
  if Rlt_dec 0 idcg then (dcg / idcg)%R else 0%R.

(** ** Evaluation *)

(** A Python [dict] keeps its keys in insertion order: the held-out ground
    truth is an association list from user to item list. *)
Abbreviation ground_truth_dict := (list (nat * list nat)) (only parsing).

Definition dict_keys (d : ground_truth_dict) : list nat := d.*1.

(** [d[key]] for a key taken from [d.keys()]. *)
Definition dict_get (d : ground_truth_dict) (key : nat) : list nat :=
  default [] ((fun found => found.2.2) <$> list_find (fun kv => kv.1 = key) d).

Section Evaluator.

(** [torch.topk(scores, k).indices.tolist()]: the positions of the [k]
    largest scores; the order among ties is left to the library. *)
Variable topk : list fval -> nat -> result (list nat).

Abbreviation metric_lists := (list R * list R * list R)%type (only parsing).

(** [set(range(num_items)) - train_items | set(gt_items)] *)
Definition candidate_set (num_items : nat) (train_items : gset nat)
    (gt_items : list nat) : gset nat :=
  (set_seq 0 num_items ∖ train_items) ∪ list_to_set gt_items.

(** The body of the inner loop of [evaluate_model] for the user at
    position [idx] of the batch. *)
Definition evaluate_user (model : LightGCN.t) (item_emb : matrix)
    (test_ground_truth : ground_truth_dict) (user_item_dict : gmap nat (gset nat))
    (k : nat) (batch_user_emb : matrix) (lists : metric_lists)
    (idx_user : nat * nat) : result metric_lists :=
  let '(idx, user) := idx_user in
  let '(recall_list, precision_list, ndcg_list) := lists in
  let gt_items := dict_get test_ground_truth user in
  let train_items := default ∅ (user_item_dict !! user) in
  let candidates :=
    elements (candidate_set model.(LightGCN.num_items) train_items gt_items) in
  u_emb ← index batch_user_emb idx;
  cand_emb ← gather item_emb candidates;
  let scores := dot u_emb <$> cand_emb in
  top ← topk scores k;
  ranked_items ← map_result (index candidates) top;
  recall ← recall_at_k ranked_items gt_items k;
  precision ← precision_at_k ranked_items gt_items k;
  let ndcg := ndcg_at_k ranked_items gt_items k in
  Ok (recall_list ++ [recall], precision_list ++ [precision], ndcg_list ++ [ndcg]).

(** The same body for a user scored straight from the full embedding
    table, outside any batch. *)
Definition evaluate_one (model : LightGCN.t) (user_emb item_emb : matrix)
    (test_ground_truth : ground_truth_dict) (user_item_dict : gmap nat (gset nat))
    (k : nat) (lists : metric_lists) (user : nat) : result metric_lists :=
  u_emb ← index user_emb user;
  evaluate_user model item_emb test_ground_truth user_item_dict k [u_emb] lists
    (0, user).

(** The body of the outer loop: one batch of users starting at [i]. *)
Definition evaluate_batch (model : LightGCN.t) (user_emb item_emb : matrix)
    (test_ground_truth : ground_truth_dict) (user_item_dict : gmap nat (gset nat))
    (k batch_size : nat) (test_users : list nat) (lists : metric_lists) (i : nat)
  : result metric_lists :=
  let batch_users := slice test_users i (i + batch_size) in
  batch_user_emb ← gather user_emb batch_users;
  for_each
    (evaluate_user model item_emb test_ground_truth user_item_dict k batch_user_emb)
    (imap (fun idx user => (idx, user)) batch_users) lists.

Definition evaluate_model (model : LightGCN.t) (test_ground_truth : ground_truth_dict)
    (user_item_dict : gmap nat (gset nat)) (k batch_size : nat)
  : result (fval * fval * fval) :=
  let '(user_emb, item_emb) := LightGCN.forward model in
  let test_users := dict_keys test_ground_truth in
  starts ← range_step (length test_users) batch_size;
  '(recall_list, precision_list, ndcg_list) ←
    for_each
      (evaluate_batch model user_emb item_emb test_ground_truth user_item_dict
         k batch_size test_users)
      starts ([], [], []);
  Ok (np_mean recall_list, np_mean precision_list, np_mean ndcg_list).

End Evaluator.

(** ** Training *)

Section Trainer.

(** The random sources ([random] and [np.random]) are threaded as one
    state [rng]; the optimizer ([zero_grad], [backward], [step]) is an
    external collaborator that turns a model and a batch into the
    updated model. *)
Variable rng : Type.
Variable random_shuffle : rng -> list nat -> rng * list nat.
Variable random_choice : rng -> list nat -> rng * nat.
Variable np_random_permutation : rng -> nat -> rng * list nat.
Variable optimizer : Type.
Variable optimizer_step :
  optimizer -> LightGCN.t -> list nat -> list nat -> list nat -> optimizer * LightGCN.t.
Variable topk : list fval -> nat -> result (list nat).

Definition shuffle (g : rng) (a b c : list nat)
  : result (rng * (list nat * list nat * list nat)) :=
  if decide (length a = length b /\ length b = length c) then
    let '(g', idx) := np_random_permutation g (length a) in
    a' ← gather a idx;
    b' ← gather b idx;
    c' ← gather c idx;
    Ok (g', (a', b', c'))
  else Raise ValueError.

Definition sample_user_triplets (g : rng) (user_item_dict : gmap nat (gset nat))
    (all_items : gset nat) (users : list nat) : rng * list (nat * nat * nat) :=
  foldl
    (fun '(g, samples) u =>
       let items := default ∅ (user_item_dict !! u) in
       if decide (items = ∅) then (g, samples)
       else
         let '(g1, pos) := random_choice g (elements items) in
         let neg_pool := elements (all_items ∖ items) in
         if decide (neg_pool = []) then (g1, samples)
         else
           let '(g2, neg) := random_choice g1 neg_pool in
           (g2, samples ++ [(u, pos, neg)]))
    (g, []) users.

(** What a training run mutates. *)
Record train_state : Type := mk_state {
  st_rng : rng;
  st_optimizer : optimizer;
  st_model : LightGCN.t
}.

(** [len(users_tensor) // batch_size + 1] *)
Definition num_batches_of (n batch_size : nat) : result nat :=
  if decide (batch_size = 0) then Raise ZeroDivisionError
  else Ok (n / batch_size + 1).

(** The body of the batch loop of [train_one_epoch]. *)
Definition train_batch (cfg : config) (users_tensor pos_tensor neg_tensor : list nat)
    (batch_size : nat) (acc : optimizer * LightGCN.t * fval) (start : nat)
  : result (optimizer * LightGCN.t * fval) :=
  let '(opt, model, total_loss) := acc in
  let end_ := start + batch_size in
  let batch_users := slice users_tensor start end_ in
  let batch_pos := slice pos_tensor start end_ in
  let batch_neg := slice neg_tensor start end_ in
  loss ← bpr_loss cfg model batch_users batch_pos batch_neg;
  let '(opt', model') := optimizer_step opt model batch_users batch_pos batch_neg in
  Ok (opt', model', fadd total_loss loss).

Definition train_one_epoch (cfg : config) (st : train_state)
    (user_item_dict : gmap nat (gset nat)) (all_items : gset nat) (batch_size : nat)
  : result (train_state * fval) :=
  let users := (map_to_list user_item_dict).*1 in
  let '(g1, users) := random_shuffle st.(st_rng) users in
  let '(g2, samples) := sample_user_triplets g1 user_item_dict all_items users in
  let users_tensor := (fun s => s.1.1) <$> samples in
  let pos_tensor := (fun s => s.1.2) <$> samples in
  let neg_tensor := (fun s => s.2) <$> samples in
  '(g3, (users_tensor, pos_tensor, neg_tensor)) ←
    shuffle g2 users_tensor pos_tensor neg_tensor;
  let total_loss := Num 0 in
  num_batches ← num_batches_of (length users_tensor) batch_size;
  starts ← range_step (length users_tensor) batch_size;
  '(opt, model, total_loss) ←
    for_each (train_batch cfg users_tensor pos_tensor neg_tensor batch_size)
      starts (st.(st_optimizer), st.(st_model), total_loss);
  Ok (mk_state g3 opt model, fdiv_count total_loss num_batches).

(** [user_item_dict.clear()] followed by the rebuild from the
    interaction tensor. *)
Definition rebuild_user_item_dict (interactions : list (nat * nat))
  : gmap nat (gset nat) :=
  foldl (fun d '(u, i) => <[u := default ∅ (d !! u) ∪ {[i]}]> d) ∅ interactions.

(** The epoch loop of [train_lightgcn]; [epoch] counts the epochs
    already run, [remaining] those left in [range(epochs)]. *)
Fixpoint epoch_loop (cfg : config) (test_ground_truth : ground_truth_dict)
    (user_item_dict : gmap nat (gset nat)) (all_items : gset nat)
    (batch_size k : nat) (remaining epoch : nat)
    (st : train_state) (early_stopping : EarlyStopping.t)
  : result (train_state * EarlyStopping.t * nat) :=
  match remaining with
  | O => Ok (st, early_stopping, epoch)
  | S remaining' =>
      '(st', avg_loss) ← train_one_epoch cfg st user_item_dict all_items batch_size;
      '(recall, prec, ndcg) ←
        evaluate_model topk st'.(st_model) test_ground_truth user_item_dict k 1024;
      let early_stopping' := EarlyStopping.__call__ early_stopping recall in
      if early_stopping'.(EarlyStopping.early_stop)
      then Ok (st', early_stopping', epoch + 1)
      else epoch_loop cfg test_ground_truth user_item_dict all_items batch_size k
             remaining' (epoch + 1) st' early_stopping'
  end.

(** [train_lightgcn]; the result is the final state, the early-stopping
    object and the number of epochs that were run. *)
Definition train_lightgcn (cfg : config) (st : train_state)
    (interactions : list (nat * nat)) (test_ground_truth : ground_truth_dict)
    (epochs batch_size k patience : nat)
  : result (train_state * EarlyStopping.t * nat) :=
  let user_item_dict := rebuild_user_item_dict interactions in
  let all_items : gset nat := set_seq 0 st.(st_model).(LightGCN.num_items) in
  let early_stopping := EarlyStopping.__init__ patience (Num 0) true in
  epoch_loop cfg test_ground_truth user_item_dict all_items batch_size k
    epochs 0 st early_stopping.

End Trainer.

(** ** Vocabulary of the statements *)

(** The shapes [__init__] establishes. *)
Definition well_shaped (self : LightGCN.t) : Prop :=
  length self.(LightGCN.user_embedding) = self.(LightGCN.num_users) /\
  length self.(LightGCN.item_embedding) = self.(LightGCN.num_items) /\
  self.(LightGCN.norm_adj).(shape)
  = (self.(LightGCN.num_users) + self.(LightGCN.num_items),
     self.(LightGCN.num_users) + self.(LightGCN.num_items)).

Definition finite_matrix (m : matrix) : Prop := Forall (Forall is_finite) m.

(** No parameter and no adjacency weight is [nan] or infinite. *)
Definition finite_model (self : LightGCN.t) : Prop :=
  finite_matrix self.(LightGCN.user_embedding) /\
  finite_matrix self.(LightGCN.item_embedding) /\
  Forall (fun e => is_finite e.2) self.(LightGCN.norm_adj).(entries).

(** Every interaction names a user in [0, U) and an item in [0, I). *)
Definition in_range (U I : nat) (pairs : list (nat * nat)) : Prop :=
  Forall (fun p => p.1 < U /\ p.2 < I) pairs.

(** The interaction [p = (u, i)] is an edge at node [a]: [a] is the user
    node [u] or the item node [i + U]. *)
Definition touches (U a : nat) (p : nat * nat) : Prop := p.1 = a \/ p.2 + U = a.

#[global] Instance touches_dec U a p : Decision (touches U a p).
Proof. unfold touches. apply _. Defined.

(** Degree of node [a]: the number of interactions that touch it. *)
Definition degree (U : nat) (pairs : list (nat * nat)) (a : nat) : nat :=
  length (filter (touches U a) pairs).

(** The set of distinct edges at node [a]. *)
Definition edges_touching (U : nat) (pairs : list (nat * nat)) (a : nat)
  : gset (nat * nat) :=
  list_to_set (filter (touches U a) pairs).

(** The stored triples of [R + R.T]. *)
Definition sym_entries (U : nat) (pairs : list (nat * nat)) : list (nat * nat * fval) :=
  ((fun p => ((p.1, p.2 + U), Num 1)) <$> pairs)
  ++ ((fun p => ((p.2 + U, p.1), Num 1)) <$> pairs).

(** How many stored triples of [R + R.T] sit at (a, b). *)
Definition multiplicity (U : nat) (pairs : list (nat * nat)) (a b : nat) : nat :=
  length (filter (fun p => p.1 = a /\ p.2 + U = b) pairs)
  + length (filter (fun p => p.2 + U = a /\ p.1 = b) pairs).

(** [(deg(a) + 1e-8) ^ -0.5] *)
Definition dinv (U : nat) (pairs : list (nat * nat)) (a : nat) : R :=
  (/ sqrt (INR (degree U pairs a) + LightGCN.eps))%R.

(** The stored triples of a diagonal matrix. *)
Definition diag (d : nat -> fval) (n : nat) : list (nat * nat * fval) :=
  (fun a => ((a, a), d a)) <$> seq 0 n.

(** The normalized matrix that [build_adj_matrix] computes for in-range
    interactions. *)
Definition norm_adj_of (U I : nat) (pairs : list (nat * nat)) : coo :=
  let n := U + I in
  let d := mk_coo (n, n) (diag (fun a => Num (dinv U pairs a)) n) in
  sp_matmul (sp_matmul d (mk_coo (n, n) (sym_entries U pairs))) d.

(** [x] rounds to the [float32] number [mantissa / 2 ^ scale]: a normal
    number, written with its 24-bit mantissa, that is less than half a
    unit in the last place away from [x]; no other [float32] is as near.
    This is what [astype(np.float32)] returns for the value [x]. *)
Definition rounds_to_float32 (x : R) (mantissa : Z) (scale : nat) : Prop :=
  (2 ^ 23 < mantissa < 2 ^ 24)%Z /\ scale <= 149 /\
  (IZR mantissa - 1 / 2 < x * 2 ^ scale < IZR mantissa + 1 / 2)%R.

(** What the evaluator is to do for one user, in the words of the
    specification: the candidates are the items that are not among the
    user's training items, together with the user's held-out items, each
    listed once; every candidate gets one score, the dot product of its
    embedding with the user's; the [k] positions [topk] returns for these
    scores name the ranked candidates, and the three metrics of the user
    are computed from that ranking. *)
Definition ranks_candidates (topk : list fval -> nat -> result (list nat))
    (num_items : nat) (user_emb item_emb : matrix)
    (test_ground_truth : ground_truth_dict) (user_item_dict : gmap nat (gset nat))
    (k : nat) (user : nat) (metrics : R * R * R) : Prop :=
  let gt_items := dict_get test_ground_truth user in
  let train_items := default ∅ (user_item_dict !! user) in
  exists (candidates : list nat) (u_emb : vec) (cand_emb : matrix)
         (top ranked : list nat),
    NoDup candidates /\
    (forall x, x ∈ candidates
               <-> (x < num_items /\ x ∉ train_items) \/ x ∈ gt_items) /\
    user_emb !! user = Some u_emb /\
    gather item_emb candidates = Ok cand_emb /\
    topk (dot u_emb <$> cand_emb) k = Ok top /\
    gather candidates top = Ok ranked /\
    recall_at_k ranked gt_items k = Ok metrics.1.1 /\
    precision_at_k ranked gt_items k = Ok metrics.1.2 /\
    metrics.2 = ndcg_at_k ranked gt_items k.

(** ** Instances used in the examples *)

(** A deterministic top-k: scores sorted in descending order by insertion,
    earlier positions first among equal scores; [RuntimeError] when [k]
    exceeds the number of scores. *)
Fixpoint insert_desc (x : nat * fval) (l : list (nat * fval)) : list (nat * fval) :=
  match l with
  | [] => [x]
  | y :: l' => if fgtb y.2 x.2 then y :: insert_desc x l' else x :: l
  end.

Definition topk_stable (scores : list fval) (k : nat) : result (list nat) :=
  if decide (k <= length scores)
  then Ok (take k (foldr insert_desc [] (imap (fun i x => (i, x)) scores)).*1)
  else Raise RuntimeError.

(** A random source that leaves every order unchanged and picks the first
    element. *)
Definition no_shuffle (g : unit) (l : list nat) : unit * list nat := (g, l).
Definition first_choice (g : unit) (l : list nat) : unit * nat := (g, default 0 (head l)).
Definition identity_permutation (g : unit) (n : nat) : unit * list nat := (g, seq 0 n).

(** Two users who both interacted with item 0, out of two items. *)
Definition two_users : gmap nat (gset nat) := {[0 := {[0]}; 1 := {[0]}]}.
Definition two_items : gset nat := set_seq 0 2.

Definition zero_model : LightGCN.t :=
  LightGCN.mk 2 2 1 0 [[Num 0]; [Num 0]] [[Num 0]; [Num 0]]
    (norm_adj_of 2 2 [(0, 0); (1, 0)]).

(** Two users, two items, three propagation layers. *)
Definition small_model : LightGCN.t :=
  LightGCN.mk 2 2 1 3 [[Num 1]; [Num 2]] [[Num 3]; [Num 4]]
    (norm_adj_of 2 2 [(0, 0); (1, 0)]).

(** One user who interacted with item 0 and whose held-out item is 1. *)
Definition one_user_model : LightGCN.t :=
  LightGCN.mk 1 2 1 0 [[Num 1]] [[Num 1]; [Num 2]] (norm_adj_of 1 2 [(0, 0)]).

Definition one_user_ground_truth : list (nat * list nat) := [(0, [1])].
Definition one_user_train : gmap nat (gset nat) := {[0 := {[0]}]}.

(** Two users and two items, no propagation layer.  User 0 interacted
    with both items, and item 1 is also its held-out item; user 1 has no
    training interaction, and item 0 is its held-out item. *)
Definition two_user_model : LightGCN.t :=
  LightGCN.mk 2 2 1 0 [[Num 1]; [Num 2]] [[Num 1]; [Num 2]]
    (norm_adj_of 2 2 [(0, 0); (0, 1)]).

Definition two_user_ground_truth : list (nat * list nat) := [(0, [1]); (1, [0])].
Definition two_user_train : gmap nat (gset nat) := {[0 := {[0; 1]}]}.

(** Three users and two items: user 0 has degree 2 and item 0, which is
    node 3, has degree 3. *)
Definition skewed_pairs : list (nat * nat) := [(0, 0); (0, 1); (1, 0); (2, 0)].

(** ** Predicted ratings *)

(** [torch.sigmoid] *)
Definition sigmoid (a : fval) : fval :=
  match a with
  | Num x => Num (1 / (1 + exp (- x)))
  | PInf => Num 1
  | NInf => Num 0
  | NaN => NaN
  end.

(** [torch.matmul(a, b.t())] for two matrices whose rows have one length:
    entry (r, c) is the dot product of row [r] of [a] and row [c] of [b]. *)
Definition matmul_t (a b : matrix) : matrix := (fun u => dot u <$> b) <$> a.

(** [LightGCN.getUsersRating] *)
Definition getUsersRating (self : LightGCN.t) (users : list nat) : result matrix :=
  let '(user_emb, item_emb) := LightGCN.getEmbedding self in
  users_emb ← gather user_emb users;
  let scores := matmul_t users_emb item_emb in
  Ok ((fun row : list fval => sigmoid <$> row) <$> scores).

(** ** Data loading

    The loading cell, from the point where a line of [train.txt] or
    [test.txt] has been split and converted: a line is the list of its
    integers, [list(map(int, line.strip().split()))], all of them
    non-negative ids.  The user of a line is its number in the file
    ([enumerate]); the first integer of the line is not read. *)

(** [for item in items[1:]: user_item_dict[user].add(item)] on a
    [defaultdict(set)]: the key appears with its first item. *)
Definition add_items (d : gmap nat (gset nat)) (user : nat) (items : list nat)
  : gmap nat (gset nat) :=
  foldl (fun d item => <[user := default ∅ (d !! user) ∪ {[item]}]> d) d (drop 1 items).

Definition load_train (lines : list (list nat)) : gmap nat (gset nat) :=
  foldl (fun d '(user, items) => add_items d user items) ∅
        (imap (fun user line => (user, line)) lines).

(** The ground-truth loop: a line with fewer than two integers is
    skipped. *)
Definition load_test (lines : list (list nat)) : ground_truth_dict :=
  '(user, parts) ← imap (fun user line => (user, line)) lines;
  if decide (length parts < 2) then [] else [(user, drop 1 parts)].

(** [train_user], [train_item]: one pair per stored interaction, in the
    iteration order of the dictionary and of its sets. *)
Definition train_pairs (user_item_dict : gmap nat (gset nat)) : list (nat * nat) :=
  '(user, items) ← map_to_list user_item_dict;
  (fun item => (user, item)) <$> elements items.

(** [max(all_items) + 1]; [max] of an empty set raises [ValueError]. *)
Definition count_items (user_item_dict : gmap nat (gset nat))
    (test_ground_truth : ground_truth_dict) : result nat :=
  let all_items : gset nat :=
    foldl (fun acc items => acc ∪ list_to_set items)
      (foldl (fun acc '(_, items) => acc ∪ items) ∅ (map_to_list user_item_dict))
      (test_ground_truth.*2) in
  match elements all_items with
  | [] => Raise ValueError
  | x :: xs => Ok (foldl max x xs + 1)
  end.

(** [num_users = len(user_item_dict)] *)
Definition count_users (user_item_dict : gmap nat (gset nat)) : nat :=
  size user_item_dict.

(** ** The run cell

    Model construction, training and the final evaluation, after the
    loading cell; the initial weights and optimizer are taken as given.
    [train_lightgcn] clears and refills the global [user_item_dict], which
    the final evaluation then reads. *)

Section Run.

Variable rng : Type.
Variable random_shuffle : rng -> list nat -> rng * list nat.
Variable random_choice : rng -> list nat -> rng * nat.
Variable np_random_permutation : rng -> nat -> rng * list nat.
Variable optimizer : Type.
Variable optimizer_step :
  optimizer -> LightGCN.t -> list nat -> list nat -> list nat -> optimizer * LightGCN.t.
Variable topk : list fval -> nat -> result (list nat).

Definition run_cell (cfg : config) (g : rng) (opt : optimizer)
    (user_weight item_weight : matrix) (train_lines test_lines : list (list nat))
  : result (fval * fval * fval) :=
  let user_item_dict := load_train train_lines in
  let test_ground_truth := load_test test_lines in
  let train_interactions := train_pairs user_item_dict in
  num_items ← count_items user_item_dict test_ground_truth;
  let num_users := count_users user_item_dict in
  model ← LightGCN.__init__ num_users num_items cfg.(cfg_embedding_dim)
             cfg.(cfg_num_layers) user_weight item_weight train_interactions;
  '(st, _, _) ←
    train_lightgcn rng random_shuffle random_choice np_random_permutation optimizer
      optimizer_step topk cfg (mk_state rng optimizer g opt model) train_interactions
      test_ground_truth cfg.(cfg_epochs) cfg.(cfg_batch_size) cfg.(cfg_eval_k)
      cfg.(cfg_patience);
  let user_item_dict := rebuild_user_item_dict train_interactions in
  evaluate_model topk st.(st_model rng optimizer) test_ground_truth user_item_dict
    cfg.(cfg_eval_k) 1024.

End Run.

(** ** Vocabulary of the further statements *)

(** A float that is not below zero: a non-negative number, [+inf] or
    [nan]. *)
Definition not_negative (x : fval) : Prop :=
  match x with
  | Num r => (0 <= r)%R
  | PInf | NaN => True
  | NInf => False
  end.

(** A finite float in [0, 1]; a float in [0, 1] or [nan]. *)
Definition in_unit (x : fval) : Prop :=
  match x with Num r => (0 <= r <= 1)%R | _ => False end.

Definition unit_or_nan (x : fval) : Prop :=
  match x with
  | Num r => (0 <= r <= 1)%R
  | NaN => True
  | PInf | NInf => False
  end.

(** Every row of the matrix has [d] entries. *)
Definition rectangular (d : nat) (m : matrix) : Prop :=
  Forall (fun row => length row = d) m.

(** A model of [U] users and [I] items with the shapes [__init__] gives
    and finite parameters: what a parameter update must keep for the next
    batch to be scored. *)
Definition valid_model (U I : nat) (m : LightGCN.t) : Prop :=
  well_shaped m /\ finite_model m /\
  m.(LightGCN.num_users) = U /\ m.(LightGCN.num_items) = I.

(** Every user of the dictionary is below [U] and every item below [I]. *)
Definition dict_in_range (U I : nat) (d : gmap nat (gset nat)) : Prop :=
  forall u items, d !! u = Some items -> u < U /\ forall i, i ∈ items -> i < I.

(** A user the sampler can draw a triple for: some interaction, and some
    item left to serve as the negative. *)
Definition samplable (user_item_dict : gmap nat (gset nat)) (all_items : gset nat)
    (u : nat) : Prop :=
  default ∅ (user_item_dict !! u) <> ∅ /\
  all_items ∖ default ∅ (user_item_dict !! u) <> ∅.

#[global] Instance samplable_dec d all u : Decision (samplable d all u).
Proof. unfold samplable. apply _. Defined.

(** A triple (user, positive, negative) that respects the interactions. *)
Definition good_sample (user_item_dict : gmap nat (gset nat)) (all_items : gset nat)
    (s : nat * nat * nat) : Prop :=
  s.1.2 ∈ default ∅ (user_item_dict !! s.1.1) /\
  s.2 ∈ all_items /\ (s.2 ∉ default ∅ (user_item_dict !! s.1.1)).

(** A held-out entry the evaluator can score: the user has an embedding,
    the entry lists at least one item, every listed item has an
    embedding, and at least [k] candidates remain. *)
Definition evaluable (U I k : nat) (user_item_dict : gmap nat (gset nat))
    (kv : nat * list nat) : Prop :=
  kv.1 < U /\ kv.2 <> [] /\ Forall (fun i => i < I) kv.2 /\
  k <= size (candidate_set I (default ∅ (user_item_dict !! kv.1)) kv.2).

(** What [torch.topk] guarantees on a one-dimensional tensor: for [k] no
    larger than the tensor, [k] distinct positions of the tensor. *)
Definition topk_valid (topk : list fval -> nat -> result (list nat)) : Prop :=
  forall scores k, k <= length scores ->
    exists top, topk scores k = Ok top /\ length top = k /\ NoDup top /\
                Forall (fun i => i < length scores) top.

(** The members of [all_items]: the items of some training set or of some
    ground-truth list. *)
Definition listed_item (user_item_dict : gmap nat (gset nat))
    (test_ground_truth : list (nat * list nat)) (i : nat) : Prop :=
  (exists u items, user_item_dict !! u = Some items /\ i ∈ items) \/
  (exists kv, kv ∈ test_ground_truth /\ i ∈ kv.2).

(** The state of the convergence controller after the finite scores [l],
    with [delta = 0]: the best score is the first maximum of [l], and the
    counter is the number of scores seen after it. *)
Definition es_state_of (l : list R) (es : EarlyStopping.t) : Prop :=
  exists pre best post,
    l = pre ++ best :: post /\
    Forall (fun y => (y < best)%R) pre /\
    Forall (fun y => (y <= best)%R) post /\
    EarlyStopping.best_score es = Some (Num best) /\
    EarlyStopping.counter es = length post /\
    EarlyStopping.delta es = Num 0.

(** ** Further instances *)

(** An optimizer that changes nothing. *)
Definition no_update (opt : unit) (m : LightGCN.t) (users pos neg : list nat)
  : unit * LightGCN.t := (opt, m).

(** A configuration small enough to run by hand: one embedding
    dimension, one layer, batches of two, two epochs, top-1 evaluation. *)
Definition tiny_config : config :=
  mk_config 1 1 (1 / 1000) 2 2 1 1 (1 / 10000).

(** Two training lines and two test lines over three items. *)
Definition tiny_train_lines : list (list nat) := [[0; 0; 1]; [1; 0]].
Definition tiny_test_lines : list (list nat) := [[0; 2]; [1; 1]].

(** * Proofs *)

(** ** Python runtime *)

(** Case analysis on the first call of a computation that the hypothesis
    [H] says returned: the branch where that call raised is closed. *)
Ltac first_call c :=
  lazymatch c with
  | mbind _ ?c' => first_call c'
  | _ => c
  end.

Tactic Notation "returned" "in" hyp(H) "as" simple_intropattern(pat) "eqn" ":" ident(E) :=
  lazymatch type of H with
  | ?c = Ok _ =>
      let call := first_call c in
      destruct call as [pat|] eqn:E; cbn [mbind result_bind] in H; [|done]
  end.

Lemma for_each_app {A S : Type} (body : S -> A -> result S) (l1 l2 : list A) (s : S) :
  for_each body (l1 ++ l2) s = (s' ← for_each body l1 s; for_each body l2 s').
Proof.
  revert s. induction l1 as [|x l1 IH]; intros s; [done|].
  cbn [app for_each]. destruct (body s x) as [s'|e]; [|done].
  cbn [mbind result_bind]. apply IH.
Qed.

Lemma bind_Ok_iff {A B : Type} (x : result A) (f : A -> result B) (b : B) :
  x ≫= f = Ok b <-> exists a, x = Ok a /\ f a = Ok b.
Proof.
  destruct x as [a|e]; cbn [mbind result_bind].
  - split; [by exists a|]. by intros (a' & [= <-] & H).
  - split; [done|]. by intros (a' & ? & _).
Qed.

Lemma length_range_from (s b c : nat) : length (range_from s b c) = c.
Proof. revert s. induction c as [|c IH]; intros s; simpl; [done|]. by rewrite IH. Qed.

Lemma range_len_ceil (n b : nat) : 0 < b -> range_len n b = (n + b - 1) / b.
Proof.
  intros Hb. destruct n as [|m]; cbn [range_len].
  - symmetry. apply Nat.div_small. lia.
  - assert (H : (S m + b - 1) / b = m / b + 1).
    { rewrite <- Nat.div_add by lia. f_equal. lia. }
    rewrite H. replace (S m - 1) with m by lia. lia.
Qed.

Lemma num_batches_divisible (n b : nat) :
  0 < b -> 0 < n -> n mod b = 0 -> n / b + 1 = range_len n b + 1.
Proof.
  intros Hb Hn Hmod. destruct n as [|m]; [lia|]. cbn [range_len].
  replace (S m - 1) with m by lia.
  pose proof (Nat.div_mod_eq (S m) b) as H1.
  pose proof (Nat.div_mod_eq m b) as H2.
  pose proof (Nat.mod_upper_bound m b ltac:(lia)) as H3.
  rewrite Hmod in H1.
  assert (S m / b = m / b + 1) by nia. lia.
Qed.

Lemma num_batches_not_divisible (n b : nat) :
  0 < b -> n mod b <> 0 -> n / b + 1 = range_len n b.
Proof.
  intros Hb Hmod. destruct n as [|m].
  - rewrite Nat.Div0.mod_0_l in Hmod. done.
  - cbn [range_len]. replace (S m - 1) with m by lia.
    pose proof (Nat.div_mod_eq (S m) b) as H1.
    pose proof (Nat.div_mod_eq m b) as H2.
    pose proof (Nat.mod_upper_bound m b ltac:(lia)) as H3.
    pose proof (Nat.mod_upper_bound (S m) b ltac:(lia)) as H4.
    assert (S m / b = m / b) by nia. lia.
Qed.

Lemma range_from_lt (s b c x : nat) :
  x ∈ range_from s b c -> exists i, i < c /\ x = s + i * b.
Proof.
  revert s. induction c as [|c IH]; intros s Hx; cbn [range_from] in Hx.
  - by apply elem_of_nil in Hx.
  - apply elem_of_cons in Hx as [->|Hx].
    + exists 0. lia.
    + apply IH in Hx as (i & Hi & ->). exists (S i). lia.
Qed.

Lemma batch_slices_nonempty {A : Type} (xs : list A) (batch_size : nat) (starts : list nat) :
  range_step (length xs) batch_size = Ok starts ->
  Forall (fun start => slice xs start (start + batch_size) <> []) starts.
Proof.
  unfold range_step. case_decide as Hb; [done|]. intros [= <-].
  apply Forall_forall. intros x Hx.
  apply range_from_lt in Hx as (i & Hi & ->).
  assert (Hlt : i * batch_size < length xs).
  { unfold range_len in Hi. destruct (length xs) as [|m]; [lia|].
    replace (S m - 1) with m in Hi by lia.
    pose proof (Nat.Div0.mul_div_le m batch_size). nia. }
  unfold slice. intros Hnil.
  apply (f_equal length) in Hnil. rewrite length_take, length_drop in Hnil.
  simpl in Hnil. lia.
Qed.

(** ** Dense tensors: the two ways of averaging the layers *)

Lemma fdiv_count_1 x : fdiv_count x 1 = x.
Proof.
  destruct x; simpl; try reflexivity.
  f_equal. lra.
Qed.

Lemma vdiv_count_1 v : vdiv_count v 1 = v.
Proof.
  unfold vdiv_count. induction v as [|x v IH]; [done|].
  rewrite fmap_cons, fdiv_count_1. f_equal. exact IH.
Qed.

Lemma length_foldl_madd (ms : list matrix) (m0 : matrix) N :
  length m0 = N -> Forall (fun m => length m = N) ms ->
  length (foldl madd m0 ms) = N.
Proof.
  revert m0. induction ms as [|m ms IH]; intros m0 H0 Hall; simpl; [done|].
  inversion Hall; subst. apply IH; [|done].
  unfold madd. rewrite length_zip_with. lia.
Qed.

Lemma lookup_foldl_madd (ms : list matrix) (m0 : matrix) N n :
  length m0 = N -> Forall (fun m => length m = N) ms -> n < N ->
  foldl madd m0 ms !! n
  = Some (foldl vadd (default [] (m0 !! n)) ((fun t => default [] (t !! n)) <$> ms)).
Proof.
  revert m0. induction ms as [|m ms IH]; intros m0 H0 Hall Hn.
  - destruct (lookup_lt_is_Some_2 m0 n) as [r Hr]; [lia|]. by rewrite fmap_nil, Hr.
  - inversion Hall as [|? ? Hm Hms]; subst.
    rewrite fmap_cons. cbn [foldl].
    rewrite IH; [|unfold madd; rewrite length_zip_with; lia|done|done].
    destruct (lookup_lt_is_Some_2 m0 n) as [r Hr]; [lia|].
    destruct (lookup_lt_is_Some_2 m n) as [r' Hr']; [lia|].
    unfold madd at 1. rewrite lookup_zip_with, Hr, Hr'. simpl. done.
Qed.

Lemma message_passing_rows adj emb L :
  Forall (fun m => length m = adj.(shape).1) (LightGCN.message_passing adj emb L).
Proof.
  revert emb. induction L as [|L IH]; intros emb; simpl; constructor.
  - unfold sparse_mm. by rewrite length_fmap, length_seq.
  - apply IH.
Qed.

Lemma mean_stack_dim1_dim0 (t0 : matrix) (ts : list matrix) :
  Forall (fun m => length m = length t0) ts ->
  mean_dim1 (stack_dim1 (t0 :: ts)) = mean_dim0 (stack_dim0 (t0 :: ts)).
Proof.
  intros Hall. apply list_eq. intros n.
  unfold mean_dim1, mean_dim0, stack_dim1, stack_dim0, mdiv_count.
  rewrite !list_lookup_fmap.
  destruct (decide (n < length t0)) as [Hn|Hn].
  - rewrite lookup_seq_lt by done. simpl.
    rewrite (lookup_foldl_madd ts t0 (length t0) n) by done. simpl.
    by rewrite length_fmap.
  - rewrite lookup_seq_ge by lia. simpl.
    rewrite lookup_ge_None_2; [done|].
    rewrite (length_foldl_madd ts t0 (length t0)); [lia|done|done].
Qed.

Lemma mean_dim1_single (m : matrix) : mean_dim1 (stack_dim1 [m]) = m.
Proof.
  unfold mean_dim1, stack_dim1. apply list_eq. intros n.
  rewrite !list_lookup_fmap.
  destruct (decide (n < length m)) as [Hn|Hn].
  - rewrite lookup_seq_lt by done. simpl.
    destruct (lookup_lt_is_Some_2 m n Hn) as [r Hr].
    rewrite Hr. simpl. by rewrite vdiv_count_1.
  - rewrite lookup_seq_ge by lia. simpl.
    symmetry. apply lookup_ge_None_2. lia.
Qed.

Lemma getEmbedding_no_layers (self : LightGCN.t) :
  self.(LightGCN.num_layers) = 0 ->
  length self.(LightGCN.user_embedding) = self.(LightGCN.num_users) ->
  LightGCN.getEmbedding self
  = (self.(LightGCN.user_embedding), self.(LightGCN.item_embedding)).
Proof.
  intros HL HU. unfold LightGCN.getEmbedding. rewrite HL.
  cbn [LightGCN.message_passing]. rewrite mean_dim1_single.
  unfold cat. rewrite <- HU.
  by rewrite take_app_length, drop_app_length.
Qed.

Lemma mdiv_count_1 (m : matrix) : mdiv_count m 1 = m.
Proof.
  unfold mdiv_count. induction m as [|v m IH]; [done|].
  rewrite fmap_cons, IH. f_equal.
  unfold vdiv_count. induction v as [|x v IHv]; [done|].
  rewrite fmap_cons, IHv. f_equal. destruct x; try done. simpl. f_equal. lra.
Qed.

Lemma forward_no_layers (self : LightGCN.t) :
  self.(LightGCN.num_layers) = 0 ->
  length self.(LightGCN.user_embedding) = self.(LightGCN.num_users) ->
  LightGCN.forward self = (self.(LightGCN.user_embedding), self.(LightGCN.item_embedding)).
Proof.
  intros HL HU. unfold LightGCN.forward. rewrite HL.
  cbn [LightGCN.message_passing]. unfold mean_dim0, stack_dim0.
  cbn [sum_slices foldl length]. rewrite mdiv_count_1.
  unfold cat. rewrite <- HU. by rewrite take_app_length, drop_app_length.
Qed.

(** C7.  With [num_layers = 0] propagation returns exactly the layer-0
    user and item embeddings, whatever the adjacency: the mean over the
    one-element layer sequence is the identity.  This holds for
    [getEmbedding] and for [forward]. *)
Theorem getEmbedding_zero_layers (self : LightGCN.t) :
  self.(LightGCN.num_layers) = 0 ->
  length self.(LightGCN.user_embedding) = self.(LightGCN.num_users) ->
  LightGCN.getEmbedding self
  = (self.(LightGCN.user_embedding), self.(LightGCN.item_embedding)) /\
  LightGCN.forward self
  = (self.(LightGCN.user_embedding), self.(LightGCN.item_embedding)).
Proof.
  intros HL HU. split; [by apply getEmbedding_no_layers|by apply forward_no_layers].
Qed.

Lemma getEmbedding_zero_layers_witness :
  LightGCN.getEmbedding two_user_model
  = ([[Num 1]; [Num 2]], [[Num 1]; [Num 2]]) /\
  LightGCN.forward two_user_model
  = ([[Num 1]; [Num 2]], [[Num 1]; [Num 2]]).
Proof.
  apply (getEmbedding_zero_layers two_user_model); reflexivity.
Defined.

(** C10.  [getEmbedding] (stack along dimension 1, mean over dimension 1)
    and [forward] (stack along dimension 0, mean over dimension 0) return
    the same pair of user and item embeddings on every model whose
    tables and adjacency have the shapes [__init__] gives them; the
    objective, which calls the first, and the evaluator, which calls the
    second, score against the same embeddings. *)
Theorem getEmbedding_forward (self : LightGCN.t) :
  well_shaped self ->
  LightGCN.getEmbedding self = LightGCN.forward self.
Proof.
  intros (HU & HI & Hshape).
  unfold LightGCN.getEmbedding, LightGCN.forward.
  rewrite mean_stack_dim1_dim0; [done|].
  eapply Forall_impl; [apply message_passing_rows|].
  intros m Hm. simpl in Hm. rewrite Hm, Hshape. unfold cat.
  rewrite length_app. simpl. lia.
Qed.

Lemma getEmbedding_forward_witness :
  LightGCN.getEmbedding small_model = LightGCN.forward small_model.
Proof.
  apply (getEmbedding_forward small_model).
  repeat split; reflexivity.
Defined.

(** ** The graph builder *)

Lemma foldl_fadd_Num (x : R) (l : list R) :
  foldl fadd (Num x) (Num <$> l) = Num (foldl Rplus x l).
Proof.
  revert x. induction l as [|y l IH]; intros x; [done|].
  rewrite fmap_cons. cbn [foldl fadd]. apply IH.
Qed.

Lemma foldl_fadd_replicate (x r : R) (n : nat) :
  foldl fadd (Num x) (replicate n (Num r)) = Num (x + INR n * r).
Proof.
  revert x. induction n as [|n IH]; intros x.
  - simpl. f_equal. lra.
  - cbn [replicate foldl fadd]. rewrite IH. f_equal. rewrite S_INR. lra.
Qed.

Lemma fsum_replicate (r : R) (n : nat) :
  fsum (replicate n (Num r)) = Num (INR n * r).
Proof.
  unfold fsum. rewrite foldl_fadd_replicate. f_equal. lra.
Qed.

(** Values selected from a list of triples built from pairs. *)
Lemma values_filter_map {A : Type} (coord : A -> nat * nat) (v : fval)
    (P : nat * nat * fval -> Prop) `{!forall e, Decision (P e)} (l : list A) :
  (fun e : nat * nat * fval => e.2) <$> filter P ((fun p => (coord p, v)) <$> l)
  = replicate (length (filter (fun p => P (coord p, v)) l)) v.
Proof.
  induction l as [|p l IH]; [done|].
  rewrite fmap_cons, !filter_cons.
  destruct (decide (P (coord p, v))); [|done].
  rewrite fmap_cons. simpl. by rewrite IH.
Qed.

Lemma zip_pairs_ones (U : nat) (pairs : list (nat * nat)) :
  zip (zip ((fun p => p.1) <$> pairs) ((fun p => p.2 + U) <$> pairs))
      (replicate (length ((fun p : nat * nat => p.1) <$> pairs)) (Num 1))
  = (fun p => ((p.1, p.2 + U), Num 1)) <$> pairs.
Proof.
  induction pairs as [|p pairs IH]; [done|].
  rewrite !fmap_cons. cbn [length replicate zip zip_with]. f_equal.
  exact IH.
Qed.

Lemma filter_at_pos_products (a b : nat) (e1 : nat * nat * fval)
    (l : list (nat * nat * fval)) :
  filter (at_pos a b)
    (e2 ← filter (fun e2 : nat * nat * fval => e2.1.1 = e1.1.2) l;
     [(e1.1.1, e2.1.2, fmul e1.2 e2.2)])
  = if decide (e1.1.1 = a)
    then e2 ← filter (fun e2 : nat * nat * fval => e2.1.1 = e1.1.2 /\ e2.1.2 = b) l;
         [(e1.1.1, e2.1.2, fmul e1.2 e2.2)]
    else [].
Proof.
  induction l as [|e2 l IH].
  - by destruct (decide (e1.1.1 = a)).
  - rewrite !filter_cons.
    destruct (decide (e2.1.1 = e1.1.2)) as [Hk|Hk].
    + rewrite bind_cons, filter_app, IH.
      rewrite filter_cons, filter_nil. unfold at_pos at 1. cbn [fst snd].
      repeat case_decide; rewrite ?bind_cons; try done; exfalso; intuition.
    + rewrite IH.
      repeat case_decide; rewrite ?bind_cons; try done; exfalso; intuition.
Qed.

Lemma filter_sp_matmul (m1 m2 : coo) (a b : nat) :
  filter (at_pos a b) (sp_matmul m1 m2).(entries)
  = e1 ← filter (fun e : nat * nat * fval => e.1.1 = a) m1.(entries);
    e2 ← filter (fun e2 : nat * nat * fval => e2.1.1 = e1.1.2 /\ e2.1.2 = b) m2.(entries);
    [(e1.1.1, e2.1.2, fmul e1.2 e2.2)].
Proof.
  unfold sp_matmul. cbn [entries].
  induction (entries m1) as [|e1 l IH]; [done|].
  rewrite bind_cons, filter_app, IH, filter_at_pos_products, filter_cons.
  destruct (decide (e1.1.1 = a)); [|done].
  by rewrite bind_cons.
Qed.

Lemma zip_diag {A : Type} (f : nat -> A) (l : list nat) :
  zip (zip l l) (f <$> l) = (fun a => ((a, a), f a)) <$> l.
Proof.
  induction l as [|a l IH]; [done|].
  rewrite !fmap_cons. cbn [zip zip_with]. f_equal. exact IH.
Qed.

Lemma filter_row_diag_from (d : nat -> fval) (a s n : nat) :
  filter (fun e : nat * nat * fval => e.1.1 = a) ((fun i => ((i, i), d i)) <$> seq s n)
  = if decide (s <= a < s + n) then [((a, a), d a)] else [].
Proof.
  revert s. induction n as [|n IH]; intros s.
  - simpl. case_decide; [lia|done].
  - cbn [seq]. rewrite fmap_cons, filter_cons, IH. cbn [fst snd].
    repeat case_decide; subst; try done; lia.
Qed.

Lemma filter_row_diag (d : nat -> fval) (a n : nat) :
  filter (fun e : nat * nat * fval => e.1.1 = a) (diag d n)
  = if decide (a < n) then [((a, a), d a)] else [].
Proof.
  unfold diag. rewrite filter_row_diag_from.
  repeat case_decide; try done; lia.
Qed.

Lemma filter_rowcol_diag_from (d : nat -> fval) (j b s n : nat) :
  filter (fun e : nat * nat * fval => e.1.1 = j /\ e.1.2 = b)
    ((fun i => ((i, i), d i)) <$> seq s n)
  = if decide (j = b /\ s <= b < s + n) then [((b, b), d b)] else [].
Proof.
  revert s. induction n as [|n IH]; intros s.
  - simpl. case_decide; [lia|done].
  - cbn [seq]. rewrite fmap_cons, filter_cons, IH. cbn [fst snd].
    repeat case_decide; try done; try (exfalso; lia).
    destruct_and!. by subst.
Qed.

Lemma filter_rowcol_diag (d : nat -> fval) (j b n : nat) :
  filter (fun e : nat * nat * fval => e.1.1 = j /\ e.1.2 = b) (diag d n)
  = if decide (j = b /\ b < n) then [((b, b), d b)] else [].
Proof.
  unfold diag. rewrite filter_rowcol_diag_from.
  repeat case_decide; try done; exfalso; lia.
Qed.

Lemma bind_filter_singleton {A B : Type} (P : A -> Prop) `{!forall x, Decision (P x)}
    (f : A -> B) (l : list A) :
  (x ← l; if decide (P x) then [f x] else []) = f <$> filter P l.
Proof.
  induction l as [|x l IH]; [done|].
  rewrite bind_cons, filter_cons, IH. by case_decide.
Qed.

Lemma filter_diag_left (d : nat -> fval) (n : nat) (shp : nat * nat) (m : coo) (a b : nat) :
  filter (at_pos a b) (sp_matmul (mk_coo shp (diag d n)) m).(entries)
  = if decide (a < n)
    then (fun e : nat * nat * fval => ((a, e.1.2), fmul (d a) e.2))
           <$> filter (at_pos a b) m.(entries)
    else [].
Proof.
  rewrite filter_sp_matmul. cbn [entries]. rewrite filter_row_diag.
  case_decide; [|done].
  rewrite bind_singleton. cbn [fst snd].
  induction (entries m) as [|e l IH]; [done|].
  rewrite !filter_cons.
  repeat case_decide; rewrite ?bind_cons, ?fmap_cons, ?IH; try done;
    exfalso; unfold at_pos in *; intuition.
Qed.

Lemma filter_diag_right (d : nat -> fval) (n : nat) (shp : nat * nat) (m : coo) (a b : nat) :
  filter (at_pos a b) (sp_matmul m (mk_coo shp (diag d n))).(entries)
  = if decide (b < n)
    then (fun e : nat * nat * fval => ((e.1.1, b), fmul e.2 (d b)))
           <$> filter (at_pos a b) m.(entries)
    else [].
Proof.
  rewrite filter_sp_matmul. cbn [entries].
  induction (entries m) as [|e l IH].
  - by case_decide.
  - rewrite !filter_cons. unfold at_pos at 1.
    destruct (decide (e.1.1 = a)) as [Ha|Ha].
    + rewrite bind_cons, IH, filter_rowcol_diag.
      repeat case_decide; rewrite ?fmap_cons; unfold at_pos in *; destruct_and?;
        subst; try done; exfalso; intuition.
    + rewrite IH. repeat case_decide; try done; exfalso; unfold at_pos in *; intuition.
Qed.

Lemma build_sym_adj_ok (U I : nat) (pairs : list (nat * nat)) :
  in_range U I pairs ->
  LightGCN.build_sym_adj U I pairs = Ok (mk_coo (U + I, U + I) (sym_entries U pairs)).
Proof.
  intros Hr. unfold LightGCN.build_sym_adj, coo_matrix.
  rewrite decide_True.
  - cbn. unfold sp_add, transpose, sym_entries. cbn [entries shape fst snd].
    rewrite zip_pairs_ones. do 2 f_equal. f_equal.
    rewrite <- list_fmap_compose. apply list_fmap_ext. by intros _ [u i] _.
  - cbn [fst snd]. rewrite !Forall_fmap, length_replicate, !length_fmap.
    repeat split; try done.
    + eapply Forall_impl; [exact Hr|]. intros [u i] [? ?]. simpl in *. lia.
    + eapply Forall_impl; [exact Hr|]. intros [u i] [? ?]. simpl in *. lia.
Qed.

Lemma length_filter_or {A : Type} (P Q : A -> Prop)
    `{!forall x, Decision (P x)} `{!forall x, Decision (Q x)} (l : list A) :
  Forall (fun x => ~ (P x /\ Q x)) l ->
  length (filter (fun x => P x \/ Q x) l) = length (filter P l) + length (filter Q l).
Proof.
  induction 1 as [|x l Hx Hl IH]; [done|].
  rewrite !filter_cons.
  repeat case_decide; simpl; rewrite ?IH; try lia; exfalso; intuition.
Qed.

Lemma in_range_exclusive U I pairs a :
  in_range U I pairs ->
  Forall (fun p : nat * nat => ~ (p.1 = a /\ p.2 + U = a)) pairs.
Proof.
  intros Hr. eapply Forall_impl; [exact Hr|]. intros [u i] [? ?]. simpl in *. lia.
Qed.

Lemma row_values_sym (U I : nat) (pairs : list (nat * nat)) (shp : nat * nat) (a : nat) :
  in_range U I pairs ->
  row_values (mk_coo shp (sym_entries U pairs)) a = replicate (degree U pairs a) (Num 1).
Proof.
  intros Hr. unfold row_values, sym_entries, degree, touches. cbn [entries].
  rewrite filter_app, fmap_app.
  rewrite (values_filter_map (fun p : nat * nat => (p.1, p.2 + U)) (Num 1)
             (fun e : nat * nat * fval => e.1.1 = a)).
  rewrite (values_filter_map (fun p : nat * nat => (p.2 + U, p.1)) (Num 1)
             (fun e : nat * nat * fval => e.1.1 = a)).
  cbn [fst snd]. rewrite <- replicate_add. f_equal.
  symmetry. apply (length_filter_or (fun p : nat * nat => p.1 = a)
                     (fun p : nat * nat => p.2 + U = a)).
  by apply (in_range_exclusive U I).
Qed.

Lemma values_at_sym (U : nat) (pairs : list (nat * nat)) (shp : nat * nat) (a b : nat) :
  (fun e : nat * nat * fval => e.2)
    <$> filter (at_pos a b) (mk_coo shp (sym_entries U pairs)).(entries)
  = replicate (multiplicity U pairs a b) (Num 1).
Proof.
  unfold sym_entries, multiplicity. cbn [entries].
  rewrite filter_app, fmap_app.
  rewrite (values_filter_map (fun p : nat * nat => (p.1, p.2 + U)) (Num 1) (at_pos a b)).
  rewrite (values_filter_map (fun p : nat * nat => (p.2 + U, p.1)) (Num 1) (at_pos a b)).
  by rewrite <- replicate_add.
Qed.

Lemma eps_pos : (0 < LightGCN.eps)%R.
Proof. unfold LightGCN.eps. apply Rinv_0_lt_compat. apply pow_lt. lra. Qed.

Lemma np_power_neg_half_pos (x : R) :
  (0 < x)%R -> np_power_neg_half (Num x) = Num (/ sqrt x).
Proof. intros Hx. unfold np_power_neg_half. by destruct (Rlt_dec 0 x). Qed.

Lemma build_adj_matrix_ok (U I : nat) (pairs : list (nat * nat)) :
  in_range U I pairs ->
  LightGCN.build_adj_matrix U I pairs = Ok (norm_adj_of U I pairs).
Proof.
  intros Hr. unfold LightGCN.build_adj_matrix.
  rewrite (build_sym_adj_ok U I pairs Hr). cbn [mbind result_bind].
  unfold sum_axis1. cbn [shape fst].
  rewrite <- list_fmap_compose.
  unfold coo_matrix. rewrite decide_True.
  - cbn [mbind result_bind]. unfold LightGCN._convert_sp_mat_to_sp_tensor, norm_adj_of.
    cbn [shape entries fst snd sp_matmul].
    rewrite zip_diag. do 2 f_equal.
    assert (Hd : (fun a => ((a, a),
                    (compose (fun s => np_power_neg_half (fadd s (Num LightGCN.eps)))
                       (fun a0 => fsum (row_values
                          (mk_coo (U + I, U + I) (sym_entries U pairs)) a0))) a))
                 <$> seq 0 (U + I)
                 = diag (fun a => Num (dinv U pairs a)) (U + I)).
    { unfold diag. apply list_fmap_ext. intros _ a _. f_equal.
      unfold compose. rewrite (row_values_sym U I) by done.
      rewrite fsum_replicate. cbn [fadd]. rewrite np_power_neg_half_pos.
      - unfold dinv. do 3 f_equal. lra.
      - pose proof eps_pos. pose proof (pos_INR (degree U pairs a)). lra. }
    by rewrite Hd.
  - cbn [fst snd]. rewrite !length_fmap, !length_seq.
    repeat split; try done; apply Forall_seq; intros; lia.
Qed.

Lemma multiplicity_out_of_range U I pairs a b :
  in_range U I pairs -> ~ (a < U + I /\ b < U + I) -> multiplicity U pairs a b = 0.
Proof.
  intros Hr Hab. unfold multiplicity.
  assert (Hnil : forall (P : nat * nat -> Prop) `{!forall p, Decision (P p)},
             (forall p, p.1 < U -> p.2 < I -> ~ P p) -> length (filter P pairs) = 0).
  { intros P ? HP. induction Hr as [|p l [Hu Hi] Hl IH]; [done|].
    rewrite filter_cons. case_decide; [|done]. exfalso. by eapply HP. }
  rewrite !Hnil; [done| |]; intros [u i] ? ? [? ?]; simpl in *; lia.
Qed.

Lemma norm_values (U I : nat) (pairs : list (nat * nat)) (a b : nat) :
  in_range U I pairs ->
  (fun e : nat * nat * fval => e.2) <$> filter (at_pos a b) (norm_adj_of U I pairs).(entries)
  = replicate (multiplicity U pairs a b) (Num (dinv U pairs a * 1 * dinv U pairs b)).
Proof.
  intros Hr. unfold norm_adj_of. cbv zeta.
  rewrite filter_diag_right. case_decide as Hb.
  - rewrite filter_diag_left. case_decide as Ha.
    + rewrite <- !list_fmap_compose.
      trans ((fun v => fmul (fmul (Num (dinv U pairs a)) v) (Num (dinv U pairs b)))
               <$> replicate (multiplicity U pairs a b) (Num 1));
        [|by rewrite fmap_replicate].
      rewrite <- (values_at_sym U pairs (U + I, U + I) a b).
      by rewrite <- list_fmap_compose.
    + rewrite (multiplicity_out_of_range U I) by (done || lia). done.
  - rewrite (multiplicity_out_of_range U I) by (done || lia). done.
Qed.

Lemma norm_entry (U I : nat) (pairs : list (nat * nat)) (a b : nat) :
  in_range U I pairs ->
  entry (norm_adj_of U I pairs) a b
  = Num (INR (multiplicity U pairs a b) * (dinv U pairs a * 1 * dinv U pairs b)).
Proof.
  intros Hr. unfold entry. rewrite (norm_values U I) by done. apply fsum_replicate.
Qed.

Lemma multiplicity_sym U pairs a b : multiplicity U pairs a b = multiplicity U pairs b a.
Proof.
  unfold multiplicity. rewrite Nat.add_comm.
  f_equal; f_equal; apply list_filter_iff; intros p; tauto.
Qed.

Lemma sp_matmul_finite (m1 m2 : coo) :
  Forall (fun e => is_finite e.2) m1.(entries) ->
  Forall (fun e => is_finite e.2) m2.(entries) ->
  Forall (fun e => is_finite e.2) (sp_matmul m1 m2).(entries).
Proof.
  intros H1 H2. unfold sp_matmul. cbn [entries].
  apply Forall_forall. intros e He.
  apply list_elem_of_bind in He as (e1 & He & He1).
  apply list_elem_of_bind in He as (e2 & He & He2).
  apply list_elem_of_singleton in He. subst e.
  apply list_elem_of_filter in He2 as [_ He2].
  rewrite Forall_forall in H1, H2.
  specialize (H1 _ He1). specialize (H2 _ He2). cbn [snd].
  destruct (e1.2), (e2.2); done.
Qed.

Lemma norm_adj_finite (U I : nat) (pairs : list (nat * nat)) :
  Forall (fun e => is_finite e.2) (norm_adj_of U I pairs).(entries).
Proof.
  unfold norm_adj_of. cbv zeta.
  assert (Hd : Forall (fun e : nat * nat * fval => is_finite e.2)
                 (diag (fun a => Num (dinv U pairs a)) (U + I))).
  { unfold diag. by apply Forall_fmap, Forall_true. }
  apply sp_matmul_finite; [apply sp_matmul_finite|]; cbn [entries]; try done.
  unfold sym_entries. apply Forall_app. split; by apply Forall_fmap, Forall_true.
Qed.

Lemma degree_zero_multiplicity U pairs a b :
  degree U pairs a = 0 -> multiplicity U pairs a b = 0 /\ multiplicity U pairs b a = 0.
Proof.
  unfold degree, multiplicity. intros Hd.
  assert (Hnone : Forall (fun p => ~ touches U a p) pairs).
  { apply Forall_forall. intros p Hp Ht.
    assert (Hin : p ∈ filter (touches U a) pairs) by (apply list_elem_of_filter; done).
    apply nil_length_inv in Hd. rewrite Hd in Hin. by apply not_elem_of_nil in Hin. }
  assert (Hnil : forall (P : nat * nat -> Prop) `{!forall p, Decision (P p)},
             (forall p, P p -> touches U a p) -> length (filter P pairs) = 0).
  { intros P ? HP. clear Hd. induction Hnone as [|p l Hp Hl IH]; [done|].
    rewrite filter_cons. case_decide; [|done]. exfalso. apply Hp. by apply HP. }
  rewrite !Hnil; [done| | | |]; intros p [? ?]; unfold touches; tauto.
Qed.

Lemma count_NoDup {A : Type} `{EqDecision A} (l : list A) (x : A) :
  NoDup l -> x ∈ l -> length (filter (fun y => y = x) l) = 1.
Proof.
  induction 1 as [|y l Hy Hl IH]; intros Hx; [by apply not_elem_of_nil in Hx|].
  rewrite filter_cons. case_decide as Heq.
  - subst y. simpl. f_equal.
    clear IH Hx Hl. induction l as [|z l IH]; [done|].
    rewrite filter_cons. case_decide.
    + subst. exfalso. apply Hy. by left.
    + apply IH. intros Hin. apply Hy. by right.
  - apply IH. apply elem_of_cons in Hx as [Hx|Hx]; [by subst|done].
Qed.

Lemma multiplicity_edge U I pairs u i :
  in_range U I pairs -> NoDup pairs -> (u, i) ∈ pairs ->
  multiplicity U pairs u (i + U) = 1.
Proof.
  intros Hr Hnd Hin. unfold multiplicity.
  rewrite (list_filter_iff _ (fun p => p = (u, i))).
  2:{ intros [u' i']. simpl. split; [intros [? ?]|intros [= -> ->]; done].
      f_equal; lia. }
  rewrite count_NoDup by done.
  assert (Hnil : length (filter (fun p : nat * nat => p.2 + U = u /\ p.1 = i + U) pairs) = 0).
  { clear Hin Hnd. induction Hr as [|p l [Hu Hi] Hl IH]; [done|].
    rewrite filter_cons. case_decide; [|done]. exfalso. lia. }
  by rewrite Hnil.
Qed.

Lemma size_edges_touching U pairs a :
  NoDup pairs -> size (edges_touching U pairs a) = degree U pairs a.
Proof.
  intros Hnd. unfold edges_touching, degree.
  apply size_list_to_set. by apply NoDup_filter.
Qed.

Lemma dinv_product (x y : R) :
  (0 < x)%R -> (0 < y)%R -> (1 * (/ sqrt x * 1 * / sqrt y) = 1 / sqrt (x * y))%R.
Proof.
  intros Hx Hy. rewrite sqrt_mult by lra.
  pose proof (sqrt_lt_R0 x Hx). pose proof (sqrt_lt_R0 y Hy).
  field. split; lra.
Qed.

Lemma sum_axis1_sym (U I : nat) (pairs : list (nat * nat)) (a : nat) :
  in_range U I pairs -> a < U + I ->
  sum_axis1 (mk_coo (U + I, U + I) (sym_entries U pairs)) !! a
  = Some (Num (INR (degree U pairs a))).
Proof.
  intros Hr Ha. unfold sum_axis1. cbn [shape fst].
  rewrite list_lookup_fmap, lookup_seq_lt by done. cbn [fmap option_fmap option_map].
  rewrite (row_values_sym U I) by done. rewrite fsum_replicate.
  do 2 f_equal. simpl. lra.
Qed.

Lemma sym_entry (U : nat) (pairs : list (nat * nat)) (shp : nat * nat) (a b : nat) :
  entry (mk_coo shp (sym_entries U pairs)) a b = Num (INR (multiplicity U pairs a b) * 1).
Proof. unfold entry. rewrite values_at_sym. apply fsum_replicate. Qed.

(** C5 (amended).  For interactions that are distinct and in range, the
    unnormalized matrix [A = R + R.T] is symmetric, [A[a,b] = A[b,a]] for
    all node pairs, and the row sum of every node (no node has a
    self-loop here) equals the number of distinct edges touching that
    node, once and not twice. *)
Theorem sym_adj_symmetric_row_sums (U I : nat) (pairs : list (nat * nat)) :
  in_range U I pairs -> NoDup pairs ->
  exists adj,
    LightGCN.build_sym_adj U I pairs = Ok adj /\
    (forall a b, entry adj a b = entry adj b a) /\
    (forall a, a < U + I ->
       sum_axis1 adj !! a = Some (Num (INR (size (edges_touching U pairs a))))).
Proof.
  intros Hr Hnd. eexists. split; [by apply build_sym_adj_ok|]. split.
  - intros a b. by rewrite !sym_entry, multiplicity_sym.
  - intros a Ha. rewrite size_edges_touching by done. by apply (sum_axis1_sym U I).
Qed.

Lemma sym_adj_symmetric_row_sums_witness :
  exists adj,
    LightGCN.build_sym_adj 3 4 [(0, 1); (0, 2); (1, 0); (2, 3)] = Ok adj /\
    (forall a b, entry adj a b = entry adj b a) /\
    (forall a, a < 3 + 4 ->
       sum_axis1 adj !! a
       = Some (Num (INR (size (edges_touching 3 [(0, 1); (0, 2); (1, 0); (2, 3)] a))))).
Proof.
  apply sym_adj_symmetric_row_sums.
  - unfold in_range. repeat constructor; simpl; lia.
  - by apply (bool_decide_unpack (NoDup _)).
Defined.

(** C5, counterexample: one user, one item, one interaction.  Node 0 has
    one edge and no self-loop; its row sum is 1, not 2. *)
Lemma sym_adj_row_sum_once :
  exists adj,
    LightGCN.build_sym_adj 1 1 [(0, 0)] = Ok adj /\
    sum_axis1 adj !! 0 = Some (Num 1) /\
    sum_axis1 adj !! 0 <> Some (Num (INR (2 * size (edges_touching 1 [(0, 0)] 0)))).
Proof.
  assert (Hr : in_range 1 1 [(0, 0)]) by (repeat constructor; simpl; lia).
  assert (Hnd : NoDup [(0, 0)]) by (apply NoDup_singleton).
  eexists. split; [by apply build_sym_adj_ok|].
  rewrite (sum_axis1_sym 1 1) by (done || lia).
  rewrite size_edges_touching by done.
  change (degree 1 [(0, 0)] 0) with 1. split.
  - do 2 f_equal.
  - intros [= H]. simpl in H. lra.
Qed.

Lemma norm_entry_sym (U I : nat) (pairs : list (nat * nat)) (a b : nat) :
  in_range U I pairs ->
  entry (norm_adj_of U I pairs) a b = entry (norm_adj_of U I pairs) b a.
Proof.
  intros Hr. rewrite !(norm_entry U I) by done.
  rewrite (multiplicity_sym U pairs a b). f_equal. lra.
Qed.

Lemma degree_eps_pos U pairs a : (0 < INR (degree U pairs a) + LightGCN.eps)%R.
Proof. pose proof eps_pos. pose proof (pos_INR (degree U pairs a)). lra. Qed.

(** C4 (amended).  For interactions that are distinct and in range, the
    normalized matrix is symmetric and the value computed for each edge
    (a, b), which the final cast rounds to [float32], equals
    [1 / sqrt ((deg a + eps) * (deg b + eps))] with [eps = 1e-8], where
    [deg] is the node degree in the unnormalized symmetric graph. *)
Theorem norm_adj_symmetric_weights (U I : nat) (pairs : list (nat * nat)) :
  in_range U I pairs -> NoDup pairs ->
  exists norm,
    LightGCN.build_adj_matrix U I pairs = Ok norm /\
    (forall a b, entry norm a b = entry norm b a) /\
    (forall u i, (u, i) ∈ pairs ->
       entry norm u (i + U)
       = Num (1 / sqrt ((INR (degree U pairs u) + LightGCN.eps)
                        * (INR (degree U pairs (i + U)) + LightGCN.eps)))).
Proof.
  intros Hr Hnd. exists (norm_adj_of U I pairs).
  split; [by apply build_adj_matrix_ok|]. split.
  - intros a b. by apply norm_entry_sym.
  - intros u i Hin. rewrite (norm_entry U I) by done.
    rewrite (multiplicity_edge U I) by done. f_equal.
    unfold dinv. change (INR 1) with 1%R.
    apply dinv_product; apply degree_eps_pos.
Qed.

Lemma norm_adj_symmetric_weights_witness :
  exists norm,
    LightGCN.build_adj_matrix 3 4 [(0, 1); (0, 2); (1, 0); (2, 3)] = Ok norm /\
    (forall a b, entry norm a b = entry norm b a) /\
    (forall u i, (u, i) ∈ [(0, 1); (0, 2); (1, 0); (2, 3)] ->
       entry norm u (i + 3)
       = Num (1 / sqrt ((INR (degree 3 [(0, 1); (0, 2); (1, 0); (2, 3)] u) + LightGCN.eps)
                        * (INR (degree 3 [(0, 1); (0, 2); (1, 0); (2, 3)] (i + 3))
                           + LightGCN.eps)))).
Proof.
  apply norm_adj_symmetric_weights.
  - unfold in_range. repeat constructor; simpl; lia.
  - by apply (bool_decide_unpack (NoDup _)).
Defined.

Lemma inv_sqrt_between (x lo hi : R) :
  (0 < x)%R -> (0 < lo)%R -> (0 < hi)%R ->
  (lo * lo * x < 1)%R -> (1 < hi * hi * x)%R ->
  (lo < / sqrt x < hi)%R.
Proof.
  intros Hx Hlo Hhi Hl Hh.
  assert (Hs : (0 < sqrt x)%R) by (by apply sqrt_lt_R0).
  assert (Hss : (sqrt x * sqrt x = x)%R) by (apply sqrt_sqrt; lra).
  split.
  - apply (Rmult_lt_reg_r (sqrt x)); [done|]. rewrite Rinv_l by lra.
    destruct (Rlt_le_dec (lo * sqrt x) 1) as [|Hge]; [done|exfalso].
    assert (H1 : (1 * 1 <= lo * sqrt x * (lo * sqrt x))%R)
      by (apply Rmult_le_compat; lra).
    replace (lo * sqrt x * (lo * sqrt x))%R with (lo * lo * (sqrt x * sqrt x))%R in H1
      by ring.
    rewrite Hss in H1. lra.
  - apply (Rmult_lt_reg_r (sqrt x)); [done|]. rewrite Rinv_l by lra.
    destruct (Rlt_le_dec 1 (hi * sqrt x)) as [|Hle]; [done|exfalso].
    assert (H0 : (0 <= hi * sqrt x)%R) by (apply Rmult_le_pos; lra).
    assert (H1 : (hi * sqrt x * (hi * sqrt x) <= 1 * 1)%R)
      by (apply Rmult_le_compat; lra).
    replace (hi * sqrt x * (hi * sqrt x))%R with (hi * hi * (sqrt x * sqrt x))%R in H1
      by ring.
    rewrite Hss in H1. lra.
Qed.

(** C4, counterexample: the edge between user 0, of degree 2, and item
    0 (node 3), of degree 3, in a graph of four distinct interactions.
    The weight computed for it is [1 / sqrt ((2 + eps) * (3 + eps))], not
    [1 / sqrt (2 * 3)], and the cast to [float32] does not hide the
    difference: the weight rounds to [13698539 / 2 ^ 25], the value
    [1 / sqrt 6] to the next [float32], [13698540 / 2 ^ 25]. *)
Lemma norm_adj_weight_rounds_apart :
  exists norm w,
    in_range 3 2 skewed_pairs /\ NoDup skewed_pairs /\ (0, 0) ∈ skewed_pairs /\
    degree 3 skewed_pairs 0 = 2 /\ degree 3 skewed_pairs (0 + 3) = 3 /\
    LightGCN.build_adj_matrix 3 2 skewed_pairs = Ok norm /\
    entry norm 0 (0 + 3) = Num w /\
    entry norm 0 (0 + 3)
    <> Num (1 / sqrt (INR (degree 3 skewed_pairs 0)
                      * INR (degree 3 skewed_pairs (0 + 3)))) /\
    rounds_to_float32 w 13698539 25 /\
    rounds_to_float32
      (1 / sqrt (INR (degree 3 skewed_pairs 0) * INR (degree 3 skewed_pairs (0 + 3))))
      13698540 25.
Proof.
  assert (Hr : in_range 3 2 skewed_pairs) by (repeat constructor; simpl; lia).
  assert (Hd0 : degree 3 skewed_pairs 0 = 2) by reflexivity.
  assert (Hd3 : degree 3 skewed_pairs (0 + 3) = 3) by reflexivity.
  exists (norm_adj_of 3 2 skewed_pairs).
  eexists.
  split; [done|]. split; [by apply (bool_decide_unpack (NoDup _))|].
  split; [by apply (bool_decide_unpack (_ ∈ _))|].
  split; [done|]. split; [done|].
  split; [by apply build_adj_matrix_ok|].
  rewrite (norm_entry 3 2) by done.
  change (multiplicity 3 skewed_pairs 0 (0 + 3)) with 1.
  unfold dinv. rewrite Hd0, Hd3.
  change (INR 1) with 1%R. change (INR 2) with (1 + 1)%R.
  change (INR 3) with (1 + 1 + 1)%R.
  split; [reflexivity|].
  pose proof eps_pos as Heps.
  assert (Heq : (1 * (/ sqrt (1 + 1 + LightGCN.eps) * 1 * / sqrt (1 + 1 + 1 + LightGCN.eps))
                 = / sqrt ((1 + 1 + LightGCN.eps) * (1 + 1 + 1 + LightGCN.eps)))%R).
  { rewrite sqrt_mult by lra. rewrite Rinv_mult. ring. }
  assert (Hw : (13698539 - 1 / 2 <
                / sqrt ((1 + 1 + LightGCN.eps) * (1 + 1 + 1 + LightGCN.eps)) * 2 ^ 25
                < 13698539 + 1 / 2)%R).
  { destruct (inv_sqrt_between ((1 + 1 + LightGCN.eps) * (1 + 1 + 1 + LightGCN.eps))
                ((13698539 - 1 / 2) / 2 ^ 25) ((13698539 + 1 / 2) / 2 ^ 25))
      as [H1 H2]; unfold LightGCN.eps in *; lra. }
  assert (Hc : (13698540 - 1 / 2 < 1 / sqrt ((1 + 1) * (1 + 1 + 1)) * 2 ^ 25
                < 13698540 + 1 / 2)%R).
  { destruct (inv_sqrt_between ((1 + 1) * (1 + 1 + 1))
                ((13698540 - 1 / 2) / 2 ^ 25) ((13698540 + 1 / 2) / 2 ^ 25))
      as [H1 H2]; lra. }
  rewrite Heq.
  split; [|split].
  - intros [= H]. rewrite H in Hw. lra.
  - split; [lia|]. split; [lia|exact Hw].
  - split; [lia|]. split; [lia|exact Hc].
Qed.

(** C8.  Normalization produces no [nan] and no infinity: every stored
    value and every entry of the normalized matrix is finite, and the row
    and the column of a node of degree 0 are entirely zero. *)
Theorem norm_adj_isolated_nodes (U I : nat) (pairs : list (nat * nat)) :
  in_range U I pairs ->
  exists norm,
    LightGCN.build_adj_matrix U I pairs = Ok norm /\
    Forall (fun e => is_finite e.2) norm.(entries) /\
    (forall a b, is_finite (entry norm a b)) /\
    (forall a, degree U pairs a = 0 ->
       forall b, entry norm a b = Num 0 /\ entry norm b a = Num 0).
Proof.
  intros Hr. exists (norm_adj_of U I pairs).
  split; [by apply build_adj_matrix_ok|]. split; [apply norm_adj_finite|]. split.
  - intros a b. by rewrite (norm_entry U I).
  - intros a Hdeg b.
    destruct (degree_zero_multiplicity U pairs a b Hdeg) as [Hab Hba].
    rewrite !(norm_entry U I) by done. rewrite Hab, Hba.
    split; f_equal; simpl; lra.
Qed.

Lemma norm_adj_isolated_nodes_witness :
  exists norm,
    LightGCN.build_adj_matrix 2 2 [(0, 0)] = Ok norm /\
    Forall (fun e => is_finite e.2) norm.(entries) /\
    (forall a b, is_finite (entry norm a b)) /\
    (forall a, degree 2 [(0, 0)] a = 0 ->
       forall b, entry norm a b = Num 0 /\ entry norm b a = Num 0).
Proof.
  apply norm_adj_isolated_nodes.
  unfold in_range. repeat constructor; simpl; lia.
Defined.

(** ** The ranking objective *)

Lemma length_mean_dim1_stack_dim1 (t0 : matrix) (ts : list matrix) :
  length (mean_dim1 (stack_dim1 (t0 :: ts))) = length t0.
Proof. unfold mean_dim1, stack_dim1. by rewrite !length_fmap, length_seq. Qed.

Lemma np_mean_empty_nan : fmean [] = NaN.
Proof.
  unfold fmean, fsum. cbn [foldl length fdiv_count]. unfold inf_times.
  destruct (Rlt_dec 0 0); [lra|]. destruct (Rlt_dec 0 0); [lra|done].
Qed.

Lemma inf_times_zero (pos : bool) (x : R) : x = 0%R -> inf_times pos x = NaN.
Proof.
  intros ->. unfold inf_times.
  destruct (Rlt_dec 0 0); [lra|]. destruct (Rlt_dec 0 0); [lra|done].
Qed.

Lemma norm2_empty : norm2 [] = Num 0.
Proof.
  unfold norm2, fsum. cbn. destruct (Rlt_dec 0 0); [lra|]. by rewrite sqrt_0.
Qed.

Lemma broadcast_same_length {A B C : Type} (f : A -> B -> C) (a : list A) (b : list B) :
  length a = length b -> broadcast f a b = Ok (zip_with f a b).
Proof. intros H. unfold broadcast. by rewrite decide_True. Qed.


Lemma getEmbedding_lengths (self : LightGCN.t) :
  length self.(LightGCN.user_embedding) = self.(LightGCN.num_users) ->
  length (LightGCN.getEmbedding self).1 = self.(LightGCN.num_users) /\
  length (LightGCN.getEmbedding self).2 = length self.(LightGCN.item_embedding).
Proof.
  intros HU. unfold LightGCN.getEmbedding. cbn [fst snd].
  rewrite length_take, length_drop, length_mean_dim1_stack_dim1.
  unfold cat. rewrite length_app. lia.
Qed.

Lemma gather_cons {A : Type} (xs : list A) (i : nat) (ids : list nat) :
  gather xs (i :: ids) = x ← index xs i; ys ← gather xs ids; Ok (x :: ys).
Proof. done. Qed.

Lemma index_Some {A : Type} (xs : list A) (i : nat) (x : A) :
  xs !! i = Some x -> index xs i = Ok x.
Proof. intros H. unfold index. by rewrite H. Qed.

Lemma index_None {A : Type} (xs : list A) (i : nat) :
  xs !! i = None -> index xs i = Raise IndexError.
Proof. intros H. unfold index. by rewrite H. Qed.

Lemma gather_in_range {A : Type} (xs : list A) (ids : list nat) :
  Forall (fun i => i < length xs) ids ->
  exists l, gather xs ids = Ok l /\ length l = length ids /\ Forall (fun x => x ∈ xs) l.
Proof.
  induction 1 as [|i ids Hi _ (l & Hl & Hlen & Hin)].
  - by exists [].
  - destruct (lookup_lt_is_Some_2 xs i Hi) as [x Hx].
    exists (x :: l). rewrite gather_cons, (index_Some _ _ _ Hx), Hl.
    cbn [mbind result_bind].
    repeat split; [by rewrite !length_cons, Hlen|].
    constructor; [by eapply list_elem_of_lookup_2|done].
Qed.

Lemma gather_out_of_range {A : Type} (xs : list A) (ids : list nat) :
  ~ Forall (fun i => i < length xs) ids -> gather xs ids = Raise IndexError.
Proof.
  induction ids as [|i ids IH]; intros Hno; [by destruct Hno|].
  rewrite gather_cons.
  destruct (xs !! i) as [x|] eqn:Hx; [|by rewrite index_None].
  rewrite (index_Some _ _ _ Hx). cbn [mbind result_bind]. rewrite IH; [done|].
  intros Hall. apply Hno. constructor; [|done]. by eapply lookup_lt_Some.
Qed.

(** The loss stays in the class [not_negative] whatever the embeddings
    hold: no step of the objective assumes that a float is finite. *)
Lemma fadd_not_negative a b :
  not_negative a -> not_negative b -> not_negative (fadd a b).
Proof. destruct a, b; cbn; try done. intros. lra. Qed.

Lemma softplus_not_negative a : not_negative (softplus a).
Proof.
  destruct a as [x| | |]; cbn; [|done|lra|done].
  destruct (Rlt_dec 20 x); cbn; [lra|].
  rewrite <- ln_1. pose proof (exp_pos x).
  left. apply ln_increasing; lra.
Qed.

Lemma foldl_fadd_not_negative (l : list fval) (acc : fval) :
  not_negative acc -> Forall not_negative l -> not_negative (foldl fadd acc l).
Proof.
  revert acc. induction l as [|x l IH]; intros acc Hacc Hl; [done|].
  inversion Hl; subst. cbn [foldl]. apply IH; [by apply fadd_not_negative|done].
Qed.

Lemma fdiv_count_not_negative a n :
  not_negative a -> 0 < n -> not_negative (fdiv_count a n).
Proof.
  intros Ha Hn. destruct n as [|n]; [lia|].
  destruct a as [x| | |]; try done.
  cbn [fdiv_count not_negative] in *.
  apply Rmult_le_pos; [done|]. apply Rlt_le, Rinv_0_lt_compat.
  apply lt_0_INR. lia.
Qed.

Lemma fmean_not_negative (l : list fval) :
  l <> [] -> Forall not_negative l -> not_negative (fmean l).
Proof.
  intros Hne Hl. unfold fmean, fsum. apply fdiv_count_not_negative.
  - apply foldl_fadd_not_negative; [cbn; lra|done].
  - destruct l; [done|]. simpl. lia.
Qed.

Lemma pow2_not_negative (x : fval) : not_negative (pow2 x).
Proof. destruct x as [r| | |]; cbn; try done. nra. Qed.

Lemma fmul_weight_not_negative (w : R) (x : fval) :
  (0 <= w)%R -> not_negative x -> not_negative (fmul (Num w) x).
Proof.
  intros Hw. destruct x as [r| | |]; cbn; try done.
  - intros Hr. by apply Rmult_le_pos.
  - intros _. unfold inf_times.
    destruct (Rlt_dec 0 w); [done|]. destruct (Rlt_dec w 0); [lra|done].
Qed.

Lemma bpr_loss_batch_returns (cfg : config) (model : LightGCN.t)
    (users pos_items neg_items : list nat) :
  well_shaped model ->
  (0 <= cfg.(cfg_reg_lambda))%R ->
  users <> [] ->
  length pos_items = length users -> length neg_items = length users ->
  Forall (fun u => u < model.(LightGCN.num_users)) users ->
  Forall (fun i => i < model.(LightGCN.num_items)) pos_items ->
  Forall (fun i => i < model.(LightGCN.num_items)) neg_items ->
  exists loss,
    bpr_loss cfg model users pos_items neg_items = Ok loss /\ not_negative loss.
Proof.
  intros (HU & HI & _) Hlam Hne Hlp Hln Hu Hp Hn.
  destruct (getEmbedding_lengths model HU) as [HlU HlI].
  unfold bpr_loss, LightGCN.getEmbeddingTriple.
  destruct (LightGCN.getEmbedding model) as [user_emb item_emb]. cbn [fst snd] in *.
  destruct (gather_in_range user_emb users) as (ue & -> & Hlue & _); [by rewrite HlU|].
  destruct (gather_in_range item_emb pos_items) as (pe & -> & Hlpe & _);
    [by rewrite HlI, HI|].
  destruct (gather_in_range item_emb neg_items) as (ne & -> & Hlne & _);
    [by rewrite HlI, HI|].
  destruct (gather_in_range model.(LightGCN.user_embedding) users)
    as (ue0 & -> & _ & _); [by rewrite HU|].
  destruct (gather_in_range model.(LightGCN.item_embedding) pos_items)
    as (pe0 & -> & _ & _); [by rewrite HI|].
  destruct (gather_in_range model.(LightGCN.item_embedding) neg_items)
    as (ne0 & -> & _ & _); [by rewrite HI|].
  cbn [mbind result_bind].
  rewrite !broadcast_same_length by congruence. cbn [mbind result_bind].
  rewrite broadcast_same_length by (rewrite !length_zip_with; lia).
  cbn [mbind result_bind].
  eexists. split; [done|].
  apply fadd_not_negative.
  - apply fmean_not_negative.
    + destruct users as [|u users]; [done|].
      destruct ue as [|? ?]; [done|]. destruct pe as [|? ?]; [simpl in *; lia|].
      destruct ne as [|? ?]; [simpl in *; lia|]. done.
    + apply Forall_fmap, Forall_true. intros x. apply softplus_not_negative.
  - apply fdiv_count_not_negative; [|destruct users; [done|simpl; lia]].
    apply fmul_weight_not_negative; [done|].
    repeat apply fadd_not_negative; apply pow2_not_negative.
Qed.

Lemma bpr_loss_out_of_range (cfg : config) (model : LightGCN.t)
    (users pos_items neg_items : list nat) :
  well_shaped model ->
  ~ (Forall (fun u => u < model.(LightGCN.num_users)) users /\
     Forall (fun i => i < model.(LightGCN.num_items)) pos_items /\
     Forall (fun i => i < model.(LightGCN.num_items)) neg_items) ->
  bpr_loss cfg model users pos_items neg_items = Raise IndexError.
Proof.
  intros (HU & HI & _) Hno.
  destruct (getEmbedding_lengths model HU) as [HlU HlI].
  unfold bpr_loss, LightGCN.getEmbeddingTriple.
  destruct (LightGCN.getEmbedding model) as [user_emb item_emb]. cbn [fst snd] in *.
  destruct (decide (Forall (fun u => u < model.(LightGCN.num_users)) users)) as [Hu|Hu];
    [|by rewrite (gather_out_of_range user_emb users) by (by rewrite HlU)].
  destruct (gather_in_range user_emb users) as (ue & -> & _); [by rewrite HlU|].
  cbn [mbind result_bind].
  destruct (decide (Forall (fun i => i < model.(LightGCN.num_items)) pos_items))
    as [Hp|Hp];
    [|by rewrite (gather_out_of_range item_emb pos_items) by (by rewrite HlI, HI)].
  destruct (gather_in_range item_emb pos_items) as (pe & -> & _); [by rewrite HlI, HI|].
  cbn [mbind result_bind].
  destruct (decide (Forall (fun i => i < model.(LightGCN.num_items)) neg_items))
    as [Hn|Hn];
    [|by rewrite (gather_out_of_range item_emb neg_items) by (by rewrite HlI, HI)].
  exfalso. by apply Hno.
Qed.



Lemma zero_model_well_shaped : well_shaped zero_model.
Proof. repeat split; reflexivity. Qed.

Lemma small_model_well_shaped : well_shaped small_model.
Proof. repeat split; reflexivity. Qed.


(** ** The convergence controller and the trainer *)

Lemma early_stop_unchanged (self : EarlyStopping.t) (score : fval) :
  EarlyStopping.early_stop (EarlyStopping.__call__ self score)
  = EarlyStopping.early_stop self.
Proof.
  unfold EarlyStopping.__call__.
  by destruct (match EarlyStopping.best_score self with
               | Some best => fgtb score (fadd best (EarlyStopping.delta self))
               | None => true
               end).
Qed.

Lemma early_stop_never_set (patience : nat) (delta : fval) (verbose : bool)
    (scores : list fval) :
  EarlyStopping.early_stop
    (foldl EarlyStopping.__call__ (EarlyStopping.__init__ patience delta verbose) scores)
  = false.
Proof.
  assert (H : forall es, EarlyStopping.early_stop (foldl EarlyStopping.__call__ es scores)
                         = EarlyStopping.early_stop es).
  { induction scores as [|x scores IH]; intros es; [done|].
    cbn [foldl]. by rewrite IH, early_stop_unchanged. }
  by rewrite H.
Qed.

Lemma call_improves (self : EarlyStopping.t) (score : fval) :
  match EarlyStopping.best_score self with
  | None => True
  | Some best => fgtb score (fadd best (EarlyStopping.delta self)) = true
  end ->
  EarlyStopping.best_score (EarlyStopping.__call__ self score) = Some score /\
  EarlyStopping.counter (EarlyStopping.__call__ self score) = 0.
Proof.
  unfold EarlyStopping.__call__. destruct (EarlyStopping.best_score self) as [best|].
  - by intros ->.
  - done.
Qed.

Lemma call_no_improvement (self : EarlyStopping.t) (score best : fval) :
  EarlyStopping.best_score self = Some best ->
  fgtb score (fadd best (EarlyStopping.delta self)) = false ->
  EarlyStopping.best_score (EarlyStopping.__call__ self score) = Some best /\
  EarlyStopping.counter (EarlyStopping.__call__ self score)
  = EarlyStopping.counter self + 1.
Proof.
  unfold EarlyStopping.__call__. by intros -> ->.
Qed.

Lemma fgtb_same_plus_zero (x : R) : fgtb (Num x) (fadd (Num x) (Num 0)) = false.
Proof. cbn [fadd fgtb]. destruct (Rgt_dec x (x + 0)); [lra|done]. Qed.

(** C1.  The controller built with [patience = 2] and [delta = 0] and fed
    the scores 0.1, 0.1, 0.1: the first score becomes the best, the two
    others increment the counter, which reaches the patience, and the
    stop flag is still [False] after the third observation. *)
Theorem early_stopping_three_equal_scores :
  foldl EarlyStopping.__call__ (EarlyStopping.__init__ 2 (Num 0) true)
    [Num 0.1; Num 0.1; Num 0.1]
  = EarlyStopping.mk 2 (Num 0) true (Some (Num 0.1)) 2 false.
Proof.
  cbn [foldl]. unfold EarlyStopping.__init__.
  unfold EarlyStopping.__call__ at 3. cbn.
  unfold EarlyStopping.__call__ at 2. cbn.
  destruct (Rgt_dec 0.1 (0.1 + 0)) as [H|_]; [lra|].
  unfold EarlyStopping.__call__. cbn.
  destruct (Rgt_dec 0.1 (0.1 + 0)) as [H|_]; [lra|]. done.
Qed.

Section TrainerFacts.

Variable rng : Type.
Variable random_shuffle : rng -> list nat -> rng * list nat.
Variable random_choice : rng -> list nat -> rng * nat.
Variable np_random_permutation : rng -> nat -> rng * list nat.
Variable optimizer : Type.
Variable optimizer_step :
  optimizer -> LightGCN.t -> list nat -> list nat -> list nat -> optimizer * LightGCN.t.
Variable topk : list fval -> nat -> result (list nat).

Lemma epoch_loop_never_breaks (cfg : config) (test_ground_truth : ground_truth_dict)
    (user_item_dict : gmap nat (gset nat)) (all_items : gset nat) (batch_size k : nat)
    (remaining epoch : nat) (st : train_state rng optimizer) (es : EarlyStopping.t)
    st' es' n :
  EarlyStopping.early_stop es = false ->
  epoch_loop rng random_shuffle random_choice np_random_permutation optimizer
    optimizer_step topk cfg test_ground_truth user_item_dict all_items batch_size k
    remaining epoch st es = Ok (st', es', n) ->
  n = epoch + remaining /\ EarlyStopping.early_stop es' = false.
Proof.
  revert epoch st es. induction remaining as [|remaining IH]; intros epoch st es Hes H.
  - cbn in H. injection H as <- <- <-. split; [lia|done].
  - cbn [epoch_loop] in H.
    returned in H as [st1 avg] eqn:Htrain.
    returned in H as [[recall prec] ndcg] eqn:Heval.
    rewrite early_stop_unchanged, Hes in H.
    apply IH in H as [-> ?]; [|by rewrite early_stop_unchanged].
    split; [lia|done].
Qed.

Lemma train_lightgcn_runs_all_epochs (cfg : config) (st : train_state rng optimizer)
    (interactions : list (nat * nat)) (test_ground_truth : ground_truth_dict)
    (epochs batch_size k patience : nat) st' es' n :
  train_lightgcn rng random_shuffle random_choice np_random_permutation optimizer
    optimizer_step topk cfg st interactions test_ground_truth epochs batch_size k patience
  = Ok (st', es', n) ->
  n = epochs /\ EarlyStopping.early_stop es' = false.
Proof.
  unfold train_lightgcn. intros H.
  apply epoch_loop_never_breaks in H as [-> ?]; done.
Qed.

End TrainerFacts.

Lemma dot_zero : dot [Num 0] [Num 0] = Num 0.
Proof. unfold dot, vmul, fsum. cbn. f_equal. lra. Qed.

Lemma softplus_zero : softplus (Num 0) = Num (ln 2).
Proof.
  unfold softplus. destruct (Rlt_dec 20 0); [exfalso; lra|].
  rewrite exp_0. do 2 f_equal; lra.
Qed.

Lemma fmean_pair (a : R) : fmean [Num a; Num a] = Num a.
Proof. unfold fmean, fsum. cbn. f_equal. lra. Qed.

Lemma pow2_norm2_zeros : pow2 (norm2 [[Num 0]; [Num 0]]) = Num 0.
Proof.
  unfold norm2, fsum. cbn.
  replace (0 + 0 * 0 + 0 * 0)%R with 0%R by lra.
  destruct (Rlt_dec 0 0); [exfalso; lra|]. rewrite sqrt_0. cbn. f_equal. lra.
Qed.

Lemma bpr_loss_zero_model :
  bpr_loss notebook_config zero_model [1; 0] [0; 0] [1; 1] = Ok (Num (ln 2)).
Proof.
  unfold bpr_loss, LightGCN.getEmbeddingTriple.
  rewrite getEmbedding_no_layers by done.
  cbn [zero_model LightGCN.user_embedding LightGCN.item_embedding].
  cbn [gather map_result index lookup list_lookup mbind result_bind].
  rewrite !broadcast_same_length by done. cbn [zip_with mbind result_bind].
  rewrite !broadcast_same_length by done. cbn [zip_with mbind result_bind].
  rewrite dot_zero, pow2_norm2_zeros.
  replace (fsub (Num 0) (Num 0)) with (Num 0) by (cbn; f_equal; lra).
  cbn [fmap list_fmap]. rewrite softplus_zero, fmean_pair.
  cbn. do 2 f_equal. lra.
Qed.

(** C2.  One epoch over two sampled triples with batch size 2, for any
    optimizer: the loop runs over the single start 0, the loss of that
    one batch is [ln 2], and the value returned is [ln 2 / 2]: the
    accumulated loss is divided by [2 // 2 + 1 = 2], not by the number of
    batches [ceil(2/2) = 1]. *)
Theorem train_one_epoch_full_batch (optimizer : Type)
    (optimizer_step :
       optimizer -> LightGCN.t -> list nat -> list nat -> list nat -> optimizer * LightGCN.t)
    (opt : optimizer) :
  range_step 2 2 = Ok [0] /\
  bpr_loss notebook_config zero_model [1; 0] [0; 0] [1; 1] = Ok (Num (ln 2)) /\
  train_one_epoch unit no_shuffle first_choice identity_permutation optimizer optimizer_step
    notebook_config (mk_state unit optimizer tt opt zero_model) two_users two_items 2
  = Ok (mk_state unit optimizer tt
          (optimizer_step opt zero_model [1; 0] [0; 0] [1; 1]).1
          (optimizer_step opt zero_model [1; 0] [0; 0] [1; 1]).2,
        Num (ln 2 / 2)).
Proof.
  split; [done|]. split; [apply bpr_loss_zero_model|].
  unfold train_one_epoch.
  assert (Hs : sample_user_triplets unit first_choice tt two_users two_items
                 (no_shuffle tt (map_to_list two_users).*1).2
               = (tt, [(1, 0, 1); (0, 0, 1)])) by (vm_compute; reflexivity).
  cbn [st_rng st_optimizer st_model].
  unfold no_shuffle in *. cbn [snd] in Hs. rewrite Hs.
  cbn [fmap list_fmap fst snd].
  unfold shuffle, identity_permutation. rewrite decide_True by done.
  cbn [length seq gather map_result index lookup list_lookup mbind result_bind].
  unfold num_batches_of, range_step. rewrite !decide_False by done.
  cbn [mbind result_bind].
  change (range_from 0 2 (range_len 2 2)) with [0].
  cbn [for_each]. unfold train_batch.
  change (slice [1; 0] 0 (0 + 2)) with [1; 0].
  change (slice [0; 0] 0 (0 + 2)) with [0; 0].
  change (slice [1; 1] 0 (0 + 2)) with [1; 1].
  rewrite bpr_loss_zero_model. cbn [mbind result_bind].
  destruct (optimizer_step opt zero_model [1; 0] [0; 0] [1; 1]) as [opt' model'].
  cbn [mbind result_bind fst snd fadd].
  change (2 `div` 2 + 1) with 2. cbn [fdiv_count].
  do 3 f_equal. simpl. lra.
Qed.

(** ** The evaluator *)

Section EvaluatorFacts.

Variable topk : list fval -> nat -> result (list nat).
Variable model : LightGCN.t.
Variable user_emb item_emb : matrix.
Variable test_ground_truth : ground_truth_dict.
Variable user_item_dict : gmap nat (gset nat).
Variable k : nat.

(** The inner-loop body only reads the batch embedding at its index. *)
Lemma evaluate_user_index (be be' : matrix) (idx idx' user : nat) lists :
  index be idx = index be' idx' ->
  evaluate_user topk model item_emb test_ground_truth user_item_dict k be lists (idx, user)
  = evaluate_user topk model item_emb test_ground_truth user_item_dict k be' lists
      (idx', user).
Proof.
  intros H. unfold evaluate_user. destruct lists as [[rl pl] nl]. by rewrite H.
Qed.

Lemma evaluate_one_eq lists user :
  (evaluate_one topk model user_emb item_emb test_ground_truth
     user_item_dict k) lists user
  = (u_emb ← index user_emb user;
     evaluate_user topk model item_emb test_ground_truth user_item_dict k [u_emb] lists
       (0, user)).
Proof. reflexivity. Qed.

Lemma evaluate_batch_users_gathered (batch : list nat) (be pre : matrix) lists :
  gather user_emb batch = Ok be ->
  for_each
    (evaluate_user topk model item_emb test_ground_truth user_item_dict k (pre ++ be))
    (imap (fun idx user => (length pre + idx, user)) batch) lists
  = for_each (evaluate_one topk model user_emb item_emb test_ground_truth
     user_item_dict k) batch lists.
Proof.
  revert be pre lists. induction batch as [|u batch IH]; intros be pre lists Hg; [done|].
  unfold gather in Hg. cbn [map_result] in Hg.
  returned in Hg as e eqn:Hu.
  returned in Hg as be' eqn:Hrest.
  injection Hg as <-.
  rewrite imap_cons. cbn [for_each].
  rewrite evaluate_one_eq, Hu. cbn [mbind result_bind].
  rewrite (evaluate_user_index (pre ++ e :: be') [e] (length pre + 0) 0).
  2:{ unfold index. rewrite Nat.add_0_r, list_lookup_middle by done. done. }
  destruct (evaluate_user _ _ _ _ _ _ [e] lists (0, u)) as [lists'|]; [|done].
  cbn [mbind result_bind].
  specialize (IH be' (pre ++ [e]) lists' Hrest).
  rewrite <- IH. rewrite <- (assoc_L (++)). cbn [app].
  f_equal. apply imap_ext. intros i x _. simpl. rewrite length_app. simpl.
  f_equal. lia.
Qed.

Lemma evaluate_one_gather (batch : list nat) lists lists' :
  for_each (evaluate_one topk model user_emb item_emb test_ground_truth
     user_item_dict k) batch lists = Ok lists' ->
  exists be, gather user_emb batch = Ok be.
Proof.
  revert lists. induction batch as [|u batch IH]; intros lists H.
  - by exists [].
  - cbn [for_each] in H. rewrite evaluate_one_eq in H.
    returned in H as e eqn:Hu.
    returned in H as l1 eqn:Hone.
    destruct (IH _ H) as [be Hbe].
    exists (e :: be). unfold gather in *. cbn [map_result].
    rewrite Hu. cbn [mbind result_bind]. rewrite Hbe. done.
Qed.

Lemma evaluate_batch_iff (batch_size : nat) (test_users : list nat) (i : nat) lists lists' :
  evaluate_batch topk model user_emb item_emb test_ground_truth user_item_dict k
    batch_size test_users lists i = Ok lists'
  <-> for_each (evaluate_one topk model user_emb item_emb test_ground_truth
     user_item_dict k) (slice test_users i (i + batch_size)) lists = Ok lists'.
Proof.
  unfold evaluate_batch.
  destruct (gather user_emb (slice test_users i (i + batch_size))) as [be|e] eqn:Hg.
  - cbn [mbind result_bind].
    by rewrite <- (evaluate_batch_users_gathered _ be [] lists Hg).
  - cbn [mbind result_bind]. split; [done|].
    intros H. apply evaluate_one_gather in H as [be Hbe]. congruence.
Qed.

Lemma range_len_step (n step c : nat) :
  0 < step -> range_len n step = S c -> 0 < n /\ range_len (n - step) step = c.
Proof.
  intros Hs. unfold range_len. destruct n as [|n]; [done|].
  intros [= Hc]. split; [lia|].
  rewrite Nat.sub_0_r in Hc.
  destruct (S n - step) as [|m] eqn:Hm.
  - rewrite Nat.div_small in Hc by lia. done.
  - replace (S m - 1) with m by lia.
    assert (Hdiv : n / step = m / step + 1).
    { rewrite <- Nat.div_add by lia. f_equal. lia. }
    lia.
Qed.

Lemma evaluate_batches_iff (batch_size : nat) (test_users : list nat) :
  0 < batch_size ->
  forall (c s : nat) lists lists',
    range_len (length test_users - s) batch_size = c ->
    for_each
      (evaluate_batch topk model user_emb item_emb test_ground_truth user_item_dict k
         batch_size test_users)
      (range_from s batch_size c) lists = Ok lists'
    <-> for_each (evaluate_one topk model user_emb item_emb test_ground_truth
     user_item_dict k) (drop s test_users) lists = Ok lists'.
Proof.
  intros Hbs. induction c as [|c IH]; intros s lists lists' Hc.
  - unfold range_len in Hc.
    destruct (length test_users - s) eqn:Hlen; [|done].
    rewrite drop_ge by lia. done.
  - apply range_len_step in Hc as [Hpos Hc]; [|done].
    cbn [range_from for_each].
    rewrite <- (take_drop batch_size (drop s test_users)) at 1.
    rewrite for_each_app, !bind_Ok_iff.
    replace (take batch_size (drop s test_users))
      with (slice test_users s (s + batch_size))
      by (unfold slice; f_equal; lia).
    rewrite drop_drop.
    split; intros (l1 & H1 & H2); exists l1; split.
    + by apply evaluate_batch_iff.
    + apply IH; [|done]. rewrite <- Hc. f_equal. lia.
    + by apply evaluate_batch_iff.
    + apply IH in H2; [done|]. rewrite <- Hc. f_equal. lia.
Qed.

End EvaluatorFacts.

Lemma evaluate_model_iff (topk : list fval -> nat -> result (list nat))
    (model : LightGCN.t) (test_ground_truth : ground_truth_dict)
    (user_item_dict : gmap nat (gset nat)) (k batch_size : nat) (r : fval * fval * fval) :
  0 < batch_size ->
  evaluate_model topk model test_ground_truth user_item_dict k batch_size = Ok r
  <-> exists lists,
        for_each
          (evaluate_one topk model (LightGCN.forward model).1 (LightGCN.forward model).2
             test_ground_truth user_item_dict k)
          (dict_keys test_ground_truth) ([], [], []) = Ok lists /\
        r = (np_mean lists.1.1, np_mean lists.1.2, np_mean lists.2).
Proof.
  intros Hbs. unfold evaluate_model.
  destruct (LightGCN.forward model) as [user_emb item_emb]. cbn [fst snd].
  unfold range_step. rewrite decide_False by lia. cbn [mbind result_bind].
  rewrite bind_Ok_iff.
  split.
  - intros ([[rl pl] nl] & Hloop & [= <-]). exists (rl, pl, nl). split; [|done].
    apply (evaluate_batches_iff topk model user_emb item_emb test_ground_truth
             user_item_dict k batch_size (dict_keys test_ground_truth) Hbs _ 0) in Hloop.
    + by rewrite drop_0 in Hloop.
    + by rewrite Nat.sub_0_r.
  - intros ([[rl pl] nl] & Hloop & ->). exists (rl, pl, nl). split; [|done].
    apply (evaluate_batches_iff topk model user_emb item_emb test_ground_truth
             user_item_dict k batch_size (dict_keys test_ground_truth) Hbs _ 0).
    + by rewrite Nat.sub_0_r.
    + by rewrite drop_0.
Qed.

(** C9.  For a fixed model, ground truth, interaction sets and K, any two
    positive batch sizes make the evaluator return the same triple of
    aggregate recall, precision and NDCG: it returns a result with one
    batch size exactly when it returns that result with the other. *)
Theorem evaluate_model_batch_size_invariant
    (topk : list fval -> nat -> result (list nat))
    (model : LightGCN.t) (test_ground_truth : ground_truth_dict)
    (user_item_dict : gmap nat (gset nat)) (k bs1 bs2 : nat) :
  0 < bs1 -> 0 < bs2 ->
  forall r,
    evaluate_model topk model test_ground_truth user_item_dict k bs1 = Ok r
    <-> evaluate_model topk model test_ground_truth user_item_dict k bs2 = Ok r.
Proof.
  intros H1 H2 r. by rewrite !evaluate_model_iff.
Qed.

Section CandidateFacts.

Variable topk : list fval -> nat -> result (list nat).
Variable model : LightGCN.t.
Variable user_emb item_emb : matrix.
Variable test_ground_truth : ground_truth_dict.
Variable user_item_dict : gmap nat (gset nat).
Variable k : nat.

Lemma candidate_set_members (num_items : nat) (train_items : gset nat)
    (gt_items : list nat) (x : nat) :
  x ∈ candidate_set num_items train_items gt_items
  <-> (x < num_items /\ x ∉ train_items) \/ x ∈ gt_items.
Proof.
  unfold candidate_set.
  rewrite elem_of_union, elem_of_difference, elem_of_set_seq, elem_of_list_to_set.
  intuition lia.
Qed.

Lemma evaluate_one_ranks (rl pl nl : list R) (user : nat) lists' :
  evaluate_one topk model user_emb item_emb test_ground_truth user_item_dict k
    (rl, pl, nl) user = Ok lists' ->
  exists m,
    ranks_candidates topk model.(LightGCN.num_items) user_emb item_emb
      test_ground_truth user_item_dict k user m /\
    lists' = (rl ++ [m.1.1], pl ++ [m.1.2], nl ++ [m.2]).
Proof.
  intros H. rewrite evaluate_one_eq in H.
  returned in H as u_emb eqn:Hu.
  unfold evaluate_user in H.
  returned in H as u_emb' eqn:Hu'.
  injection Hu' as <-.
  returned in H as cand_emb eqn:Hcand.
  returned in H as top eqn:Htop.
  returned in H as ranked eqn:Hranked.
  returned in H as recall eqn:Hrecall.
  returned in H as precision eqn:Hprecision.
  injection H as <-.
  eexists (recall, precision, _). split; [|reflexivity].
  exists (elements (candidate_set model.(LightGCN.num_items)
                      (default ∅ (user_item_dict !! user))
                      (dict_get test_ground_truth user))),
    u_emb, cand_emb, top, ranked.
  split; [apply NoDup_elements|].
  split; [intros x; rewrite elem_of_elements; apply candidate_set_members|].
  split; [unfold index in Hu; destruct (user_emb !! user); by inversion Hu|].
  repeat split; done.
Qed.

Lemma evaluate_users_rank (users : list nat) (rl pl nl : list R) lists' :
  for_each
    (evaluate_one topk model user_emb item_emb test_ground_truth user_item_dict k)
    users (rl, pl, nl) = Ok lists' ->
  exists ms : list (R * R * R),
    Forall2 (ranks_candidates topk model.(LightGCN.num_items) user_emb item_emb
               test_ground_truth user_item_dict k) users ms /\
    lists' = (rl ++ ms.*1.*1, pl ++ ms.*1.*2, nl ++ ms.*2).
Proof.
  revert rl pl nl. induction users as [|u users IH]; intros rl pl nl H.
  - injection H as <-. exists []. split; [constructor|]. by rewrite !app_nil_r.
  - cbn [for_each] in H.
    returned in H as l1 eqn:Hone.
    apply evaluate_one_ranks in Hone as (m & Hm & ->).
    apply IH in H as (ms & Hms & ->).
    exists (m :: ms). split; [by constructor|].
    rewrite !fmap_cons, <- !(assoc_L (++)). done.
Qed.

End CandidateFacts.

(** C6.  Whenever the evaluator returns, it has, for every evaluated
    user, scored exactly the candidates the claim names: the items that
    are not among the user's training items, together with the user's
    ground-truth items, each once.  The scores handed to [topk] are the
    dot products of these candidates with the user's embedding, the
    ranking is made of the candidates [topk] selects, the user's three
    metrics are computed from it, and the triple returned is their mean.
    The set the evaluator builds has these members and no others, and
    every ground-truth item is in it, also when it is one of the user's
    training items. *)
Theorem evaluate_model_scores_candidates
    (topk : list fval -> nat -> result (list nat))
    (model : LightGCN.t) (test_ground_truth : list (nat * list nat))
    (user_item_dict : gmap nat (gset nat)) (k batch_size : nat)
    (r : fval * fval * fval) :
  0 < batch_size ->
  evaluate_model topk model test_ground_truth user_item_dict k batch_size = Ok r ->
  (exists per_user : list (R * R * R),
     Forall2 (ranks_candidates topk model.(LightGCN.num_items)
                (LightGCN.forward model).1 (LightGCN.forward model).2
                test_ground_truth user_item_dict k)
       (dict_keys test_ground_truth) per_user /\
     r = (np_mean per_user.*1.*1, np_mean per_user.*1.*2, np_mean per_user.*2)) /\
  (forall user x,
     x ∈ candidate_set model.(LightGCN.num_items)
           (default ∅ (user_item_dict !! user)) (dict_get test_ground_truth user)
     <-> (x < model.(LightGCN.num_items) /\ x ∉ default ∅ (user_item_dict !! user))
         \/ x ∈ dict_get test_ground_truth user) /\
  (forall user g,
     g ∈ dict_get test_ground_truth user ->
     g ∈ candidate_set model.(LightGCN.num_items)
           (default ∅ (user_item_dict !! user)) (dict_get test_ground_truth user)).
Proof.
  intros Hbs H. split; [|split].
  - apply evaluate_model_iff in H as (lists & Hloop & ->); [|done].
    apply evaluate_users_rank in Hloop as (ms & Hms & ->).
    exists ms. split; [done|]. by rewrite !app_nil_l.
  - intros user x. apply candidate_set_members.
  - intros user g Hg. apply candidate_set_members. by right.
Qed.

Lemma log2_2 : log2 2 = 1%R.
Proof.
  unfold log2. change (INR 2) with (1 + 1)%R.
  replace (1 + 1)%R with 2%R by lra.
  assert (0 < ln 2)%R by (rewrite <- ln_1; apply ln_increasing; lra).
  field. lra.
Qed.

Lemma recall_at_k_example (ranked gt : list nat) (k hits n : nat) :
  size ((list_to_set (take k ranked) : gset nat) ∩ list_to_set gt) = hits ->
  size (list_to_set gt : gset nat) = S n ->
  recall_at_k ranked gt k = Ok (INR hits / INR (S n))%R.
Proof.
  intros Hh Hn. unfold recall_at_k, int_truediv. rewrite Hh, Hn.
  by rewrite decide_False.
Qed.

Lemma precision_at_k_example (ranked gt : list nat) (k hits : nat) :
  size ((list_to_set (take (S k) ranked) : gset nat) ∩ list_to_set gt) = hits ->
  precision_at_k ranked gt (S k) = Ok (INR hits / INR (S k))%R.
Proof.
  intros Hh. unfold precision_at_k, int_truediv. rewrite Hh.
  by rewrite decide_False.
Qed.

Lemma evaluate_model_two_users (batch_size : nat) :
  0 < batch_size ->
  evaluate_model topk_stable two_user_model two_user_ground_truth two_user_train 1
    batch_size
  = Ok (Num (1 / 2), Num (1 / 2), Num (1 / 2)).
Proof.
  intros Hbs.
  apply evaluate_model_iff; [done|].
  rewrite forward_no_layers by done.
  cbn [fst snd two_user_model LightGCN.user_embedding LightGCN.item_embedding].
  eexists. split.
  - cbn [dict_keys two_user_ground_truth fmap list_fmap fst for_each].
    unfold evaluate_one.
    cbn [index lookup list_lookup mbind result_bind].
    unfold evaluate_user.
    assert (Hc0 : elements (candidate_set (LightGCN.num_items two_user_model)
                              (default ∅ (two_user_train !! 0))
                              (dict_get two_user_ground_truth 0)) = [1])
      by (vm_compute; reflexivity).
    assert (Hc1 : elements (candidate_set (LightGCN.num_items two_user_model)
                              (default ∅ (two_user_train !! 1))
                              (dict_get two_user_ground_truth 1)) = [1; 0])
      by (vm_compute; reflexivity).
    rewrite Hc0, Hc1.
    change (dict_get two_user_ground_truth 0) with [1].
    change (dict_get two_user_ground_truth 1) with [0].
    cbn [index lookup list_lookup mbind result_bind gather map_result fmap list_fmap].
    unfold topk_stable. rewrite !decide_True by (simpl; lia).
    cbn [imap foldr insert_desc fmap list_fmap take fst snd compose map_result index lookup
         list_lookup mbind result_bind].
    rewrite (recall_at_k_example [1] [1] 1 1 0) by (vm_compute; reflexivity).
    rewrite (precision_at_k_example [1] [1] 0 1) by (vm_compute; reflexivity).
    cbn [mbind result_bind app].
    assert (Hgt : fgtb (dot [Num 2] [Num 1]) (dot [Num 2] [Num 2]) = false).
    { cbn. destruct (Rgt_dec (0 + 2 * 1) (0 + 2 * 2)) as [Hn|_]; [lra|done]. }
    rewrite Hgt.
    cbn [imap foldr insert_desc fmap list_fmap take fst snd compose map_result index lookup
         list_lookup mbind result_bind].
    rewrite (recall_at_k_example [1] [0] 1 0 0) by (vm_compute; reflexivity).
    rewrite (precision_at_k_example [1] [0] 0 0) by (vm_compute; reflexivity).
    cbn [mbind result_bind app]. reflexivity.
  - cbn [fst snd]. unfold np_mean, fmean, fsum.
    cbn [fmap list_fmap foldl fadd length fdiv_count].
    assert (Hn1 : ndcg_at_k [1] [1] 1 = 1%R).
    { unfold ndcg_at_k. cbn [take imap foldl length min seq fmap list_fmap].
      rewrite decide_True by (apply list_elem_of_singleton; done).
      unfold rsum. cbn [foldl Nat.add]. rewrite log2_2.
      destruct (Rlt_dec 0 (0 + 1 / 1)) as [_|Hn]; [field|exfalso; apply Hn; lra]. }
    assert (Hn0 : ndcg_at_k [1] [0] 1 = 0%R).
    { unfold ndcg_at_k. cbn [take imap foldl length min seq fmap list_fmap].
      rewrite decide_False by (intros Hin; apply list_elem_of_singleton in Hin; done).
      unfold rsum. cbn [foldl Nat.add]. rewrite log2_2.
      destruct (Rlt_dec 0 (0 + 1 / 1)) as [_|Hn]; [field|exfalso; apply Hn; lra]. }
    rewrite Hn1, Hn0. f_equal; [f_equal|]; f_equal; simpl; lra.
Qed.

Lemma evaluate_model_batch_size_invariant_witness :
  range_step (length (dict_keys two_user_ground_truth)) 1 = Ok [0; 1] /\
  range_step (length (dict_keys two_user_ground_truth)) 2 = Ok [0] /\
  evaluate_model topk_stable two_user_model two_user_ground_truth two_user_train 1 1
  = Ok (Num (1 / 2), Num (1 / 2), Num (1 / 2)) /\
  evaluate_model topk_stable two_user_model two_user_ground_truth two_user_train 1 2
  = Ok (Num (1 / 2), Num (1 / 2), Num (1 / 2)).
Proof.
  assert (H : evaluate_model topk_stable two_user_model two_user_ground_truth
                two_user_train 1 1 = Ok (Num (1 / 2), Num (1 / 2), Num (1 / 2)))
    by (apply evaluate_model_two_users; lia).
  split; [reflexivity|]. split; [reflexivity|]. split; [exact H|].
  apply (evaluate_model_batch_size_invariant topk_stable two_user_model
           two_user_ground_truth two_user_train 1 1 2); [lia|lia|exact H].
Defined.

Lemma evaluate_model_scores_candidates_witness :
  (exists per_user : list (R * R * R),
     Forall2 (ranks_candidates topk_stable two_user_model.(LightGCN.num_items)
                (LightGCN.forward two_user_model).1 (LightGCN.forward two_user_model).2
                two_user_ground_truth two_user_train 1)
       (dict_keys two_user_ground_truth) per_user /\
     (Num (1 / 2), Num (1 / 2), Num (1 / 2))
     = (np_mean per_user.*1.*1, np_mean per_user.*1.*2, np_mean per_user.*2)) /\
  (forall user x,
     x ∈ candidate_set two_user_model.(LightGCN.num_items)
           (default ∅ (two_user_train !! user)) (dict_get two_user_ground_truth user)
     <-> (x < two_user_model.(LightGCN.num_items)
          /\ x ∉ default ∅ (two_user_train !! user))
         \/ x ∈ dict_get two_user_ground_truth user) /\
  (forall user g,
     g ∈ dict_get two_user_ground_truth user ->
     g ∈ candidate_set two_user_model.(LightGCN.num_items)
           (default ∅ (two_user_train !! user)) (dict_get two_user_ground_truth user)).
Proof.
  apply (evaluate_model_scores_candidates topk_stable two_user_model
           two_user_ground_truth two_user_train 1 2).
  - lia.
  - apply evaluate_model_two_users. lia.
Defined.

(** * Further properties

    Properties of the loading cell, the model, the objective, the
    sampler, the trainer and the evaluator beyond the claims above. *)

(** ** Early stopping: the state after a run of finite scores *)

Lemma es_state_step (l : list R) (es : EarlyStopping.t) (y : R) :
  es_state_of l es -> es_state_of (l ++ [y]) (EarlyStopping.__call__ es (Num y)).
Proof.
  intros (pre & best & post & -> & Hpre & Hpost & Hb & Hc & Hd).
  unfold EarlyStopping.__call__. rewrite Hb, Hd. cbn [fadd fgtb].
  destruct (Rgt_dec y (best + 0)) as [Hgt|Hle].
  - exists (pre ++ best :: post), y, []. cbn. repeat split; try done.
    apply Forall_app. split.
    + eapply Forall_impl; [exact Hpre|]. intros z Hz. simpl in Hz. lra.
    + constructor; [lra|]. eapply Forall_impl; [exact Hpost|]. intros z Hz. simpl in Hz. lra.
  - exists pre, best, (post ++ [y]). cbn. repeat split; try done.
    + by rewrite <- (assoc_L (++)).
    + apply Forall_app. split; [done|]. constructor; [lra|done].
    + rewrite length_app. simpl. lia.
Qed.

Lemma es_state_run (l : list R) (es : EarlyStopping.t) (ys : list R) :
  es_state_of l es ->
  es_state_of (l ++ ys) (foldl EarlyStopping.__call__ es (Num <$> ys)).
Proof.
  revert l es. induction ys as [|y ys IH]; intros l es H.
  - by rewrite app_nil_r.
  - rewrite fmap_cons. cbn [foldl].
    replace (l ++ y :: ys) with ((l ++ [y]) ++ ys) by (by rewrite <- (assoc_L (++))).
    apply IH. by apply es_state_step.
Qed.

(** X1.  Fed any non-empty sequence of finite scores, an early-stopping object
    created with [delta = 0] holds the maximum of the sequence as its best
    score, at its first occurrence, and its counter is the number of scores
    seen since that occurrence. *)
Theorem early_stopping_tracks_maximum (patience : nat) (verbose : bool)
    (x : R) (scores : list R) :
  let es := foldl EarlyStopping.__call__
              (EarlyStopping.__init__ patience (Num 0) verbose) (Num <$> x :: scores) in
  exists pre best post,
    x :: scores = pre ++ best :: post /\
    Forall (fun y => (y < best)%R) pre /\
    Forall (fun y => (y <= best)%R) post /\
    EarlyStopping.best_score es = Some (Num best) /\
    EarlyStopping.counter es = length post.
Proof.
  intros es. unfold es. rewrite fmap_cons. cbn [foldl].
  assert (H0 : es_state_of [x]
            (EarlyStopping.__call__ (EarlyStopping.__init__ patience (Num 0) verbose) (Num x))).
  { exists [], x, []. by repeat split. }
  destruct (es_state_run [x] _ scores H0) as (pre & best & post & E & ? & ? & ? & ? & _).
  exists pre, best, post. by repeat split.
Qed.

(** ** Batching *)

Lemma slices_cover {A : Type} (xs : list A) (bs : nat) :
  0 < bs ->
  forall (c s : nat),
    range_len (length xs - s) bs = c ->
    concat ((fun start => slice xs start (start + bs)) <$> range_from s bs c) = drop s xs.
Proof.
  intros Hbs. induction c as [|c IH]; intros s Hc.
  - unfold range_len in Hc. destruct (length xs - s) eqn:Hlen; [|done].
    rewrite drop_ge by lia. done.
  - apply range_len_step in Hc as [Hpos Hc]; [|done].
    cbn [range_from fmap list_fmap concat].
    rewrite IH by (rewrite <- Hc; f_equal; lia).
    unfold slice. replace (s + bs - s) with bs by lia.
    rewrite <- drop_drop. apply take_drop.
Qed.

Lemma slice_length_le {A : Type} (xs : list A) (s bs : nat) :
  length (slice xs s (s + bs)) <= bs.
Proof. unfold slice. rewrite length_take. lia. Qed.

(** X2.  For a positive batch size the slices [xs[start:start + batch_size]]
    taken at the starts [range(0, len(xs), batch_size)] are, in order, a
    partition of [xs]: none is empty, none is longer than the batch size, and
    their concatenation is [xs]. *)
Theorem batches_partition_samples {A : Type} (xs : list A) (batch_size : nat) :
  0 < batch_size ->
  exists starts,
    range_step (length xs) batch_size = Ok starts /\
    concat ((fun start => slice xs start (start + batch_size)) <$> starts) = xs /\
    Forall (fun start =>
              0 < length (slice xs start (start + batch_size)) <= batch_size) starts.
Proof.
  intros Hbs. eexists. split.
  - unfold range_step. rewrite decide_False by lia. reflexivity.
  - split.
    + rewrite (slices_cover xs batch_size Hbs _ 0); [apply drop_0|].
      by rewrite Nat.sub_0_r.
    + assert (Hne := batch_slices_nonempty xs batch_size
                       (range_from 0 batch_size (range_len (length xs) batch_size))).
      unfold range_step in Hne. rewrite decide_False in Hne by lia.
      specialize (Hne eq_refl).
      eapply Forall_impl; [exact Hne|]. intros start Hs. simpl in Hs. split.
      * destruct (slice xs start (start + batch_size)); [done|simpl; lia].
      * apply slice_length_le.
Qed.

Lemma batches_partition_samples_witness :
  exists starts,
    range_step (length [10; 11; 12]) 2 = Ok starts /\
    concat ((fun start => slice [10; 11; 12] start (start + 2)) <$> starts) = [10; 11; 12] /\
    Forall (fun start => 0 < length (slice [10; 11; 12] start (start + 2)) <= 2) starts.
Proof. apply (batches_partition_samples [10; 11; 12] 2). lia. Defined.

(** ** Graph builder: which interactions are accepted *)

Lemma coo_matrix_diag_ok (d : list fval) (n : nat) :
  length d = n ->
  coo_matrix d (seq 0 n) (seq 0 n) (n, n) = Ok (mk_coo (n, n) (zip (zip (seq 0 n) (seq 0 n)) d)).
Proof.
  intros Hd. unfold coo_matrix. rewrite decide_True; [done|].
  cbn [fst snd]. rewrite length_seq.
  repeat split; try done; apply Forall_seq; intros; lia.
Qed.

Lemma build_sym_adj_accepts (U I : nat) (pairs : list (nat * nat)) :
  LightGCN.build_sym_adj U I pairs
  = if decide (Forall (fun p => p.1 < U + I /\ p.2 < I) pairs)
    then Ok (mk_coo (U + I, U + I) (sym_entries U pairs))
    else Raise ValueError.
Proof.
  unfold LightGCN.build_sym_adj, coo_matrix. cbv zeta. cbn [fst snd].
  destruct (decide (Forall (fun p => p.1 < U + I /\ p.2 < I) pairs)) as [Hr|Hr].
  - rewrite decide_True.
    + cbn [mbind result_bind]. unfold sp_add, transpose, sym_entries.
      cbn [entries shape fst snd]. rewrite zip_pairs_ones. do 2 f_equal. f_equal.
      rewrite <- list_fmap_compose. apply list_fmap_ext. by intros _ [u i] _.
    + rewrite length_replicate, !length_fmap, !Forall_fmap. repeat split; try done.
      * eapply Forall_impl; [exact Hr|]. intros p [? ?]. done.
      * eapply Forall_impl; [exact Hr|]. intros p [? ?]. simpl. lia.
  - rewrite decide_False; [done|]. rewrite !Forall_fmap.
    intros (_ & _ & H1 & H2). apply Hr.
    rewrite Forall_forall in H1, H2. apply Forall_forall. intros p Hp.
    specialize (H1 p Hp). specialize (H2 p Hp). simpl in *. lia.
Qed.

(** X3.  [build_adj_matrix] returns a matrix of shape
    [(num_users + num_items)] squared exactly when every interaction has its
    item below [num_items] and its user below [num_users + num_items];
    otherwise it raises [ValueError].  A user id that is at least
    [num_users] and below [num_users + num_items] is therefore accepted. *)
Theorem build_adj_matrix_accepts (U I : nat) (pairs : list (nat * nat)) :
  (Forall (fun p => p.1 < U + I /\ p.2 < I) pairs ->
   exists m, LightGCN.build_adj_matrix U I pairs = Ok m /\ m.(shape) = (U + I, U + I)) /\
  (~ Forall (fun p => p.1 < U + I /\ p.2 < I) pairs ->
   LightGCN.build_adj_matrix U I pairs = Raise ValueError).
Proof.
  unfold LightGCN.build_adj_matrix. cbv zeta. rewrite build_sym_adj_accepts.
  split; intros Hr.
  - rewrite decide_True by done. cbn [mbind result_bind].
    rewrite coo_matrix_diag_ok.
    + cbn [mbind result_bind]. eexists. split; [reflexivity|]. done.
    + unfold sum_axis1. cbn [shape fst]. by rewrite !length_fmap, length_seq.
  - by rewrite decide_False.
Qed.

Lemma filter_length_zero {A : Type} (P : A -> Prop) `{!forall x, Decision (P x)} (l : list A) :
  Forall (fun x => ~ P x) l -> length (filter P l) = 0.
Proof.
  induction 1 as [|x l Hx Hl IH]; [done|].
  rewrite filter_cons. by case_decide.
Qed.

Lemma multiplicity_same_side (U I : nat) (pairs : list (nat * nat)) (a b : nat) :
  in_range U I pairs ->
  (a < U /\ b < U) \/ (U <= a /\ U <= b) ->
  multiplicity U pairs a b = 0.
Proof.
  intros Hr Hab. unfold multiplicity.
  rewrite !filter_length_zero; [done| |];
    (eapply Forall_impl; [exact Hr|]); intros [u i] [? ?]; simpl in *; lia.
Qed.

(** X4.  For in-range interactions the normalized adjacency is bipartite: the
    entry between two user nodes and the entry between two item nodes is
    zero. *)
Theorem norm_adj_bipartite (U I : nat) (pairs : list (nat * nat)) :
  in_range U I pairs ->
  exists norm,
    LightGCN.build_adj_matrix U I pairs = Ok norm /\
    forall a b, (a < U /\ b < U) \/ (U <= a /\ U <= b) -> entry norm a b = Num 0.
Proof.
  intros Hr. exists (norm_adj_of U I pairs). split; [by apply build_adj_matrix_ok|].
  intros a b Hab. rewrite (norm_entry U I) by done.
  rewrite (multiplicity_same_side U I) by done. f_equal. simpl. lra.
Qed.

Lemma norm_adj_bipartite_witness :
  exists norm,
    LightGCN.build_adj_matrix 3 4 [(0, 1); (0, 2); (1, 0); (2, 3)] = Ok norm /\
    forall a b, (a < 3 /\ b < 3) \/ (3 <= a /\ 3 <= b) -> entry norm a b = Num 0.
Proof.
  apply norm_adj_bipartite. unfold in_range. repeat constructor; simpl; lia.
Defined.

Lemma multiplicity_count (U I : nat) (pairs : list (nat * nat)) (u i : nat) :
  in_range U I pairs ->
  multiplicity U pairs u (i + U) = length (filter (fun p => p = (u, i)) pairs).
Proof.
  intros Hr. unfold multiplicity.
  rewrite (list_filter_iff _ (fun p => p = (u, i))).
  2:{ intros [u' i']. simpl. split; [intros [? ?]|intros [= -> ->]; done].
      f_equal; lia. }
  rewrite (filter_length_zero (fun p : nat * nat => p.2 + U = u /\ p.1 = i + U)); [lia|].
  eapply Forall_impl; [exact Hr|]. intros [u' i'] [? ?]. simpl in *. lia.
Qed.

(** X5.  For in-range interactions that may repeat, the weight of the user-item
    entry [(u, i + num_users)] is the number of times the pair [(u, i)] is
    listed, divided by [sqrt((deg u + 1e-8) * (deg i + 1e-8))], where a degree
    counts repetitions as well. *)
Theorem norm_adj_repeated_interactions (U I : nat) (pairs : list (nat * nat)) :
  in_range U I pairs ->
  exists norm,
    LightGCN.build_adj_matrix U I pairs = Ok norm /\
    forall u i,
      entry norm u (i + U)
      = Num (INR (length (filter (fun p => p = (u, i)) pairs))
             / sqrt ((INR (degree U pairs u) + LightGCN.eps)
                     * (INR (degree U pairs (i + U)) + LightGCN.eps))).
Proof.
  intros Hr. exists (norm_adj_of U I pairs). split; [by apply build_adj_matrix_ok|].
  intros u i. rewrite (norm_entry U I) by done.
  rewrite (multiplicity_count U I) by done. f_equal. unfold dinv.
  pose proof (degree_eps_pos U pairs u) as Hu.
  pose proof (degree_eps_pos U pairs (i + U)) as Hi.
  rewrite sqrt_mult by lra.
  pose proof (sqrt_lt_R0 _ Hu). pose proof (sqrt_lt_R0 _ Hi).
  field. split; lra.
Qed.

Lemma norm_adj_repeated_interactions_witness :
  exists norm,
    LightGCN.build_adj_matrix 1 1 [(0, 0); (0, 0)] = Ok norm /\
    forall u i,
      entry norm u (i + 1)
      = Num (INR (length (filter (fun p => p = (u, i)) [(0, 0); (0, 0)]))
             / sqrt ((INR (degree 1 [(0, 0); (0, 0)] u) + LightGCN.eps)
                     * (INR (degree 1 [(0, 0); (0, 0)] (i + 1)) + LightGCN.eps))).
Proof.
  apply norm_adj_repeated_interactions. unfold in_range. repeat constructor; simpl; lia.
Defined.

(** ** The rebuilt interaction dictionary *)

Lemma rebuild_step_lookup (d : gmap nat (gset nat)) (l : list (nat * nat)) (u i : nat) :
  i ∈ default ∅ (foldl (fun d '(u, i) => <[u := default ∅ (d !! u) ∪ {[i]}]> d) d l !! u)
  <-> i ∈ default ∅ (d !! u) \/ (u, i) ∈ l.
Proof.
  revert d. induction l as [|[u' i'] l IH]; intros d.
  - cbn [foldl]. rewrite elem_of_nil. tauto.
  - cbn [foldl]. rewrite IH, elem_of_cons.
    destruct (decide (u' = u)) as [->|Hne].
    + rewrite lookup_insert_eq. cbn. rewrite elem_of_union, elem_of_singleton.
      split; intros H; [|].
      * destruct H as [[H|H]|H]; [by left|right; left; by subst|right; by right].
      * destruct H as [H|[[= -> ]|H]]; [left; by left|left; by right|by right].
    + rewrite lookup_insert_ne by done.
      split; intros [H|H]; try (by left).
      * right. by right.
      * destruct H as [[=]|H]; [congruence|by right].
Qed.

Lemma rebuild_step_keys (d : gmap nat (gset nat)) (l : list (nat * nat)) (u : nat) :
  is_Some (foldl (fun d '(u, i) => <[u := default ∅ (d !! u) ∪ {[i]}]> d) d l !! u)
  <-> is_Some (d !! u) \/ u ∈ l.*1.
Proof.
  revert d. induction l as [|[u' i'] l IH]; intros d.
  - cbn [foldl fmap list_fmap]. rewrite elem_of_nil. tauto.
  - cbn [foldl]. rewrite IH, fmap_cons, elem_of_cons. cbn [fst].
    destruct (decide (u' = u)) as [->|Hne].
    + rewrite lookup_insert_eq. split; [intros _; right; by left|intros _; left; by eexists].
    + rewrite lookup_insert_ne by done. split; intros [H|H]; try (by left).
      * right. by right.
      * destruct H as [->|H]; [done|by right].
Qed.

(** X6.  The dictionary that [train_lightgcn] rebuilds from the interaction
    tensor holds item [i] for user [u] exactly when [(u, i)] is an
    interaction, and has the key [u] exactly when [u] is the user of some
    interaction. *)
Theorem rebuild_user_item_dict_lookup (interactions : list (nat * nat)) (u i : nat) :
  (i ∈ default ∅ (rebuild_user_item_dict interactions !! u) <-> (u, i) ∈ interactions) /\
  (is_Some (rebuild_user_item_dict interactions !! u) <-> u ∈ interactions.*1).
Proof.
  unfold rebuild_user_item_dict. split.
  - rewrite rebuild_step_lookup, lookup_empty. cbn. rewrite elem_of_empty. tauto.
  - rewrite rebuild_step_keys, lookup_empty. split; [intros [[? [=]]|H]; done|by right].
Qed.

(** ** Ranking metrics *)

Lemma size_list_to_set_le (l : list nat) : size (list_to_set l : gset nat) <= length l.
Proof.
  induction l as [|x l IH]; [by rewrite list_to_set_nil, size_empty|].
  rewrite list_to_set_cons, size_union_alt, size_singleton. simpl.
  pose proof (subseteq_size (list_to_set l ∖ {[x]}) (list_to_set l : gset nat)
                ltac:(by apply subseteq_difference_l)). lia.
Qed.

Lemma size_list_to_set_zero (l : list nat) : size (list_to_set l : gset nat) = 0 <-> l = [].
Proof.
  split; [|by intros ->].
  intros H. apply size_empty_inv in H. destruct l as [|x l]; [done|].
  exfalso. assert (Hx : x ∈ (list_to_set (x :: l) : gset nat))
    by (apply elem_of_list_to_set; left).
  rewrite H in Hx. by apply elem_of_empty in Hx.
Qed.

Lemma size_list_to_set_NoDup (l : list nat) :
  size (list_to_set l : gset nat) = length l -> NoDup l.
Proof.
  induction l as [|x l IH]; [constructor|].
  rewrite list_to_set_cons. cbn [length]. intros Hsize.
  pose proof (size_list_to_set_le l) as Hle.
  destruct (decide (x ∈ l)) as [Hin|Hin].
  - exfalso.
    assert (Heq : ({[x]} ∪ list_to_set l : gset nat) = list_to_set l).
    { assert (Hin' : x ∈ (list_to_set l : gset nat)) by (by apply elem_of_list_to_set).
      by apply subseteq_union_1_L, singleton_subseteq_l. }
    rewrite Heq in Hsize. lia.
  - rewrite size_union, size_singleton in Hsize.
    + constructor; [done|]. apply IH. lia.
    + apply disjoint_singleton_l. by rewrite elem_of_list_to_set.
Qed.

Lemma INR_ratio_bounds (a b : nat) : a <= b -> 0 < b -> (0 <= INR a / INR b <= 1)%R.
Proof.
  intros Hab Hb. assert (0 < INR b)%R by (apply lt_0_INR; lia).
  pose proof (pos_INR a). pose proof (le_INR a b Hab). split.
  - apply Rmult_le_pos; [done|]. apply Rlt_le. by apply Rinv_0_lt_compat.
  - apply (Rmult_le_reg_r (INR b)); [done|]. field_simplify; lra.
Qed.

Lemma INR_ratio_one (a b : nat) : 0 < b -> (INR a / INR b = 1)%R <-> a = b.
Proof.
  intros Hb. assert (0 < INR b)%R by (apply lt_0_INR; lia). split.
  - intros H1. apply INR_eq.
    apply (Rmult_eq_reg_r (/ INR b)); [|apply Rinv_neq_0_compat; lra].
    rewrite Rinv_r by lra. exact H1.
  - intros ->. field. lra.
Qed.

Lemma size_list_to_set_pos (l : list nat) : l <> [] -> 0 < size (list_to_set l : gset nat).
Proof.
  intros Hne. destruct (size (list_to_set l : gset nat)) eqn:E; [|lia].
  by apply size_list_to_set_zero in E.
Qed.

Lemma size_hits_le (ranked_list ground_truth : list nat) (k : nat) :
  size ((list_to_set (take k ranked_list) : gset nat) ∩ list_to_set ground_truth)
  <= size (list_to_set ground_truth : gset nat) /\
  size ((list_to_set (take k ranked_list) : gset nat) ∩ list_to_set ground_truth) <= k.
Proof.
  split.
  - apply subseteq_size, intersection_subseteq_r.
  - pose proof (subseteq_size
                  ((list_to_set (take k ranked_list) : gset nat) ∩ list_to_set ground_truth)
                  (list_to_set (take k ranked_list))
                  ltac:(apply intersection_subseteq_l)) as Hle.
    pose proof (size_list_to_set_le (take k ranked_list)) as Hs.
    rewrite length_take in Hs. lia.
Qed.

Lemma recall_at_k_in_unit (ranked_list ground_truth : list nat) (k : nat) :
  ground_truth <> [] ->
  exists r, recall_at_k ranked_list ground_truth k = Ok r /\ (0 <= r <= 1)%R.
Proof.
  intros Hne. unfold recall_at_k, int_truediv.
  pose proof (size_list_to_set_pos ground_truth Hne) as Hpos.
  rewrite decide_False by lia. eexists. split; [reflexivity|].
  apply INR_ratio_bounds; [|done]. apply size_hits_le.
Qed.

Lemma precision_at_k_in_unit (ranked_list ground_truth : list nat) (k : nat) :
  0 < k ->
  exists p, precision_at_k ranked_list ground_truth k = Ok p /\ (0 <= p <= 1)%R.
Proof.
  intros Hk. unfold precision_at_k, int_truediv.
  rewrite decide_False by lia. eexists. split; [reflexivity|].
  apply INR_ratio_bounds; [|done]. apply size_hits_le.
Qed.

(** X7.  [recall_at_k] raises [ZeroDivisionError] on an empty ground truth; on a
    non-empty one it returns a value in [0, 1], which is 1 exactly when every
    ground-truth item is among the first [k] ranked items. *)
Theorem recall_at_k_spec (ranked_list ground_truth : list nat) (k : nat) :
  (ground_truth = [] -> recall_at_k ranked_list ground_truth k = Raise ZeroDivisionError) /\
  (ground_truth <> [] ->
   exists r, recall_at_k ranked_list ground_truth k = Ok r /\
             (0 <= r <= 1)%R /\
             (r = 1%R <-> forall g, g ∈ ground_truth -> g ∈ take k ranked_list)).
Proof.
  split.
  - intros ->. unfold recall_at_k, int_truediv. by rewrite decide_True.
  - intros Hne.
    destruct (recall_at_k_in_unit ranked_list ground_truth k Hne) as (r & Hr & Hbound).
    exists r. split; [done|]. split; [done|].
    pose proof (size_list_to_set_pos ground_truth Hne) as Hpos.
    unfold recall_at_k, int_truediv in Hr. rewrite decide_False in Hr by lia.
    injection Hr as <-.
    destruct (size_hits_le ranked_list ground_truth k) as [Hle _].
    rewrite INR_ratio_one by done. split.
    + intros Heq g Hg.
      assert (Hsub : (list_to_set (take k ranked_list) : gset nat) ∩ list_to_set ground_truth
                     = list_to_set ground_truth).
      { apply set_subseteq_size_eq; [apply intersection_subseteq_r|lia]. }
      assert (Hin : g ∈ (list_to_set (take k ranked_list) : gset nat)
                        ∩ list_to_set ground_truth)
        by (rewrite Hsub; by apply elem_of_list_to_set).
      apply elem_of_intersection in Hin as [Hin _]. by apply elem_of_list_to_set in Hin.
    + intros Hall. f_equal. apply leibniz_equiv. intros g.
      rewrite elem_of_intersection, !elem_of_list_to_set. split; [by intros [_ ?]|].
      intros Hg. split; [by apply Hall|done].
Qed.

(** X8.  [precision_at_k] raises [ZeroDivisionError] for [k = 0]; for [k > 0] it
    returns a value in [0, 1], and the value 1 requires the ranking to have
    [k] distinct leading items that all belong to the ground truth. *)
Theorem precision_at_k_spec (ranked_list ground_truth : list nat) (k : nat) :
  (k = 0 -> precision_at_k ranked_list ground_truth k = Raise ZeroDivisionError) /\
  (0 < k ->
   exists p, precision_at_k ranked_list ground_truth k = Ok p /\
             (0 <= p <= 1)%R /\
             (p = 1%R ->
              length (take k ranked_list) = k /\ NoDup (take k ranked_list) /\
              forall x, x ∈ take k ranked_list -> x ∈ ground_truth)).
Proof.
  split.
  - intros ->. unfold precision_at_k, int_truediv. by rewrite decide_True.
  - intros Hk.
    destruct (precision_at_k_in_unit ranked_list ground_truth k Hk) as (p & Hp & Hbound).
    exists p. split; [done|]. split; [done|].
    unfold precision_at_k, int_truediv in Hp. rewrite decide_False in Hp by lia.
    injection Hp as <-. rewrite INR_ratio_one by done. intros Heq.
    pose proof (subseteq_size
                  ((list_to_set (take k ranked_list) : gset nat) ∩ list_to_set ground_truth)
                  (list_to_set (take k ranked_list))
                  ltac:(apply intersection_subseteq_l)) as Hle.
    pose proof (size_list_to_set_le (take k ranked_list)) as Hs.
    pose proof (length_take ranked_list k) as Hlen.
    assert (Hsize : size (list_to_set (take k ranked_list) : gset nat)
                    = length (take k ranked_list)) by lia.
    split; [lia|]. split.
    + by apply size_list_to_set_NoDup.
    + intros x Hx.
      assert (Hsub : (list_to_set (take k ranked_list) : gset nat) ∩ list_to_set ground_truth
                     = list_to_set (take k ranked_list)).
      { apply set_subseteq_size_eq; [apply intersection_subseteq_l|lia]. }
      assert (Hin : x ∈ (list_to_set (take k ranked_list) : gset nat)
                        ∩ list_to_set ground_truth)
        by (rewrite Hsub; by apply elem_of_list_to_set).
      apply elem_of_intersection in Hin as [_ Hin]. by apply elem_of_list_to_set in Hin.
Qed.

(** ** NDCG *)

Lemma log2_ge_1 (n : nat) : 2 <= n -> (1 <= log2 n)%R.
Proof.
  intros Hn. unfold log2.
  assert (H2 : (0 < ln 2)%R) by (rewrite <- ln_1; apply ln_increasing; lra).
  assert (Hle : (ln 2 <= ln (INR n))%R).
  { assert (Hn' : (2 <= INR n)%R) by (change 2%R with (INR 2); by apply le_INR).
    destruct (Req_dec 2 (INR n)) as [<-|Hne]; [lra|].
    apply Rlt_le, ln_increasing; lra. }
  apply (Rmult_le_reg_r (ln 2)); [done|]. field_simplify; lra.
Qed.

Lemma log2_mono (n m : nat) : 2 <= n -> n <= m -> (log2 n <= log2 m)%R.
Proof.
  intros Hn Hnm. unfold log2.
  assert (H2 : (0 < ln 2)%R) by (rewrite <- ln_1; apply ln_increasing; lra).
  assert (Hle : (ln (INR n) <= ln (INR m))%R).
  { assert (0 < INR n)%R by (apply lt_0_INR; lia).
    pose proof (le_INR n m Hnm).
    destruct (Req_dec (INR n) (INR m)) as [->|Hne]; [lra|].
    apply Rlt_le, ln_increasing; lra. }
  apply Rmult_le_compat_r; [|done]. apply Rlt_le. by apply Rinv_0_lt_compat.
Qed.

(** The gain of rank [i]. *)
Lemma gain_pos (i : nat) : (0 < 1 / log2 (i + 2))%R.
Proof.
  pose proof (log2_ge_1 (i + 2) ltac:(lia)).
  apply Rdiv_lt_0_compat; lra.
Qed.

Lemma gain_mono (i j : nat) : i <= j -> (1 / log2 (j + 2) <= 1 / log2 (i + 2))%R.
Proof.
  intros Hij.
  pose proof (log2_ge_1 (i + 2) ltac:(lia)).
  pose proof (log2_mono (i + 2) (j + 2) ltac:(lia) ltac:(lia)).
  unfold Rdiv. rewrite !Rmult_1_l. apply Rinv_le_contravar; lra.
Qed.

Lemma rsum_from (a : R) (l : list R) : foldl Rplus a l = (a + rsum l)%R.
Proof.
  unfold rsum. revert a. induction l as [|x l IH]; intros a; cbn [foldl]; [lra|].
  rewrite (IH (a + x)%R), (IH (0 + x)%R). lra.
Qed.

Lemma rsum_cons (x : R) (l : list R) : rsum (x :: l) = (x + rsum l)%R.
Proof. unfold rsum at 1. cbn [foldl]. rewrite rsum_from. lra. Qed.

Lemma rsum_app (l1 l2 : list R) : rsum (l1 ++ l2) = (rsum l1 + rsum l2)%R.
Proof.
  induction l1 as [|x l1 IH]; [unfold rsum at 2; simpl; lra|].
  cbn [app]. rewrite !rsum_cons, IH. lra.
Qed.

Lemma rsum_gains_nonneg (p h : nat) :
  (0 <= rsum ((fun i => 1 / log2 (i + 2))%R <$> seq p h))%R.
Proof.
  revert p. induction h as [|h IH]; intros p; [unfold rsum; simpl; lra|].
  cbn [seq]. rewrite fmap_cons, rsum_cons.
  pose proof (gain_pos p). specialize (IH (S p)). lra.
Qed.

Lemma rsum_gains_shift (p h : nat) :
  (rsum ((fun i => 1 / log2 (i + 2))%R <$> seq (S p) h)
   <= rsum ((fun i => 1 / log2 (i + 2))%R <$> seq p h))%R.
Proof.
  revert p. induction h as [|h IH]; intros p; [unfold rsum; simpl; lra|].
  cbn [seq]. rewrite !fmap_cons, !rsum_cons.
  pose proof (gain_mono p (S p) ltac:(lia)). specialize (IH (S p)). lra.
Qed.

Lemma rsum_gains_more (h m : nat) :
  h <= m ->
  (rsum ((fun i => 1 / log2 (i + 2))%R <$> seq 0 h)
   <= rsum ((fun i => 1 / log2 (i + 2))%R <$> seq 0 m))%R.
Proof.
  intros Hhm. replace m with (h + (m - h)) by lia.
  rewrite seq_app, fmap_app, rsum_app.
  pose proof (rsum_gains_nonneg (0 + h) (m - h)). lra.
Qed.

Lemma dcg_bounds (ground_truth : list nat) (l : list nat) (p : nat) (acc : R) :
  let dcg :=
    foldl (fun dcg '(i, item) =>
             if decide (item ∈ ground_truth) then (dcg + 1 / log2 (i + 2))%R else dcg)
          acc (imap (fun i item => (p + i, item)) l) in
  (acc <= dcg
   <= acc + rsum ((fun i => 1 / log2 (i + 2))%R
                    <$> seq p (length (filter (fun item => item ∈ ground_truth) l))))%R.
Proof.
  cbv zeta. revert p acc. induction l as [|x l IH]; intros p acc.
  - cbn. unfold rsum. simpl. lra.
  - rewrite imap_cons. cbn [foldl]. rewrite filter_cons.
    rewrite (imap_ext _ (fun i item => (S p + i, item))).
    2:{ intros i y _. simpl. f_equal. lia. }
    rewrite Nat.add_0_r.
    destruct (decide (x ∈ ground_truth)) as [Hx|Hx].
    + cbn [length seq]. rewrite fmap_cons, rsum_cons.
      specialize (IH (S p) (acc + 1 / log2 (p + 2))%R).
      pose proof (gain_pos p). lra.
    + specialize (IH (S p) acc).
      pose proof (rsum_gains_shift p (length (filter (fun item => item ∈ ground_truth) l))).
      lra.
Qed.

Lemma hits_le (ground_truth l : list nat) (k : nat) :
  NoDup l ->
  length (filter (fun item => item ∈ ground_truth) (take k l)) <= min (length ground_truth) k.
Proof.
  intros Hnd.
  assert (Hk : length (filter (fun item => item ∈ ground_truth) (take k l)) <= k).
  { pose proof (length_filter (fun item => item ∈ ground_truth) (take k l)) as Hf.
    rewrite length_take in Hf. lia. }
  assert (Hg : length (filter (fun item => item ∈ ground_truth) (take k l))
               <= length ground_truth).
  { apply submseteq_length, NoDup_submseteq.
    - apply NoDup_filter. eapply sublist_NoDup; [done|apply sublist_take].
    - intros x Hx. by apply list_elem_of_filter in Hx as [? _]. }
  lia.
Qed.

Lemma ndcg_at_k_in_unit (ranked_list ground_truth : list nat) (k : nat) :
  NoDup ranked_list -> (0 <= ndcg_at_k ranked_list ground_truth k <= 1)%R.
Proof.
  intros Hnd. unfold ndcg_at_k. cbv zeta.
  pose proof (dcg_bounds ground_truth (take k ranked_list) 0 0) as Hd. cbv zeta in Hd.
  rewrite (imap_ext _ (fun i item => (i, item))) in Hd by done.
  pose proof (hits_le ground_truth ranked_list k Hnd) as Hh.
  pose proof (rsum_gains_more _ _ Hh) as Hm.
  set (dcg := foldl _ _ _) in *. set (idcg := rsum (_ <$> seq 0 (min _ _))) in *.
  set (hit := rsum _) in Hd. change (hit <= idcg)%R in Hm.
  destruct (Rlt_dec 0 _) as [Hpos|_]; [|lra].
  split.
  - apply Rmult_le_pos; [lra|]. apply Rlt_le. by apply Rinv_0_lt_compat.
  - apply (Rmult_le_reg_r idcg); [done|].
    unfold Rdiv. rewrite Rmult_assoc, Rinv_l by lra. lra.
Qed.

(** X9.  On a ranking without repeated items [ndcg_at_k] lies in [0, 1]; it is 0
    when the ground truth is empty or [k = 0] (the guard on [idcg]). *)
Theorem ndcg_at_k_bounds (ranked_list ground_truth : list nat) (k : nat) :
  NoDup ranked_list ->
  (0 <= ndcg_at_k ranked_list ground_truth k <= 1)%R /\
  (ground_truth = [] \/ k = 0 -> ndcg_at_k ranked_list ground_truth k = 0%R).
Proof.
  intros Hnd. split; [by apply ndcg_at_k_in_unit|].
  intros Hcase. unfold ndcg_at_k. cbv zeta.
  assert (Hmin : min (length ground_truth) k = 0)
    by (destruct Hcase as [->| ->]; simpl; lia).
  rewrite Hmin. cbn [seq fmap list_fmap]. unfold rsum. cbn [foldl].
  destruct (Rlt_dec 0 0); [lra|done].
Qed.

Lemma ndcg_at_k_bounds_witness :
  (0 <= ndcg_at_k [3; 1; 2]%nat [1; 5]%nat 2 <= 1)%R /\
  ([1; 5]%nat = [] \/ 2 = 0 -> ndcg_at_k [3; 1; 2]%nat [1; 5]%nat 2 = 0%R).
Proof.
  apply ndcg_at_k_bounds. by apply (bool_decide_unpack (NoDup _)).
Defined.

(** ** Predicted ratings *)

Lemma sigmoid_unit_or_nan (x : fval) : unit_or_nan (sigmoid x).
Proof.
  destruct x as [r| | |]; cbn; try done; try lra.
  pose proof (exp_pos (- r)) as He.
  split.
  - apply Rlt_le, Rdiv_lt_0_compat; lra.
  - apply (Rmult_le_reg_r (1 + exp (- r))); [lra|].
    unfold Rdiv. rewrite Rmult_assoc, Rinv_l by lra. lra.
Qed.

(** X10.  On a model with the shapes [__init__] gives, [getUsersRating]
    returns, for user ids below [num_users], one row per requested user with
    one rating per item, every rating a number in [0, 1] or [nan] (never an
    infinity, never a number outside [0, 1]); with a user id that is not
    below [num_users] it raises [IndexError]. *)
Theorem getUsersRating_unit_scores (self : LightGCN.t) (users : list nat) :
  well_shaped self ->
  (Forall (fun u => u < self.(LightGCN.num_users)) users ->
   exists ratings,
     getUsersRating self users = Ok ratings /\
     length ratings = length users /\
     Forall (fun row => length row = self.(LightGCN.num_items) /\ Forall unit_or_nan row)
       ratings) /\
  (~ Forall (fun u => u < self.(LightGCN.num_users)) users ->
   getUsersRating self users = Raise IndexError).
Proof.
  intros (HU & HI & _).
  destruct (getEmbedding_lengths self HU) as [HlU HlI].
  unfold getUsersRating.
  destruct (LightGCN.getEmbedding self) as [user_emb item_emb]. cbn [fst snd] in *.
  split.
  - intros Hin. rewrite <- HlU in Hin.
    destruct (gather_in_range user_emb users Hin) as (l & -> & Hlen & Hl).
    cbn [mbind result_bind]. eexists. split; [done|]. unfold matmul_t.
    split; [by rewrite !length_fmap|].
    rewrite <- list_fmap_compose. apply Forall_fmap, Forall_forall.
    intros u Hu. cbn. rewrite !length_fmap. split; [lia|].
    rewrite <- list_fmap_compose. apply Forall_fmap, Forall_true.
    intros v. cbn. apply sigmoid_unit_or_nan.
  - intros Hno. rewrite <- HlU in Hno. by rewrite gather_out_of_range.
Qed.

Lemma getUsersRating_unit_scores_witness :
  (Forall (fun u => u < small_model.(LightGCN.num_users)) [1; 0] ->
   exists ratings,
     getUsersRating small_model [1; 0] = Ok ratings /\
     length ratings = length [1; 0] /\
     Forall (fun row => length row = small_model.(LightGCN.num_items)
                        /\ Forall unit_or_nan row)
       ratings) /\
  (~ Forall (fun u => u < small_model.(LightGCN.num_users)) [1; 0] ->
   getUsersRating small_model [1; 0] = Raise IndexError).
Proof.
  apply (getUsersRating_unit_scores small_model [1; 0]).
  exact small_model_well_shaped.
Defined.

(** ** The ranking objective on a whole batch *)

(** X11.  On a model with the shapes [__init__] gives, with a non-negative
    regularization weight and a non-empty batch of equally long id lists,
    [bpr_loss] returns a loss that is not below zero (a non-negative number,
    [+inf] or [nan]) when every id is in range, and raises [IndexError] when
    some id is not. *)
Theorem bpr_loss_batch_spec (cfg : config) (model : LightGCN.t)
    (users pos_items neg_items : list nat) :
  well_shaped model ->
  (0 <= cfg.(cfg_reg_lambda))%R ->
  users <> [] ->
  length pos_items = length users -> length neg_items = length users ->
  let ids_in_range :=
    Forall (fun u => u < model.(LightGCN.num_users)) users /\
    Forall (fun i => i < model.(LightGCN.num_items)) pos_items /\
    Forall (fun i => i < model.(LightGCN.num_items)) neg_items in
  (ids_in_range ->
   exists loss,
     bpr_loss cfg model users pos_items neg_items = Ok loss /\ not_negative loss) /\
  (~ ids_in_range -> bpr_loss cfg model users pos_items neg_items = Raise IndexError).
Proof.
  intros Hws Hlam Hne Hlp Hln. cbv zeta. split.
  - intros (Hu & Hp & Hn). by apply bpr_loss_batch_returns.
  - intros Hno. by apply bpr_loss_out_of_range.
Qed.

Lemma bpr_loss_batch_spec_witness :
  let ids_in_range :=
    Forall (fun u => u < small_model.(LightGCN.num_users)) [0; 1] /\
    Forall (fun i => i < small_model.(LightGCN.num_items)) [0; 0] /\
    Forall (fun i => i < small_model.(LightGCN.num_items)) [1; 1] in
  (ids_in_range ->
   exists loss, bpr_loss notebook_config small_model [0; 1] [0; 0] [1; 1] = Ok loss
                /\ not_negative loss) /\
  (~ ids_in_range ->
   bpr_loss notebook_config small_model [0; 1] [0; 0] [1; 1] = Raise IndexError).
Proof.
  apply (bpr_loss_batch_spec notebook_config small_model [0; 1] [0; 0] [1; 1]).
  - exact small_model_well_shaped.
  - cbn. lra.
  - done.
  - reflexivity.
  - reflexivity.
Defined.

(** ** Shuffling and sampling *)

Lemma gather_fmap_lookup (xs : list nat) (idx : list nat) :
  Forall (fun i => i < length xs) idx ->
  gather xs idx = Ok ((fun i => default 0 (xs !! i)) <$> idx).
Proof.
  induction 1 as [|i idx Hi _ IH]; [done|].
  destruct (lookup_lt_is_Some_2 xs i Hi) as [x Hx].
  rewrite gather_cons, (index_Some _ _ _ Hx), IH. cbn [mbind result_bind].
  by rewrite fmap_cons, Hx.
Qed.

Lemma zip_fmap_same {A B C : Type} (f : A -> B) (g : A -> C) (l : list A) :
  zip (f <$> l) (g <$> l) = (fun x => (f x, g x)) <$> l.
Proof. induction l as [|x l IH]; [done|]. cbn. by rewrite <- IH. Qed.

Lemma zip3_lookup_seq (a b c : list nat) :
  length a = length b -> length b = length c ->
  (fun i => (default 0 (a !! i), default 0 (b !! i), default 0 (c !! i)))
    <$> seq 0 (length a)
  = zip (zip a b) c.
Proof.
  intros Hab Hbc. apply list_eq. intros i.
  rewrite list_lookup_fmap.
  destruct (decide (i < length a)) as [Hi|Hi].
  - rewrite lookup_seq_lt by done. cbn.
    destruct (lookup_lt_is_Some_2 a i) as [x Hx]; [lia|].
    destruct (lookup_lt_is_Some_2 b i) as [y Hy]; [lia|].
    destruct (lookup_lt_is_Some_2 c i) as [z Hz]; [lia|].
    rewrite Hx, Hy, Hz. cbn. symmetry.
    apply lookup_zip_with_Some. exists (x, y), z. repeat split; [|done].
    apply lookup_zip_with_Some. by exists x, y.
  - rewrite lookup_seq_ge by lia. cbn. symmetry.
    apply lookup_ge_None. rewrite !length_zip_with. lia.
Qed.

Lemma elements_nil_iff (X : gset nat) : elements X = [] <-> X = ∅.
Proof.
  split.
  - intros H. apply leibniz_equiv. by apply elements_empty_iff.
  - intros ->. apply elements_empty.
Qed.

Section SamplingFacts.

Variable rng : Type.
Variable random_shuffle : rng -> list nat -> rng * list nat.
Variable random_choice : rng -> list nat -> rng * nat.
Variable np_random_permutation : rng -> nat -> rng * list nat.

Lemma shuffle_valid_permutation (g : rng) (a b c : list nat) :
  (np_random_permutation g (length a)).2 ≡ₚ seq 0 (length a) ->
  length a = length b -> length b = length c ->
  shuffle rng np_random_permutation g a b c
  = Ok ((np_random_permutation g (length a)).1,
        ((fun i => default 0 (a !! i)) <$> (np_random_permutation g (length a)).2,
         (fun i => default 0 (b !! i)) <$> (np_random_permutation g (length a)).2,
         (fun i => default 0 (c !! i)) <$> (np_random_permutation g (length a)).2)).
Proof.
  intros Hperm Hab Hbc. unfold shuffle.
  rewrite decide_True by done.
  destruct (np_random_permutation g (length a)) as [g' idx]. cbn [fst snd] in *.
  assert (Hidx : Forall (fun i => i < length a) idx).
  { apply Forall_forall. intros i Hi. rewrite Hperm in Hi.
    apply elem_of_seq in Hi. lia. }
  rewrite (gather_fmap_lookup a idx Hidx).
  rewrite (gather_fmap_lookup b idx) by (by rewrite <- Hab).
  rewrite (gather_fmap_lookup c idx) by (by rewrite <- Hbc, <- Hab).
  done.
Qed.

(** X12.  When [np.random.permutation] returns a permutation of the positions,
    [shuffle] applied to three equally long arrays returns three arrays of
    the same length whose aligned triples are a permutation of the aligned
    triples of the inputs; on arrays of different lengths it raises
    [ValueError]. *)
Theorem shuffle_keeps_triples (g : rng) (a b c : list nat) :
  (np_random_permutation g (length a)).2 ≡ₚ seq 0 (length a) ->
  (length a = length b /\ length b = length c ->
   exists g' a' b' c',
     shuffle rng np_random_permutation g a b c = Ok (g', (a', b', c')) /\
     length a' = length a /\ length b' = length a /\ length c' = length a /\
     zip (zip a' b') c' ≡ₚ zip (zip a b) c) /\
  (~ (length a = length b /\ length b = length c) ->
   shuffle rng np_random_permutation g a b c = Raise ValueError).
Proof.
  intros Hperm. split.
  - intros [Hab Hbc]. rewrite (shuffle_valid_permutation g a b c Hperm Hab Hbc).
    do 4 eexists. split; [done|].
    assert (Hlen : length (np_random_permutation g (length a)).2 = length a).
    { by rewrite Hperm, length_seq. }
    rewrite !length_fmap. repeat split; try done.
    rewrite !zip_fmap_same, <- (zip3_lookup_seq a b c Hab Hbc).
    by apply fmap_Permutation.
  - intros Hno. unfold shuffle. by rewrite decide_False.
Qed.

Hypothesis random_choice_member :
  forall g l, l <> [] -> (random_choice g l).2 ∈ l.

Lemma sample_user_triplets_from (g : rng) (user_item_dict : gmap nat (gset nat))
    (all_items : gset nat) (users : list nat) (acc : list (nat * nat * nat)) :
  let step := fun '(g, samples) u =>
       let items := default ∅ (user_item_dict !! u) in
       if decide (items = ∅) then (g, samples)
       else
         let '(g1, pos) := random_choice g (elements items) in
         let neg_pool := elements (all_items ∖ items) in
         if decide (neg_pool = []) then (g1, samples)
         else
           let '(g2, neg) := random_choice g1 neg_pool in
           (g2, samples ++ [(u, pos, neg)]) in
  exists new,
    (foldl step (g, acc) users).2 = acc ++ new /\
    (fun s => s.1.1) <$> new = filter (samplable user_item_dict all_items) users /\
    Forall (good_sample user_item_dict all_items) new.
Proof.
  cbv zeta. revert g acc. induction users as [|u users IH]; intros g acc.
  - exists []. by rewrite app_nil_r.
  - cbn [foldl]. rewrite filter_cons.
    set (items := default ∅ (user_item_dict !! u)).
    destruct (decide (items = ∅)) as [He|He].
    { destruct (IH g acc) as (new & -> & Hu & Hg). exists new.
      rewrite decide_False; [done|]. intros [? _]. done. }
    pose proof (random_choice_member g (elements items)) as Hpos.
    destruct (random_choice g (elements items)) as [g1 pos]. cbn [snd] in Hpos.
    destruct (decide (elements (all_items ∖ items) = [])) as [Hn|Hn].
    { destruct (IH g1 acc) as (new & -> & Hu & Hg). exists new.
      rewrite decide_False; [done|]. intros [_ Hne]. apply Hne.
      by apply elements_nil_iff. }
    pose proof (random_choice_member g1 (elements (all_items ∖ items)) Hn) as Hneg.
    destruct (random_choice g1 (elements (all_items ∖ items))) as [g2 neg].
    cbn [snd] in Hneg.
    destruct (IH g2 (acc ++ [(u, pos, neg)])) as (new & -> & Hu & Hg).
    exists ((u, pos, neg) :: new). rewrite <- app_assoc. split; [done|].
    rewrite decide_True.
    2:{ split; [done|]. intros Hempty. apply Hn. by apply elements_nil_iff. }
    rewrite fmap_cons, Hu. split; [done|]. constructor; [|done].
    unfold good_sample. cbn [fst snd]. fold items.
    apply elem_of_elements in Hneg. apply elem_of_difference in Hneg as [? ?].
    repeat split; try done. apply elem_of_elements, Hpos.
    intros Hnil. apply He. by apply elements_nil_iff.
Qed.

Lemma sample_user_triplets_ok (g : rng) (user_item_dict : gmap nat (gset nat))
    (all_items : gset nat) (users : list nat) :
  (fun s => s.1.1)
    <$> (sample_user_triplets rng random_choice g user_item_dict all_items users).2
  = filter (samplable user_item_dict all_items) users /\
  Forall (good_sample user_item_dict all_items)
    (sample_user_triplets rng random_choice g user_item_dict all_items users).2.
Proof.
  unfold sample_user_triplets.
  destruct (sample_user_triplets_from g user_item_dict all_items users [])
    as (new & Hnew & Hu & Hg).
  cbv zeta in Hnew. rewrite Hnew. done.
Qed.

(** X13.  When [random.choice] returns a member of its non-empty argument,
    [sample_user_triplets] yields, in the order of [users], one triple for
    each user that has an interaction and an item left to draw a negative
    from, and none for the others; in every triple the positive is one of the
    user's items and the negative is an item of [all_items] that is not. *)
Theorem sample_user_triplets_spec (g : rng) (user_item_dict : gmap nat (gset nat))
    (all_items : gset nat) (users : list nat) :
  let samples := (sample_user_triplets rng random_choice g user_item_dict all_items users).2 in
  (fun s => s.1.1) <$> samples = filter (samplable user_item_dict all_items) users /\
  length samples <= length users /\
  forall u pos neg, (u, pos, neg) ∈ samples ->
    u ∈ users /\
    pos ∈ default ∅ (user_item_dict !! u) /\
    neg ∈ all_items /\ (neg ∉ default ∅ (user_item_dict !! u)) /\
    pos <> neg.
Proof.
  cbv zeta.
  destruct (sample_user_triplets_ok g user_item_dict all_items users) as [Hu Hg].
  split; [done|]. split.
  - rewrite <- (length_fmap (fun s : nat * nat * nat => s.1.1)), Hu. apply length_filter.
  - intros u pos neg Hin.
    rewrite Forall_forall in Hg. destruct (Hg _ Hin) as (Hpos & Hneg & Hnot).
    cbn [fst snd] in *. repeat split; try done.
    + assert (H' : u ∈ (fun s : nat * nat * nat => s.1.1)
                      <$> (sample_user_triplets rng random_choice g user_item_dict
                             all_items users).2)
        by (apply list_elem_of_fmap; by exists (u, pos, neg)).
      rewrite Hu in H'. by apply list_elem_of_filter in H' as [_ ?].
    + intros ->. done.
Qed.

End SamplingFacts.

Lemma first_choice_member (g : unit) (l : list nat) :
  l <> [] -> (first_choice g l).2 ∈ l.
Proof. destruct l as [|x l]; [done|]. intros _. cbn. left. Qed.

Lemma shuffle_keeps_triples_witness :
  (length [1; 2] = length [3; 4] /\ length [3; 4] = length [5; 6] ->
   exists g' a' b' c',
     shuffle unit identity_permutation tt [1; 2] [3; 4] [5; 6] = Ok (g', (a', b', c')) /\
     length a' = length [1; 2] /\ length b' = length [1; 2] /\ length c' = length [1; 2] /\
     zip (zip a' b') c' ≡ₚ zip (zip [1; 2] [3; 4]) [5; 6]) /\
  (~ (length [1; 2] = length [3; 4] /\ length [3; 4] = length [5; 6]) ->
   shuffle unit identity_permutation tt [1; 2] [3; 4] [5; 6] = Raise ValueError).
Proof.
  apply (shuffle_keeps_triples unit identity_permutation tt [1; 2] [3; 4] [5; 6]).
  reflexivity.
Defined.

Lemma sample_user_triplets_spec_witness :
  let samples := (sample_user_triplets unit first_choice tt two_users two_items [0; 1]).2 in
  (fun s => s.1.1) <$> samples = filter (samplable two_users two_items) [0; 1] /\
  length samples <= length [0; 1] /\
  forall u pos neg, (u, pos, neg) ∈ samples ->
    u ∈ [0; 1] /\
    pos ∈ default ∅ (two_users !! u) /\
    neg ∈ two_items /\ (neg ∉ default ∅ (two_users !! u)) /\
    pos <> neg.
Proof.
  apply (sample_user_triplets_spec unit first_choice first_choice_member
           tt two_users two_items [0; 1]).
Defined.

(** ** One epoch on well-formed input *)

Lemma Forall_fmap_lookup (P : nat -> Prop) (a idx : list nat) :
  Forall P a -> Forall (fun i => i < length a) idx ->
  Forall P ((fun i => default 0 (a !! i)) <$> idx).
Proof.
  intros Ha Hidx. apply Forall_fmap. eapply Forall_impl; [exact Hidx|].
  intros i Hi. cbn. destruct (lookup_lt_is_Some_2 a i Hi) as [x Hx]. rewrite Hx. cbn.
  by eapply Forall_lookup_1.
Qed.

Lemma length_slice_eq {A B : Type} (xs : list A) (ys : list B) (s e : nat) :
  length xs = length ys -> length (slice xs s e) = length (slice ys s e).
Proof. intros H. unfold slice. rewrite !length_take, !length_drop. lia. Qed.

Lemma Forall_slice {A : Type} (P : A -> Prop) (xs : list A) (s e : nat) :
  Forall P xs -> Forall P (slice xs s e).
Proof. intros H. unfold slice. by apply Forall_take, Forall_drop. Qed.

Section EpochFacts.

Variable rng : Type.
Variable random_shuffle : rng -> list nat -> rng * list nat.
Variable random_choice : rng -> list nat -> rng * nat.
Variable np_random_permutation : rng -> nat -> rng * list nat.
Variable optimizer : Type.
Variable optimizer_step :
  optimizer -> LightGCN.t -> list nat -> list nat -> list nat -> optimizer * LightGCN.t.

Hypothesis np_random_permutation_valid :
  forall g n, (np_random_permutation g n).2 ≡ₚ seq 0 n.

Lemma train_one_epoch_zero (cfg : config) (st : train_state rng optimizer)
    (user_item_dict : gmap nat (gset nat)) (all_items : gset nat) :
  train_one_epoch rng random_shuffle random_choice np_random_permutation optimizer
    optimizer_step cfg st user_item_dict all_items 0
  = Raise ZeroDivisionError.
Proof.
  unfold train_one_epoch.
  destruct (random_shuffle _ _) as [g1 users].
  destruct (sample_user_triplets _ _ _ _ _ _) as [g2 samples].
  rewrite shuffle_valid_permutation;
    [|apply np_random_permutation_valid|by rewrite !length_fmap..].
  done.
Qed.

Hypothesis random_shuffle_permutes : forall g l, (random_shuffle g l).2 ≡ₚ l.

Hypothesis random_choice_member :
  forall g l, l <> [] -> (random_choice g l).2 ∈ l.

Variables U I : nat.

Hypothesis optimizer_step_valid :
  forall opt m users pos neg,
    valid_model U I m -> valid_model U I (optimizer_step opt m users pos neg).2.

Lemma train_batch_eq (cfg : config) (us ps ns : list nat) (batch_size : nat)
    (opt : optimizer) (m : LightGCN.t) (total : fval) (start : nat) :
  train_batch optimizer optimizer_step cfg us ps ns batch_size (opt, m, total) start
  = (loss ← bpr_loss cfg m (slice us start (start + batch_size))
              (slice ps start (start + batch_size))
              (slice ns start (start + batch_size));
     let '(opt', m') :=
       optimizer_step opt m (slice us start (start + batch_size))
         (slice ps start (start + batch_size))
         (slice ns start (start + batch_size)) in
     Ok (opt', m', fadd total loss)).
Proof. done. Qed.

Lemma train_batches_return (cfg : config) (us ps ns : list nat) (batch_size : nat)
    (starts : list nat) (opt : optimizer) (m : LightGCN.t) (total : fval) :
  (0 <= cfg.(cfg_reg_lambda))%R ->
  length ps = length us -> length ns = length us ->
  Forall (fun u => u < U) us -> Forall (fun i => i < I) ps -> Forall (fun i => i < I) ns ->
  Forall (fun start => slice us start (start + batch_size) <> []) starts ->
  valid_model U I m -> not_negative total ->
  exists opt' m' total',
    for_each (train_batch optimizer optimizer_step cfg us ps ns batch_size) starts
      (opt, m, total) = Ok (opt', m', total') /\
    valid_model U I m' /\ not_negative total'.
Proof.
  intros Hlam Hlp Hln Hus Hps Hns Hstarts. revert opt m total.
  induction Hstarts as [|start starts Hne _ IH]; intros opt m total Hm Htot.
  - by exists opt, m, total.
  - cbn [for_each]. rewrite train_batch_eq.
    destruct Hm as (Hws & Hfin & HU & HI).
    destruct (bpr_loss_batch_returns cfg m
                (slice us start (start + batch_size))
                (slice ps start (start + batch_size))
                (slice ns start (start + batch_size)))
      as (loss & -> & Hloss); try done.
    + by apply length_slice_eq.
    + by apply length_slice_eq.
    + rewrite HU. by apply Forall_slice.
    + rewrite HI. by apply Forall_slice.
    + rewrite HI. by apply Forall_slice.
    + cbn [mbind result_bind].
      pose proof (optimizer_step_valid opt m
                    (slice us start (start + batch_size))
                    (slice ps start (start + batch_size))
                    (slice ns start (start + batch_size))
                    (conj Hws (conj Hfin (conj HU HI)))) as Hm'.
      destruct (optimizer_step _ _ _ _ _) as [opt' m']. cbn [snd] in Hm'.
      cbn [mbind result_bind]. apply IH; [done|by apply fadd_not_negative].
Qed.

Lemma train_one_epoch_ok (cfg : config) (st : train_state rng optimizer)
    (user_item_dict : gmap nat (gset nat)) (all_items : gset nat) (batch_size : nat) :
  (0 <= cfg.(cfg_reg_lambda))%R ->
  0 < batch_size ->
  valid_model U I st.(st_model rng optimizer) ->
  dict_in_range U I user_item_dict ->
  (forall i, i ∈ all_items -> i < I) ->
  exists st' loss,
    train_one_epoch rng random_shuffle random_choice np_random_permutation optimizer
      optimizer_step cfg st user_item_dict all_items batch_size
    = Ok (st', loss) /\
    not_negative loss /\ valid_model U I st'.(st_model rng optimizer).
Proof.
  intros Hlam Hbs Hm Hd Hall. unfold train_one_epoch.
  pose proof (random_shuffle_permutes st.(st_rng rng optimizer)
                (map_to_list user_item_dict).*1) as Hperm.
  destruct (random_shuffle _ _) as [g1 users]. cbn [snd] in Hperm.
  pose proof (sample_user_triplets_ok rng random_choice random_choice_member
                g1 user_item_dict all_items users) as Hs.
  destruct (sample_user_triplets _ _ _ _ _ _) as [g2 samples]. cbn [snd] in Hs.
  destruct Hs as [Husers Hgood].
  assert (Hkey : forall s, s ∈ samples ->
            s.1.1 < U /\ s.1.2 < I /\ s.2 < I).
  { intros s Hs. rewrite Forall_forall in Hgood.
    destruct (Hgood s Hs) as (Hpos & Hneg & _).
    assert (Hu : s.1.1 ∈ users).
    { assert (H' : s.1.1 ∈ (fun s => s.1.1) <$> samples)
        by (apply list_elem_of_fmap; by exists s).
      rewrite Husers in H'. by apply list_elem_of_filter in H' as [_ ?]. }
    rewrite Hperm in Hu. apply list_elem_of_fmap in Hu as ([u items] & Heq & Hin).
    apply elem_of_map_to_list in Hin. cbn in Heq. rewrite Heq, Hin in Hpos.
    cbn in Hpos. destruct (Hd u items Hin) as [Hlt Hitems].
    rewrite Heq. repeat split; [done|by apply Hitems|by apply Hall]. }
  set (a := (fun s : nat * nat * nat => s.1.1) <$> samples).
  set (b := (fun s : nat * nat * nat => s.1.2) <$> samples).
  set (c := (fun s : nat * nat * nat => s.2) <$> samples).
  assert (Hab : length a = length b) by (subst a b; by rewrite !length_fmap).
  assert (Hbc : length b = length c) by (subst b c; by rewrite !length_fmap).
  assert (Ha : Forall (fun u => u < U) a).
  { subst a. apply Forall_fmap, Forall_forall. intros s Hs. by apply Hkey. }
  assert (Hb : Forall (fun i => i < I) b).
  { subst b. apply Forall_fmap, Forall_forall. intros s Hs. by apply Hkey. }
  assert (Hc : Forall (fun i => i < I) c).
  { subst c. apply Forall_fmap, Forall_forall. intros s Hs. by apply Hkey. }
  pose proof (np_random_permutation_valid g2 (length a)) as Hidx.
  rewrite (shuffle_valid_permutation rng np_random_permutation g2 a b c Hidx Hab Hbc).
  destruct (np_random_permutation g2 (length a)) as [g3 idx]. cbn [fst snd] in *.
  assert (Hin : Forall (fun i => i < length a) idx).
  { apply Forall_forall. intros i Hi. rewrite Hidx in Hi.
    apply elem_of_seq in Hi. lia. }
  cbn [mbind result_bind].
  unfold num_batches_of. rewrite decide_False by lia. cbn [mbind result_bind].
  destruct (range_step _ batch_size) as [starts|e] eqn:Hstarts.
  2:{ unfold range_step in Hstarts. rewrite decide_False in Hstarts by lia. done. }
  cbn [mbind result_bind].
  destruct (train_batches_return cfg
              ((fun i => default 0 (a !! i)) <$> idx)
              ((fun i => default 0 (b !! i)) <$> idx)
              ((fun i => default 0 (c !! i)) <$> idx)
              batch_size starts st.(st_optimizer rng optimizer)
              st.(st_model rng optimizer) (Num 0))
    as (opt' & m' & total' & -> & Hm' & Htot'); try done.
  - by rewrite !length_fmap.
  - by rewrite !length_fmap.
  - by apply Forall_fmap_lookup.
  - apply Forall_fmap_lookup; [done|by rewrite <- Hab].
  - apply Forall_fmap_lookup; [done|by rewrite <- Hbc, <- Hab].
  - by apply batch_slices_nonempty.
  - cbn. lra.
  - cbn [mbind result_bind]. do 2 eexists. split; [done|]. cbn [st_model].
    split; [|done]. apply fdiv_count_not_negative; [done|lia].
Qed.

(** X14.  With random sources that permute and pick members, an optimizer that
    keeps the model well-shaped and its parameters finite, a non-negative
    regularization weight and an in-range interaction dictionary,
    [train_one_epoch] returns for every positive batch size: the average
    loss is not below zero (a non-negative number, [+inf] or [nan]) and the
    model is still as the optimizer keeps it.  With batch size 0 it raises
    [ZeroDivisionError]. *)
Theorem train_one_epoch_spec (cfg : config) (st : train_state rng optimizer)
    (user_item_dict : gmap nat (gset nat)) (all_items : gset nat) (batch_size : nat) :
  (0 <= cfg.(cfg_reg_lambda))%R ->
  valid_model U I st.(st_model rng optimizer) ->
  dict_in_range U I user_item_dict ->
  (forall i, i ∈ all_items -> i < I) ->
  (0 < batch_size ->
   exists st' loss,
     train_one_epoch rng random_shuffle random_choice np_random_permutation optimizer
       optimizer_step cfg st user_item_dict all_items batch_size
     = Ok (st', loss) /\
     not_negative loss /\ valid_model U I st'.(st_model rng optimizer)) /\
  (batch_size = 0 ->
   train_one_epoch rng random_shuffle random_choice np_random_permutation optimizer
     optimizer_step cfg st user_item_dict all_items batch_size
   = Raise ZeroDivisionError).
Proof.
  intros Hlam Hm Hd Hall. split.
  - intros Hbs. by apply train_one_epoch_ok.
  - intros ->. apply train_one_epoch_zero.
Qed.

End EpochFacts.

Lemma two_users_in_range : dict_in_range 2 2 two_users.
Proof.
  intros u items Hu. unfold two_users in Hu.
  apply lookup_insert_Some in Hu as [[<- <-]|[_ Hu]].
  - split; [lia|]. intros i Hi. apply elem_of_singleton in Hi. lia.
  - apply lookup_singleton_Some in Hu as [<- <-].
    split; [lia|]. intros i Hi. apply elem_of_singleton in Hi. lia.
Qed.

Lemma small_model_valid : valid_model 2 2 small_model.
Proof.
  split; [exact small_model_well_shaped|]. split; [|done].
  split; [by repeat constructor|]. split; [by repeat constructor|].
  apply norm_adj_finite.
Qed.

Lemma train_one_epoch_spec_witness :
  (0 < 1 ->
   exists st' loss,
     train_one_epoch unit no_shuffle first_choice identity_permutation unit no_update
       notebook_config (mk_state unit unit tt tt small_model) two_users two_items 1
     = Ok (st', loss) /\
     not_negative loss /\ valid_model 2 2 st'.(st_model unit unit)) /\
  (1 = 0 ->
   train_one_epoch unit no_shuffle first_choice identity_permutation unit no_update
     notebook_config (mk_state unit unit tt tt small_model) two_users two_items 1
   = Raise ZeroDivisionError).
Proof.
  apply (train_one_epoch_spec unit no_shuffle first_choice identity_permutation
           unit no_update).
  - intros g n. reflexivity.
  - intros g l. reflexivity.
  - exact first_choice_member.
  - intros opt m users pos neg Hm. exact Hm.
  - cbn. lra.
  - exact small_model_valid.
  - exact two_users_in_range.
  - intros i Hi. unfold two_items in Hi. apply elem_of_set_seq in Hi. lia.
Defined.

(** ** Nodes without interactions *)

Lemma norm_adj_at_pos_nonempty (U I : nat) (pairs : list (nat * nat))
    (e : nat * nat * fval) :
  in_range U I pairs -> e ∈ (norm_adj_of U I pairs).(entries) ->
  multiplicity U pairs e.1.1 e.1.2 <> 0.
Proof.
  intros Hr He Hm.
  pose proof (norm_values U I pairs e.1.1 e.1.2 Hr) as Hv.
  rewrite Hm in Hv. cbn [replicate] in Hv. apply fmap_nil_inv in Hv.
  assert (Hin : e ∈ filter (at_pos e.1.1 e.1.2) (norm_adj_of U I pairs).(entries))
    by (apply list_elem_of_filter; done).
  rewrite Hv in Hin. by apply not_elem_of_nil in Hin.
Qed.

Lemma norm_adj_isolated_row (U I : nat) (pairs : list (nat * nat)) (a : nat) :
  in_range U I pairs -> degree U pairs a = 0 ->
  filter (fun e : nat * nat * fval => e.1.1 = a) (norm_adj_of U I pairs).(entries) = [].
Proof.
  intros Hr Hdeg.
  destruct (filter _ _) as [|e l] eqn:Hf; [done|]. exfalso.
  assert (He : e ∈ filter (fun e : nat * nat * fval => e.1.1 = a)
                 (norm_adj_of U I pairs).(entries)) by (rewrite Hf; left).
  apply list_elem_of_filter in He as [Ha He].
  apply (norm_adj_at_pos_nonempty U I pairs e Hr He). rewrite Ha.
  by destruct (degree_zero_multiplicity U pairs a e.1.2 Hdeg).
Qed.

Lemma norm_adj_coordinates (U I : nat) (pairs : list (nat * nat)) :
  in_range U I pairs ->
  Forall (fun e : nat * nat * fval => e.1.1 < U + I /\ e.1.2 < U + I)
    (norm_adj_of U I pairs).(entries).
Proof.
  intros Hr. apply Forall_forall. intros e He.
  pose proof (norm_adj_at_pos_nonempty U I pairs e Hr He) as Hm.
  destruct (decide (e.1.1 < U + I /\ e.1.2 < U + I)) as [|Hno]; [done|].
  by rewrite (multiplicity_out_of_range U I) in Hm.
Qed.

Lemma length_foldl_vadd (l : list (list fval)) (acc : list fval) (d : nat) :
  length acc = d -> Forall (fun v => length v = d) l -> length (foldl vadd acc l) = d.
Proof.
  revert acc. induction l as [|v l IH]; intros acc Hacc Hl; [done|].
  inversion Hl; subst. cbn [foldl]. apply IH; [|done].
  unfold vadd. rewrite length_zip_with. lia.
Qed.

Lemma sparse_mm_rectangular (adj : coo) (x : matrix) (d : nat) :
  rectangular d x -> x <> [] ->
  Forall (fun e : nat * nat * fval => e.1.2 < length x) adj.(entries) ->
  rectangular d (sparse_mm adj x) /\ length (sparse_mm adj x) = adj.(shape).1.
Proof.
  intros Hx Hne Hcols. unfold sparse_mm. split; [|by rewrite length_fmap, length_seq].
  assert (Hd : length (default [] (x !! 0)) = d).
  { destruct x as [|r x]; [done|]. by inversion Hx. }
  apply Forall_fmap, Forall_forall. intros i _. cbn.
  apply length_foldl_vadd; [by rewrite Hd; apply length_replicate|].
  apply Forall_fmap. apply Forall_forall. intros e He.
  apply list_elem_of_filter in He as [_ He]. cbn.
  rewrite Forall_forall in Hcols. specialize (Hcols e He).
  destruct (lookup_lt_is_Some_2 x e.1.2 Hcols) as [r Hr]. rewrite Hr. cbn.
  unfold scale_row. rewrite length_fmap.
  unfold rectangular in Hx. by eapply Forall_lookup_1 in Hx.
Qed.

Lemma sparse_mm_empty_row (adj : coo) (x : matrix) (d a : nat) :
  rectangular d x -> x <> [] -> a < adj.(shape).1 ->
  filter (fun e : nat * nat * fval => e.1.1 = a) adj.(entries) = [] ->
  sparse_mm adj x !! a = Some (zeros d).
Proof.
  intros Hx Hne Ha Hrow. unfold sparse_mm.
  rewrite list_lookup_fmap, lookup_seq_lt by done. cbn. rewrite Hrow. cbn.
  destruct x as [|r x]; [done|]. inversion Hx; subst. done.
Qed.

Lemma message_passing_isolated (adj : coo) (x : matrix) (d a L : nat) :
  rectangular d x -> x <> [] -> adj.(shape).1 = length x ->
  Forall (fun e : nat * nat * fval => e.1.2 < length x) adj.(entries) ->
  a < length x ->
  filter (fun e : nat * nat * fval => e.1.1 = a) adj.(entries) = [] ->
  (fun t : matrix => default [] (t !! a)) <$> LightGCN.message_passing adj x L
  = replicate L (zeros d).
Proof.
  revert x. induction L as [|L IH]; intros x Hx Hne Hshape Hcols Ha Hrow; [done|].
  cbn [LightGCN.message_passing]. cbv zeta. rewrite fmap_cons.
  destruct (sparse_mm_rectangular adj x d Hx Hne Hcols) as [Hx' Hlen].
  rewrite (sparse_mm_empty_row adj x d a) by (done || lia). cbn [default replicate].
  assert (Hne' : sparse_mm adj x <> []).
  { intros Hnil. rewrite Hnil in Hlen. cbn in Hlen. destruct x; [done|]. simpl in *. lia. }
  f_equal. apply IH.
  - done.
  - done.
  - by rewrite Hlen.
  - by rewrite Hlen, Hshape.
  - by rewrite Hlen, Hshape.
  - done.
Qed.

Lemma fadd_zero_r (x : fval) : fadd x (Num 0) = x.
Proof. destruct x; try done. cbn. f_equal. lra. Qed.

Lemma vadd_zeros (v : list fval) : vadd v (zeros (length v)) = v.
Proof.
  induction v as [|x v IH]; [done|]. cbn. unfold vadd, zeros in IH.
  by rewrite fadd_zero_r, IH.
Qed.

Lemma foldl_vadd_zeros (v : list fval) (L : nat) :
  foldl vadd v (replicate L (zeros (length v))) = v.
Proof. induction L as [|L IH]; [done|]. cbn [replicate foldl]. by rewrite vadd_zeros. Qed.

Lemma length_message_passing adj x L : length (LightGCN.message_passing adj x L) = L.
Proof. revert x. induction L as [|L IH]; intros x; [done|]. cbn. by rewrite IH. Qed.

Lemma light_out_isolated (adj : coo) (x : matrix) (d a L : nat) (row : list fval) :
  rectangular d x -> adj.(shape).1 = length x ->
  Forall (fun e : nat * nat * fval => e.1.2 < length x) adj.(entries) ->
  x !! a = Some row ->
  filter (fun e : nat * nat * fval => e.1.1 = a) adj.(entries) = [] ->
  mean_dim1 (stack_dim1 (x :: LightGCN.message_passing adj x L)) !! a
  = Some (vdiv_count row (L + 1)).
Proof.
  intros Hx Hshape Hcols Hrow Hfil.
  assert (Ha : a < length x) by (by eapply lookup_lt_Some).
  assert (Hne : x <> []) by (intros ->; simpl in Ha; lia).
  unfold mean_dim1, stack_dim1. rewrite !list_lookup_fmap, lookup_seq_lt by done.
  cbn [fmap option_fmap option_map Nat.add]. rewrite fmap_cons, Hrow. cbn [default].
  rewrite (message_passing_isolated adj x d a L) by done.
  cbn [sum_slices]. rewrite length_cons, length_replicate.
  assert (Hd : length row = d) by (by eapply Forall_lookup_1 in Hx).
  rewrite <- Hd, foldl_vadd_zeros. do 2 f_equal. lia.
Qed.

(** X15.  A user or an item without any interaction receives no message: its
    propagated embedding is its initial embedding divided by
    [num_layers + 1], since every propagated layer contributes a zero row to
    the mean. *)
Theorem isolated_node_keeps_initial_embedding
    (U I d L : nat) (user_weight item_weight : matrix) (pairs : list (nat * nat)) :
  in_range U I pairs ->
  length user_weight = U -> length item_weight = I ->
  rectangular d (user_weight ++ item_weight) ->
  exists self,
    LightGCN.__init__ U I d L user_weight item_weight pairs = Ok self /\
    (forall u, degree U pairs u = 0 ->
       (LightGCN.getEmbedding self).1 !! u
       = (fun row => vdiv_count row (L + 1)) <$> user_weight !! u) /\
    (forall i, degree U pairs (i + U) = 0 ->
       (LightGCN.getEmbedding self).2 !! i
       = (fun row => vdiv_count row (L + 1)) <$> item_weight !! i).
Proof.
  intros Hr HU HI Hrect. unfold LightGCN.__init__.
  rewrite (build_adj_matrix_ok U I pairs Hr). cbn [mbind result_bind].
  eexists. split; [done|].
  unfold LightGCN.getEmbedding.
  cbn [LightGCN.user_embedding LightGCN.item_embedding LightGCN.norm_adj
       LightGCN.num_layers LightGCN.num_users fst snd].
  set (x := cat user_weight item_weight).
  assert (Hlen : length x = U + I) by (subst x; unfold cat; rewrite length_app; lia).
  assert (Hout : length (mean_dim1 (stack_dim1
                   (x :: LightGCN.message_passing (norm_adj_of U I pairs) x L))) = U + I).
  { by rewrite length_mean_dim1_stack_dim1. }
  assert (Hiso : forall a row, degree U pairs a = 0 -> x !! a = Some row ->
            mean_dim1 (stack_dim1
              (x :: LightGCN.message_passing (norm_adj_of U I pairs) x L)) !! a
            = Some (vdiv_count row (L + 1))).
  { intros a row Hdeg Hrow. apply (light_out_isolated _ x d).
    - exact Hrect.
    - rewrite Hlen. reflexivity.
    - rewrite Hlen. eapply Forall_impl; [by apply norm_adj_coordinates|].
      by intros e [_ ?].
    - exact Hrow.
    - by apply norm_adj_isolated_row. }
  split.
  - intros u Hdeg. destruct (decide (u < U)) as [Hu|Hu].
    + rewrite lookup_take_lt by done.
      destruct (lookup_lt_is_Some_2 user_weight u) as [row Hrow]; [lia|].
      rewrite Hrow. cbn. apply Hiso; [done|].
      subst x. unfold cat. by rewrite lookup_app_l by lia.
    + rewrite lookup_take_ge by lia.
      by rewrite (lookup_ge_None_2 user_weight) by lia.
  - intros i Hdeg. rewrite lookup_drop.
    destruct (decide (i < I)) as [Hi|Hi].
    + destruct (lookup_lt_is_Some_2 item_weight i) as [row Hrow]; [lia|].
      rewrite Hrow. cbn. rewrite Nat.add_comm. apply Hiso; [done|].
      subst x. unfold cat. rewrite lookup_app_r by lia.
      by replace (i + U - length user_weight) with i by lia.
    + rewrite (lookup_ge_None_2 item_weight) by lia.
      cbn [fmap option_fmap option_map]. apply lookup_ge_None_2. rewrite Hout. lia.
Qed.

Lemma isolated_node_keeps_initial_embedding_witness :
  exists self,
    LightGCN.__init__ 1 2 1 3 [[Num 1]] [[Num 1]; [Num 2]] [(0, 0)] = Ok self /\
    (forall u, degree 1 [(0, 0)] u = 0 ->
       (LightGCN.getEmbedding self).1 !! u
       = (fun row => vdiv_count row (3 + 1)) <$> [[Num 1]] !! u) /\
    (forall i, degree 1 [(0, 0)] (i + 1) = 0 ->
       (LightGCN.getEmbedding self).2 !! i
       = (fun row => vdiv_count row (3 + 1)) <$> [[Num 1]; [Num 2]] !! i).
Proof.
  apply isolated_node_keeps_initial_embedding.
  - unfold in_range. repeat constructor.
  - reflexivity.
  - reflexivity.
  - unfold rectangular. repeat constructor.
Defined.

(** ** The evaluator on well-formed input *)

Lemma forward_as_getEmbedding (self : LightGCN.t) :
  well_shaped self -> LightGCN.forward self = LightGCN.getEmbedding self.
Proof.
  intros (HU & HI & Hshape).
  unfold LightGCN.getEmbedding, LightGCN.forward.
  rewrite mean_stack_dim1_dim0; [done|].
  eapply Forall_impl; [apply message_passing_rows|].
  intros m Hm. simpl in Hm. rewrite Hm, Hshape. unfold cat.
  rewrite length_app. simpl. lia.
Qed.

Lemma rsum_unit_bounds (xs : list R) :
  Forall (fun x => 0 <= x <= 1)%R xs -> (0 <= rsum xs <= INR (length xs))%R.
Proof.
  induction 1 as [|x xs Hx _ IH].
  - unfold rsum. simpl. lra.
  - rewrite rsum_cons. cbn [length]. rewrite S_INR. lra.
Qed.

Lemma np_mean_in_unit (xs : list R) :
  xs <> [] -> Forall (fun x => 0 <= x <= 1)%R xs -> in_unit (np_mean xs).
Proof.
  intros Hne Hxs. unfold np_mean, fmean, fsum. rewrite foldl_fadd_Num, length_fmap.
  fold (rsum xs). pose proof (rsum_unit_bounds xs Hxs) as Hb.
  destruct xs as [|x xs]; [done|]. cbn [length fdiv_count in_unit] in *.
  assert (Hpos : (0 < INR (S (length xs)))%R) by (apply lt_0_INR; lia).
  split.
  - apply Rmult_le_pos; [lra|]. apply Rlt_le. by apply Rinv_0_lt_compat.
  - apply (Rmult_le_reg_r (INR (S (length xs)))); [done|].
    unfold Rdiv. rewrite Rmult_assoc, Rinv_l by lra. lra.
Qed.

Lemma dict_get_found (d : list (nat * list nat)) (P : nat * list nat -> Prop) (u : nat) :
  Forall P d -> u ∈ dict_keys d -> P (u, dict_get d u).
Proof.
  intros Hd Hu. unfold dict_get.
  destruct (list_find (fun kv => kv.1 = u) d) as [[i kv]|] eqn:Hf.
  - apply list_find_Some in Hf as (Hi & Hkv & _). cbn.
    rewrite Forall_forall in Hd. specialize (Hd kv (list_elem_of_lookup_2 _ _ _ Hi)).
    destruct kv as [u' items]. cbn in *. by subst.
  - exfalso. apply list_find_None in Hf. unfold dict_keys in Hu.
    apply list_elem_of_fmap in Hu as (kv & -> & Hin).
    rewrite Forall_forall in Hf. by apply (Hf kv Hin).
Qed.

Lemma lookup_NoDup_fmap (l : list nat) (idx : list nat) :
  NoDup l -> NoDup idx -> Forall (fun i => i < length l) idx ->
  NoDup ((fun i => default 0 (l !! i)) <$> idx).
Proof.
  intros Hl Hidx Hin. apply NoDup_fmap_2_strong; [|done].
  intros i j Hi Hj Heq. rewrite Forall_forall in Hin.
  destruct (lookup_lt_is_Some_2 l i (Hin i Hi)) as [x Hx].
  destruct (lookup_lt_is_Some_2 l j (Hin j Hj)) as [y Hy].
  rewrite Hx, Hy in Heq. cbn in Heq. subst y.
  exact (NoDup_lookup l i j x Hl Hx Hy).
Qed.

Section EvaluatorTotal.

Variable topk : list fval -> nat -> result (list nat).
Hypothesis topk_is_valid : topk_valid topk.

Variables U I k : nat.
Variable model : LightGCN.t.
Variable test_ground_truth : list (nat * list nat).
Variable user_item_dict : gmap nat (gset nat).

Hypothesis model_valid : valid_model U I model.
Hypothesis k_pos : 0 < k.
Hypothesis entries_evaluable : Forall (evaluable U I k user_item_dict) test_ground_truth.

Lemma evaluate_one_returns (user : nat) (rl pl nl : list R) :
  user ∈ dict_keys test_ground_truth ->
  exists r p n,
    evaluate_one topk model (LightGCN.forward model).1 (LightGCN.forward model).2
      test_ground_truth user_item_dict k (rl, pl, nl) user
    = Ok (rl ++ [r], pl ++ [p], nl ++ [n]) /\
    (0 <= r <= 1)%R /\ (0 <= p <= 1)%R /\ (0 <= n <= 1)%R.
Proof.
  intros Hu.
  destruct model_valid as (Hws & Hfin & HU & HI).
  rewrite (forward_as_getEmbedding model Hws).
  destruct Hws as (HlU0 & HlI0 & _).
  destruct (getEmbedding_lengths model HlU0) as [HlU HlI].
  destruct (LightGCN.getEmbedding model) as [user_emb item_emb]. cbn [fst snd] in *.
  pose proof (dict_get_found test_ground_truth _ user entries_evaluable Hu)
    as (Hlt & Hne & Hgt & Hk). cbn [fst snd] in *.
  rewrite evaluate_one_eq.
  destruct (lookup_lt_is_Some_2 user_emb user) as [u_emb Hue]; [lia|].
  rewrite (index_Some _ _ _ Hue). cbn [mbind result_bind].
  unfold evaluate_user. rewrite HI.
  set (cset := candidate_set I (default ∅ (user_item_dict !! user))
                 (dict_get test_ground_truth user)) in *.
  rewrite (index_Some [u_emb] 0 u_emb) by done. cbn [mbind result_bind].
  assert (Hcand : Forall (fun i => i < length item_emb) (elements cset)).
  { apply Forall_forall. intros i Hi. apply elem_of_elements in Hi.
    unfold cset, candidate_set in Hi.
    apply elem_of_union in Hi as [Hi|Hi].
    - apply elem_of_difference in Hi as [Hi _]. apply elem_of_set_seq in Hi. lia.
    - apply elem_of_list_to_set in Hi. rewrite Forall_forall in Hgt.
      specialize (Hgt i Hi). lia. }
  destruct (gather_in_range item_emb (elements cset) Hcand) as (cand_emb & -> & Hlen & _).
  cbn [mbind result_bind].
  destruct (topk_is_valid (dot u_emb <$> cand_emb) k) as (top & -> & Hltop & Hnd & Htop).
  { rewrite length_fmap, Hlen. done. }
  cbn [mbind result_bind].
  rewrite length_fmap, Hlen in Htop.
  change (map_result (index (elements cset)) top) with (gather (elements cset) top).
  rewrite (gather_fmap_lookup (elements cset) top Htop). cbn [mbind result_bind].
  set (ranked := (fun i => default 0 (elements cset !! i)) <$> top).
  destruct (recall_at_k_in_unit ranked (dict_get test_ground_truth user) k Hne)
    as (r & -> & Hr).
  destruct (precision_at_k_in_unit ranked (dict_get test_ground_truth user) k k_pos)
    as (p & -> & Hp).
  cbn [mbind result_bind].
  exists r, p, (ndcg_at_k ranked (dict_get test_ground_truth user) k).
  split; [done|]. repeat split; try apply Hr; try apply Hp;
    apply ndcg_at_k_in_unit, lookup_NoDup_fmap; try done; apply NoDup_elements.
Qed.

Lemma evaluate_users_return (users : list nat) (rl pl nl : list R) :
  Forall (fun u => u ∈ dict_keys test_ground_truth) users ->
  exists rl' pl' nl',
    for_each
      (evaluate_one topk model (LightGCN.forward model).1 (LightGCN.forward model).2
         test_ground_truth user_item_dict k)
      users (rl, pl, nl)
    = Ok (rl ++ rl', pl ++ pl', nl ++ nl') /\
    length rl' = length users /\ length pl' = length users /\ length nl' = length users /\
    Forall (fun x => 0 <= x <= 1)%R rl' /\
    Forall (fun x => 0 <= x <= 1)%R pl' /\
    Forall (fun x => 0 <= x <= 1)%R nl'.
Proof.
  intros Husers. revert rl pl nl.
  induction Husers as [|u users Hu _ IH]; intros rl pl nl.
  - exists [], [], []. by rewrite !app_nil_r.
  - cbn [for_each].
    destruct (evaluate_one_returns u rl pl nl Hu) as (r & p & n & -> & Hr & Hp & Hn).
    cbn [mbind result_bind].
    destruct (IH (rl ++ [r]) (pl ++ [p]) (nl ++ [n]))
      as (rl' & pl' & nl' & -> & Hlr & Hlp & Hln & Hfr & Hfp & Hfn).
    exists (r :: rl'), (p :: pl'), (n :: nl').
    rewrite <- !app_assoc. cbn [app length].
    repeat split; try done; try lia; by constructor.
Qed.

Lemma evaluate_model_returns (batch_size : nat) :
  0 < batch_size ->
  exists rl pl nl,
    evaluate_model topk model test_ground_truth user_item_dict k batch_size
    = Ok (np_mean rl, np_mean pl, np_mean nl) /\
    length rl = length test_ground_truth /\
    length pl = length test_ground_truth /\
    length nl = length test_ground_truth /\
    Forall (fun x => 0 <= x <= 1)%R rl /\
    Forall (fun x => 0 <= x <= 1)%R pl /\
    Forall (fun x => 0 <= x <= 1)%R nl.
Proof.
  intros Hbs.
  destruct (evaluate_users_return (dict_keys test_ground_truth) [] [] [])
    as (rl & pl & nl & Hloop & Hlr & Hlp & Hln & Hfr & Hfp & Hfn).
  { by apply Forall_forall. }
  exists rl, pl, nl. unfold dict_keys in Hlr, Hlp, Hln. rewrite length_fmap in Hlr, Hlp, Hln.
  split; [|done].
  apply evaluate_model_iff; [done|]. eexists. split; [exact Hloop|done].
Qed.

End EvaluatorTotal.

(** X16.  With a top-k that returns [k] distinct positions, a well-shaped finite
    model, [k > 0] and held-out entries that name a known user, a non-empty
    list of known items and leave at least [k] candidates, [evaluate_model]
    returns for every positive batch size; recall, precision and NDCG each
    lie in [0, 1] when there is a test user, and are [nan] when there is
    none.  With batch size 0 it raises [ValueError]. *)
Theorem evaluate_model_spec (topk : list fval -> nat -> result (list nat))
    (U I k : nat) (model : LightGCN.t) (test_ground_truth : list (nat * list nat))
    (user_item_dict : gmap nat (gset nat)) (batch_size : nat) :
  topk_valid topk ->
  valid_model U I model ->
  0 < k ->
  Forall (evaluable U I k user_item_dict) test_ground_truth ->
  (0 < batch_size -> test_ground_truth <> [] ->
   exists recall precision ndcg,
     evaluate_model topk model test_ground_truth user_item_dict k batch_size
     = Ok (recall, precision, ndcg) /\
     in_unit recall /\ in_unit precision /\ in_unit ndcg) /\
  (0 < batch_size -> test_ground_truth = [] ->
   evaluate_model topk model test_ground_truth user_item_dict k batch_size
   = Ok (NaN, NaN, NaN)) /\
  (batch_size = 0 ->
   evaluate_model topk model test_ground_truth user_item_dict k batch_size
   = Raise ValueError).
Proof.
  intros Htopk Hm Hk Hgt. split; [|split].
  - intros Hbs Hne.
    destruct (evaluate_model_returns topk Htopk U I k model test_ground_truth
                user_item_dict Hm Hk Hgt batch_size Hbs)
      as (rl & pl & nl & -> & Hlr & Hlp & Hln & Hfr & Hfp & Hfn).
    do 3 eexists. split; [done|].
    assert (Hpos : 0 < length test_ground_truth)
      by (destruct test_ground_truth; [done|simpl; lia]).
    repeat split; apply np_mean_in_unit; try done; intros ->; simpl in *; lia.
  - intros Hbs ->.
    destruct (evaluate_model_returns topk Htopk U I k model [] user_item_dict Hm Hk Hgt
                batch_size Hbs)
      as (rl & pl & nl & -> & Hlr & Hlp & Hln & _).
    apply nil_length_inv in Hlr, Hlp, Hln. subst.
    unfold np_mean. cbn [fmap list_fmap]. by rewrite np_mean_empty_nan.
  - intros ->. unfold evaluate_model.
    destruct (LightGCN.forward model) as [user_emb item_emb].
    unfold range_step. by rewrite decide_True.
Qed.

(** ** The data-loading cell *)

(** The interactions a file lists: line [user] contributes one pair per
    integer after the first. *)
Lemma add_items_as_pairs (d : gmap nat (gset nat)) (user : nat) (items : list nat) :
  add_items d user items
  = foldl (fun d '(u, i) => <[u := default ∅ (d !! u) ∪ {[i]}]> d) d
      ((fun item => (user, item)) <$> drop 1 items).
Proof. unfold add_items. by rewrite foldl_fmap. Qed.

Lemma load_train_from_as_pairs (d : gmap nat (gset nat)) (l : list (nat * list nat)) :
  foldl (fun d '(user, items) => add_items d user items) d l
  = foldl (fun d '(u, i) => <[u := default ∅ (d !! u) ∪ {[i]}]> d) d
      ('(user, items) ← l; (fun item => (user, item)) <$> drop 1 items).
Proof.
  revert d. induction l as [|[user items] l IH]; intros d; [done|].
  cbn [foldl]. rewrite bind_cons, foldl_app, IH. by rewrite add_items_as_pairs.
Qed.

Lemma load_train_as_rebuild (lines : list (list nat)) :
  load_train lines
  = rebuild_user_item_dict
      ('(user, items) ← imap (fun user line => (user, line)) lines;
       (fun item => (user, item)) <$> drop 1 items).
Proof. unfold load_train, rebuild_user_item_dict. apply load_train_from_as_pairs. Qed.

Lemma elem_of_file_pairs (lines : list (list nat)) (u i : nat) :
  (u, i) ∈ ('(user, items) ← imap (fun user line => (user, line)) lines;
            (fun item => (user, item)) <$> drop 1 items)
  <-> exists line, lines !! u = Some line /\ i ∈ drop 1 line.
Proof.
  rewrite list_elem_of_bind. split.
  - intros ([user items] & Hin & Himap).
    apply elem_of_lookup_imap in Himap as (j & line & [= -> ->] & Hl).
    apply list_elem_of_fmap in Hin as (item & [= -> ->] & Hitem).
    by exists line.
  - intros (line & Hl & Hi). exists (u, line). split.
    + apply list_elem_of_fmap. by exists i.
    + apply elem_of_lookup_imap. by exists u, line.
Qed.

Lemma load_train_elem (lines : list (list nat)) (u i : nat) :
  i ∈ default ∅ (load_train lines !! u)
  <-> exists line, lines !! u = Some line /\ i ∈ drop 1 line.
Proof.
  rewrite load_train_as_rebuild. unfold rebuild_user_item_dict.
  rewrite rebuild_step_lookup, lookup_empty, elem_of_file_pairs. cbn.
  rewrite elem_of_empty. tauto.
Qed.

Lemma load_train_key (lines : list (list nat)) (u : nat) :
  is_Some (load_train lines !! u)
  <-> exists line, lines !! u = Some line /\ 2 <= length line.
Proof.
  rewrite load_train_as_rebuild. unfold rebuild_user_item_dict.
  rewrite rebuild_step_keys, lookup_empty. split.
  - intros [[? [=]]|Hu]. apply list_elem_of_fmap in Hu as ([u' i] & -> & Hin).
    apply elem_of_file_pairs in Hin as (line & Hl & Hi). exists line. split; [done|].
    cbn. destruct line as [|x [|y line]]; cbn in *; try lia;
      by apply elem_of_nil in Hi.
  - intros (line & Hl & Hlen). right.
    destruct line as [|x [|y line]]; cbn in Hlen; try lia.
    apply list_elem_of_fmap. exists (u, y). split; [done|].
    apply elem_of_file_pairs. exists (x :: y :: line). split; [done|]. cbn. left.
Qed.

Lemma load_train_nonempty (lines : list (list nat)) (u : nat) (items : gset nat) :
  load_train lines !! u = Some items -> items <> ∅.
Proof.
  intros Hu Hempty.
  destruct (proj1 (load_train_key lines u)) as (line & Hl & Hlen); [by eexists|].
  destruct line as [|x [|y line]]; cbn in Hlen; try lia.
  assert (Hy : y ∈ default ∅ (load_train lines !! u)).
  { apply load_train_elem. exists (x :: y :: line). split; [done|]. cbn. left. }
  rewrite Hu, Hempty in Hy. cbn in Hy. by apply elem_of_empty in Hy.
Qed.

(** X17.  The dictionary loaded from the training lines has the key [u] exactly
    when line [u] holds at least two integers, maps [u] to the integers
    after the first one of line [u], and stores no empty set. *)
Theorem load_train_spec (lines : list (list nat)) (u : nat) :
  (is_Some (load_train lines !! u)
   <-> exists line, lines !! u = Some line /\ 2 <= length line) /\
  (forall i, i ∈ default ∅ (load_train lines !! u)
             <-> exists line, lines !! u = Some line /\ i ∈ drop 1 line) /\
  (forall items, load_train lines !! u = Some items -> items <> ∅).
Proof.
  split; [apply load_train_key|]. split; [intros i; apply load_train_elem|].
  intros items. apply load_train_nonempty.
Qed.

(** ** The ground truth *)

Lemma elem_of_load_test (lines : list (list nat)) (u : nat) (items : list nat) :
  (u, items) ∈ load_test lines
  <-> exists line, lines !! u = Some line /\ 2 <= length line /\ items = drop 1 line.
Proof.
  unfold load_test. rewrite list_elem_of_bind. split.
  - intros ([user parts] & Hin & Himap).
    apply elem_of_lookup_imap in Himap as (j & line & [= -> ->] & Hl).
    case_decide as Hlen; [by apply elem_of_nil in Hin|].
    apply list_elem_of_singleton in Hin as [= -> ->]. exists line.
    repeat split; [done|lia].
  - intros (line & Hl & Hlen & ->). exists (u, line). split.
    + rewrite decide_False by lia. by apply list_elem_of_singleton.
    + apply elem_of_lookup_imap. by exists u, line.
Qed.

Lemma NoDup_load_test_keys (lines : list (list nat)) : NoDup (dict_keys (load_test lines)).
Proof.
  unfold dict_keys, load_test.
  assert (Hgen : forall s,
            NoDup ('(user, parts) ← imap (fun user line => (s + user, line)) lines;
                   if decide (length parts < 2) then []
                   else [(user, drop 1 parts)]).*1 /\
            Forall (fun u => s <= u)
                   ('(user, parts) ← imap (fun user line => (s + user, line)) lines;
                    if decide (length parts < 2) then []
                    else [(user, drop 1 parts)]).*1).
  { induction lines as [|line lines IH]; intros s; [split; constructor|].
    rewrite imap_cons, bind_cons, fmap_app.
    rewrite (imap_ext _ (fun user line => (S s + user, line)))
      by (intros; cbn; f_equal; lia).
    destruct (IH (S s)) as [Hnd Hge]. split.
    - apply NoDup_app. split; [|split; [|done]].
      + case_decide; cbn; [constructor|]. apply NoDup_singleton.
      + intros u Hu Hu'. rewrite Forall_forall in Hge. specialize (Hge u Hu').
        case_decide; cbn in Hu; [by apply elem_of_nil in Hu|].
        apply list_elem_of_singleton in Hu. lia.
    - apply Forall_app. split.
      + case_decide; cbn; [constructor|]. repeat constructor. lia.
      + eapply Forall_impl; [exact Hge|]. intros; cbn in *; lia. }
  destruct (Hgen 0) as [Hnd _].
  by rewrite (imap_ext _ (fun user line => (user, line))) in Hnd by done.
Qed.

Lemma dict_get_NoDup (d : list (nat * list nat)) (u : nat) (items : list nat) :
  NoDup (dict_keys d) -> (u, items) ∈ d -> dict_get d u = items.
Proof.
  unfold dict_keys, dict_get. intros Hnd Hin.
  destruct (list_find (fun kv => kv.1 = u) d) as [[j kv]|] eqn:Hf.
  - apply list_find_Some in Hf as (Hj & Hkv & _). cbn.
    apply list_elem_of_lookup in Hin as [j' Hj'].
    assert (Heq : j = j').
    { apply (NoDup_lookup _ _ _ u Hnd); rewrite list_lookup_fmap.
      - by rewrite Hj; cbn; rewrite Hkv.
      - by rewrite Hj'. }
    subst j'. rewrite Hj in Hj'. by injection Hj' as ->.
  - exfalso. apply list_find_None in Hf. rewrite Forall_forall in Hf.
    by apply (Hf _ Hin).
Qed.

(** X18.  The ground truth loaded from the test lines has one entry for each line
    of at least two integers, keyed by the line number and holding the
    integers after the first; keys are distinct, no stored list is empty, so
    [recall_at_k] never divides by zero on a loaded entry. *)
Theorem load_test_spec (lines : list (list nat)) :
  NoDup (dict_keys (load_test lines)) /\
  (forall u items,
     (u, items) ∈ load_test lines
     <-> exists line, lines !! u = Some line /\ 2 <= length line /\ items = drop 1 line) /\
  (forall u, u ∈ dict_keys (load_test lines) ->
     dict_get (load_test lines) u <> [] /\
     forall ranked_list k,
       exists r, recall_at_k ranked_list (dict_get (load_test lines) u) k = Ok r).
Proof.
  split; [apply NoDup_load_test_keys|]. split; [apply elem_of_load_test|].
  intros u Hu. unfold dict_keys in Hu.
  apply list_elem_of_fmap in Hu as ([u' items] & -> & Hin). cbn [fst].
  rewrite (dict_get_NoDup _ _ _ (NoDup_load_test_keys lines) Hin).
  apply elem_of_load_test in Hin as (line & Hl & Hlen & ->).
  assert (Hne : drop 1 line <> []).
  { destruct line as [|x [|y line]]; cbn in *; try lia. done. }
  split; [done|]. intros ranked_list k.
  destruct (recall_at_k_in_unit ranked_list (drop 1 line) k Hne) as (r & Hr & _).
  by exists r.
Qed.

(** ** Counting users and items *)

Lemma elem_of_foldl_union {A : Type} (f : A -> gset nat) (l : list A) (acc : gset nat)
    (i : nat) :
  i ∈ foldl (fun acc x => acc ∪ f x) acc l <-> i ∈ acc \/ exists x, x ∈ l /\ i ∈ f x.
Proof.
  revert acc. induction l as [|x l IH]; intros acc.
  - cbn. split; [by left|]. intros [?|(x & Hx & _)]; [done|]. by apply elem_of_nil in Hx.
  - cbn [foldl]. rewrite IH, elem_of_union. split.
    + intros [[?|?]|(y & Hy & Hi)].
      * by left.
      * right. exists x. split; [left|done].
      * right. exists y. split; [by right|done].
    + intros [?|(y & Hy & Hi)]; [left; by left|].
      apply elem_of_cons in Hy as [->|Hy]; [left; by right|right; by exists y].
Qed.

Lemma foldl_max_spec (x : nat) (xs : list nat) :
  foldl max x xs ∈ x :: xs /\ Forall (fun y => y <= foldl max x xs) (x :: xs).
Proof.
  revert x. induction xs as [|y xs IH]; intros x.
  - cbn. split; [left|]. by repeat constructor.
  - cbn [foldl]. destruct (IH (x `max` y)) as [Hin Hall].
    inversion Hall as [|? ? Hm Hxs]; subst. split.
    + apply elem_of_cons in Hin as [Heq|Hin]; [|right; by right].
      rewrite Heq. destruct (Nat.max_spec x y) as [[_ ->]|[_ ->]]; [right|]; left.
    + constructor; [lia|]. constructor; [lia|done].
Qed.

Lemma elem_of_all_items (user_item_dict : gmap nat (gset nat))
    (test_ground_truth : list (nat * list nat)) (i : nat) :
  i ∈ foldl (fun acc items => acc ∪ list_to_set items)
        (foldl (fun acc '(_, items) => acc ∪ items) ∅ (map_to_list user_item_dict))
        (test_ground_truth.*2)
  <-> listed_item user_item_dict test_ground_truth i.
Proof.
  rewrite (elem_of_foldl_union (fun items : list nat => list_to_set items)).
  assert (Hfold : forall l (acc : gset nat),
            foldl (fun acc '(_, items) => acc ∪ items) acc l
            = foldl (fun acc (x : nat * gset nat) => acc ∪ x.2) acc l).
  { induction l as [|[u s] l IH]; intros acc; [done|]. cbn [foldl]. apply IH. }
  rewrite Hfold, (elem_of_foldl_union (fun x : nat * gset nat => x.2)).
  unfold listed_item. split.
  - intros [[Hi|([u s] & Hin & Hi)]|(items & Hin & Hi)].
    + by apply elem_of_empty in Hi.
    + left. exists u, s. split; [by apply elem_of_map_to_list|done].
    + right. apply list_elem_of_fmap in Hin as (kv & -> & Hkv).
      exists kv. split; [done|]. by apply elem_of_list_to_set in Hi.
  - intros [(u & s & Hu & Hi)|(kv & Hkv & Hi)].
    + left. right. exists (u, s). split; [by apply elem_of_map_to_list|done].
    + right. exists kv.2. split; [apply list_elem_of_fmap; by exists kv|].
      by apply elem_of_list_to_set.
Qed.

Lemma count_items_bound (user_item_dict : gmap nat (gset nat))
    (test_ground_truth : list (nat * list nat)) (I : nat) :
  count_items user_item_dict test_ground_truth = Ok I ->
  (forall i, listed_item user_item_dict test_ground_truth i -> i < I) /\
  (exists i, listed_item user_item_dict test_ground_truth i /\ I = i + 1).
Proof.
  unfold count_items. cbv zeta.
  set (all_items := foldl _ _ _).
  destruct (elements all_items) as [|x xs] eqn:He; [done|]. intros [= <-].
  destruct (foldl_max_spec x xs) as [Hin Hall]. rewrite <- He in Hin, Hall. split.
  - intros i Hi. apply elem_of_all_items in Hi. fold all_items in Hi.
    apply elem_of_elements in Hi. rewrite Forall_forall in Hall.
    specialize (Hall i Hi). lia.
  - exists (foldl max x xs). split; [|done].
    apply elem_of_all_items. fold all_items. by apply elem_of_elements.
Qed.

Lemma count_items_ok (user_item_dict : gmap nat (gset nat))
    (test_ground_truth : list (nat * list nat)) (i : nat) :
  listed_item user_item_dict test_ground_truth i ->
  exists I, count_items user_item_dict test_ground_truth = Ok I.
Proof.
  intros Hi. unfold count_items. cbv zeta.
  destruct (elements _) as [|x xs] eqn:He; [|by eexists].
  apply elem_of_all_items in Hi. apply elem_of_elements in Hi.
  rewrite He in Hi. by apply elem_of_nil in Hi.
Qed.

(** X19.  [num_items = max(all_items) + 1] raises [ValueError] when neither the
    training sets nor the ground truth list any item; otherwise it is
    positive, exceeds every listed item, and [num_items - 1] is a listed
    item. *)
Theorem count_items_spec (user_item_dict : gmap nat (gset nat))
    (test_ground_truth : list (nat * list nat)) :
  ((forall i, ~ listed_item user_item_dict test_ground_truth i) ->
   count_items user_item_dict test_ground_truth = Raise ValueError) /\
  (forall i, listed_item user_item_dict test_ground_truth i ->
   exists I, count_items user_item_dict test_ground_truth = Ok I /\
             (forall j, listed_item user_item_dict test_ground_truth j -> j < I) /\
             listed_item user_item_dict test_ground_truth (I - 1) /\ 0 < I).
Proof.
  split.
  - intros Hnone.
    destruct (count_items user_item_dict test_ground_truth) as [I|e] eqn:Hc.
    + apply count_items_bound in Hc as (_ & i & Hi & _). by destruct (Hnone i).
    + unfold count_items in Hc. cbv zeta in Hc.
      by destruct (elements _) in Hc.
  - intros i Hi. destruct (count_items_ok _ _ i Hi) as [I Hc].
    exists I. split; [done|].
    pose proof (count_items_bound _ _ _ Hc) as (Hlt & j & Hj & ->).
    split; [done|]. split; [|lia]. by replace (j + 1 - 1) with j by lia.
Qed.

Lemma count_users_all_lines (lines : list (list nat)) :
  Forall (fun line => 2 <= length line) lines ->
  count_users (load_train lines) = length lines.
Proof.
  intros Hall. unfold count_users.
  rewrite <- (size_dom (D:=gset nat)), <- (size_set_seq (C:=gset nat) 0 (length lines)).
  f_equal. apply leibniz_equiv. intros u.
  rewrite elem_of_dom, load_train_key, elem_of_set_seq. split.
  - intros (line & Hl & _). apply lookup_lt_Some in Hl. lia.
  - intros [_ Hu]. destruct (lookup_lt_is_Some_2 lines u) as [line Hl]; [lia|].
    exists line. split; [done|]. by eapply Forall_lookup_1 in Hall.
Qed.

(** ** From the files to the model *)

Lemma elem_of_train_pairs (d : gmap nat (gset nat)) (u i : nat) :
  (u, i) ∈ train_pairs d <-> i ∈ default ∅ (d !! u).
Proof.
  unfold train_pairs. rewrite list_elem_of_bind. split.
  - intros ([u' s] & Hin & Hd). apply elem_of_map_to_list in Hd.
    apply list_elem_of_fmap in Hin as (i' & [= -> ->] & Hi).
    rewrite Hd. cbn. by apply elem_of_elements.
  - intros Hi. destruct (d !! u) as [s|] eqn:Hd; [|by apply elem_of_empty in Hi].
    exists (u, s). split; [|by apply elem_of_map_to_list].
    apply list_elem_of_fmap. exists i. split; [done|]. by apply elem_of_elements.
Qed.

Lemma NoDup_train_pairs (d : gmap nat (gset nat)) : NoDup (train_pairs d).
Proof.
  unfold train_pairs. apply NoDup_bind.
  - intros [u1 s1] [u2 s2] [u i] H1 H2 Hy1 Hy2.
    apply list_elem_of_fmap in Hy1 as (i1 & [= -> ->] & _).
    apply list_elem_of_fmap in Hy2 as (i2 & [= -> ->] & _).
    apply elem_of_map_to_list in H1, H2. congruence.
  - intros [u s] _. apply NoDup_fmap_2; [|apply NoDup_elements].
    by intros i j [= ->].
  - apply NoDup_map_to_list.
Qed.

Lemma maps_of_sets_eq (d1 d2 : gmap nat (gset nat)) :
  (forall u, is_Some (d1 !! u) <-> is_Some (d2 !! u)) ->
  (forall u i, i ∈ default ∅ (d1 !! u) <-> i ∈ default ∅ (d2 !! u)) ->
  d1 = d2.
Proof.
  intros Hkeys Helems. apply map_eq. intros u.
  specialize (Hkeys u). pose proof (Helems u) as He.
  destruct (d1 !! u) as [s1|], (d2 !! u) as [s2|]; cbn in *.
  - f_equal. apply leibniz_equiv. intros i. apply He.
  - destruct Hkeys as [Hk _]. by destruct Hk as [? [=]].
  - destruct Hkeys as [_ Hk]. by destruct Hk as [? [=]].
  - done.
Qed.

Lemma rebuild_train_pairs (d : gmap nat (gset nat)) :
  (forall u items, d !! u = Some items -> items <> ∅) ->
  rebuild_user_item_dict (train_pairs d) = d.
Proof.
  intros Hne. unfold rebuild_user_item_dict. apply maps_of_sets_eq.
  - intros u. rewrite rebuild_step_keys, lookup_empty. split.
    + intros [[? [=]]|Hu]. apply list_elem_of_fmap in Hu as ([u' i] & -> & Hin).
      apply elem_of_train_pairs in Hin. cbn [fst] in *.
      destruct (d !! u') as [s|]; [by eexists|by apply elem_of_empty in Hin].
    + intros [s Hs]. right.
      destruct (set_choose_L s (Hne u s Hs)) as [i Hi].
      apply list_elem_of_fmap. exists (u, i). split; [done|].
      apply elem_of_train_pairs. by rewrite Hs.
  - intros u i. rewrite rebuild_step_lookup, lookup_empty, elem_of_train_pairs. cbn.
    rewrite elem_of_empty. tauto.
Qed.

(** X20.  Flattening the loaded dictionary into [train_interactions] and
    rebuilding the dictionary from them, as [train_lightgcn] does after
    [clear()], gives back the loaded dictionary. *)
Theorem rebuild_round_trip (lines : list (list nat)) :
  rebuild_user_item_dict (train_pairs (load_train lines)) = load_train lines.
Proof. apply rebuild_train_pairs. intros u items. apply load_train_nonempty. Qed.

Lemma loaded_pairs_in_range (lines : list (list nat))
    (test_ground_truth : list (nat * list nat)) (num_items : nat) :
  Forall (fun line => 2 <= length line) lines ->
  count_items (load_train lines) test_ground_truth = Ok num_items ->
  in_range (count_users (load_train lines)) num_items (train_pairs (load_train lines)).
Proof.
  intros Hall Hc.
  destruct (count_items_bound _ _ _ Hc) as [Hlt _].
  unfold in_range. apply Forall_forall. intros [u i] Hin.
  apply elem_of_train_pairs in Hin. cbn [fst snd]. split.
  - rewrite (count_users_all_lines lines Hall).
    apply load_train_elem in Hin as (line & Hl & _).
    by apply lookup_lt_Some in Hl.
  - apply Hlt. left.
    destruct (load_train lines !! u) as [s|] eqn:Hs;
      [by exists u, s|by apply elem_of_empty in Hin].
Qed.

(** X21.  When every training line lists at least one item, [num_users] is the
    number of lines, the interactions are pairwise distinct and in range,
    every ground-truth item is below [num_items], and the model constructor
    succeeds on them. *)
Theorem loaded_interactions_build_model (lines test_lines : list (list nat))
    (num_items embedding_dim num_layers : nat) (user_weight item_weight : matrix) :
  Forall (fun line => 2 <= length line) lines ->
  count_items (load_train lines) (load_test test_lines) = Ok num_items ->
  let user_item_dict := load_train lines in
  let train_interactions := train_pairs user_item_dict in
  let num_users := count_users user_item_dict in
  num_users = length lines /\
  NoDup train_interactions /\
  in_range num_users num_items train_interactions /\
  Forall (fun kv => Forall (fun i => i < num_items) kv.2) (load_test test_lines) /\
  exists model,
    LightGCN.__init__ num_users num_items embedding_dim num_layers
      user_weight item_weight train_interactions = Ok model.
Proof.
  intros Hall Hc. cbv zeta.
  pose proof (loaded_pairs_in_range lines _ _ Hall Hc) as Hr.
  destruct (count_items_bound _ _ _ Hc) as [Hlt _].
  split; [by apply count_users_all_lines|].
  split; [apply NoDup_train_pairs|]. split; [done|]. split.
  - apply Forall_forall. intros kv Hkv. apply Forall_forall. intros i Hi.
    apply Hlt. right. by exists kv.
  - unfold LightGCN.__init__. rewrite (build_adj_matrix_ok _ _ _ Hr).
    by eexists.
Qed.

Lemma loaded_interactions_build_model_witness :
  let user_item_dict := load_train [[0; 1; 2]; [1; 0]] in
  let train_interactions := train_pairs user_item_dict in
  let num_users := count_users user_item_dict in
  num_users = length [[0; 1; 2]; [1; 0]] /\
  NoDup train_interactions /\
  in_range num_users 4 train_interactions /\
  Forall (fun kv => Forall (fun i => i < 4) kv.2) (load_test [[0; 3]; [1]]) /\
  exists model,
    LightGCN.__init__ num_users 4 1 3 [[Num 1]; [Num 2]]
      [[Num 1]; [Num 2]; [Num 3]; [Num 4]] train_interactions = Ok model.
Proof.
  apply (loaded_interactions_build_model [[0; 1; 2]; [1; 0]] [[0; 3]; [1]] 4 1 3).
  - repeat constructor.
  - vm_compute. reflexivity.
Defined.

(** ** Lines without items *)

Lemma load_train_snoc (lines : list (list nat)) (line : list nat) :
  load_train (lines ++ [line]) = add_items (load_train lines) (length lines) line.
Proof.
  unfold load_train. rewrite imap_app, foldl_app. cbn [imap foldl].
  by rewrite Nat.add_0_r.
Qed.

Lemma dom_add_items (d : gmap nat (gset nat)) (user : nat) (items : list nat) :
  dom (add_items d user items)
  = if decide (2 <= length items) then dom d ∪ {[user]} else dom d.
Proof.
  apply leibniz_equiv. intros u.
  rewrite elem_of_dom, add_items_as_pairs, rebuild_step_keys, <- elem_of_dom.
  rewrite <- list_fmap_compose.
  destruct items as [|x [|y items]]; cbn [drop fmap list_fmap length].
  - rewrite decide_False by lia. rewrite elem_of_nil. tauto.
  - rewrite decide_False by (simpl; lia). rewrite elem_of_nil. tauto.
  - rewrite decide_True by (simpl; lia). rewrite elem_of_union, elem_of_singleton.
    split; (intros [?|Hu]; [by left|right]).
    + apply elem_of_cons in Hu as [->|Hu]; [done|].
      by apply list_elem_of_fmap in Hu as (? & -> & _).
    + subst. left.
Qed.

Lemma count_users_lines_with_items (lines : list (list nat)) :
  count_users (load_train lines) = length (filter (fun line => 2 <= length line) lines).
Proof.
  unfold count_users. induction lines as [|line lines IH] using rev_ind; [done|].
  rewrite load_train_snoc, filter_app, length_app, <- IH.
  rewrite <- !(size_dom (D:=gset nat)), dom_add_items.
  rewrite filter_cons, filter_nil.
  destruct (decide (2 <= length line)) as [Hl|Hl]; cbn [length]; [|lia].
  rewrite size_union, size_singleton; [lia|].
  apply disjoint_singleton_r. rewrite elem_of_dom, load_train_key.
  intros (l & Hlook & _). apply lookup_lt_Some in Hlook. lia.
Qed.

Lemma length_filter_lt {A : Type} (P : A -> Prop) `{!forall x, Decision (P x)} (l : list A) :
  ~ Forall P l -> length (filter P l) < length l.
Proof.
  induction l as [|x l IH]; intros Hno; [by destruct Hno|].
  rewrite filter_cons. pose proof (length_filter P l).
  destruct (decide (P x)) as [Hx|Hx]; cbn [length]; [|lia].
  assert (~ Forall P l) by (intros Hl; apply Hno; by constructor).
  specialize (IH ltac:(done)). lia.
Qed.

(** X22.  [num_users = len(user_item_dict)] counts the training lines that list
    an item, not the lines.  When every line lists an item all user ids are
    below [num_users]; when some line lists none and the last line lists
    one, an interaction carries a user id that is not below [num_users]. *)
Theorem count_users_skips_empty_lines (lines : list (list nat)) :
  count_users (load_train lines) = length (filter (fun line => 2 <= length line) lines) /\
  (Forall (fun line => 2 <= length line) lines ->
   forall u i, (u, i) ∈ train_pairs (load_train lines) ->
               u < count_users (load_train lines)) /\
  (forall line, 2 <= length line -> ~ Forall (fun line => 2 <= length line) lines ->
   exists u i, (u, i) ∈ train_pairs (load_train (lines ++ [line])) /\
               count_users (load_train (lines ++ [line])) <= u).
Proof.
  split; [apply count_users_lines_with_items|]. split.
  - intros Hall u i Hin. rewrite (count_users_all_lines lines Hall).
    apply elem_of_train_pairs, load_train_elem in Hin as (line & Hl & _).
    by apply lookup_lt_Some in Hl.
  - intros line Hlen Hno.
    destruct line as [|x [|y line]]; cbn in Hlen; try lia.
    exists (length lines), y. split.
    + apply elem_of_train_pairs, load_train_elem. exists (x :: y :: line). split.
      * by rewrite lookup_app_r, Nat.sub_diag by lia.
      * cbn. left.
    + rewrite count_users_lines_with_items, filter_app, length_app.
      rewrite filter_cons, filter_nil, decide_True by (simpl; lia). cbn [length].
      pose proof (length_filter_lt _ lines Hno). lia.
Qed.

(** ** The stable top-k is a valid top-k *)

Lemma insert_desc_perm (x : nat * fval) (l : list (nat * fval)) :
  insert_desc x l ≡ₚ x :: l.
Proof.
  induction l as [|y l IH]; [done|]. cbn [insert_desc].
  destruct (fgtb y.2 x.2); [|done]. rewrite IH. apply Permutation_swap.
Qed.

Lemma foldr_insert_desc_perm (l : list (nat * fval)) : foldr insert_desc [] l ≡ₚ l.
Proof.
  induction l as [|x l IH]; [done|]. cbn [foldr].
  by rewrite insert_desc_perm, IH.
Qed.

Lemma fst_imap_from (scores : list fval) (s : nat) :
  (imap (fun i x => (s + i, x)) scores).*1 = seq s (length scores).
Proof.
  revert s. induction scores as [|x scores IH]; intros s; [done|].
  rewrite imap_cons, fmap_cons. cbn [fst length seq]. rewrite Nat.add_0_r. f_equal.
  rewrite <- IH. f_equal. apply imap_ext. intros; cbn; f_equal; lia.
Qed.

Lemma topk_stable_valid : topk_valid topk_stable.
Proof.
  intros scores k Hk. unfold topk_stable. rewrite decide_True by done.
  eexists. split; [done|].
  assert (Hperm : (foldr insert_desc [] (imap (fun i x => (i, x)) scores)).*1
                  ≡ₚ seq 0 (length scores)).
  { rewrite foldr_insert_desc_perm. by rewrite <- (fst_imap_from scores 0). }
  set (sorted := (foldr insert_desc [] (imap (fun i x => (i, x)) scores)).*1) in *.
  assert (Hlen : length sorted = length scores) by (by rewrite Hperm, length_seq).
  split; [rewrite length_take; lia|]. split.
  - eapply sublist_NoDup; [|apply sublist_take]. rewrite Hperm. apply NoDup_seq.
  - apply Forall_take, Forall_forall. intros i Hi. rewrite Hperm in Hi.
    apply elem_of_seq in Hi. lia.
Qed.

Lemma one_user_model_valid : valid_model 1 2 one_user_model.
Proof.
  split; [by repeat split|]. split; [|done].
  split; [by repeat constructor|]. split; [by repeat constructor|].
  apply norm_adj_finite.
Qed.

Lemma one_user_evaluable (d : gmap nat (gset nat)) :
  d !! 0 = Some {[0]} -> Forall (evaluable 1 2 1 d) one_user_ground_truth.
Proof.
  intros Hd. repeat constructor; cbn [fst snd]; try done. rewrite Hd. cbn [default].
  vm_compute. lia.
Qed.

Lemma evaluate_model_spec_witness :
  (0 < 1 -> one_user_ground_truth <> [] ->
   exists recall precision ndcg,
     evaluate_model topk_stable one_user_model one_user_ground_truth one_user_train 1 1
     = Ok (recall, precision, ndcg) /\
     in_unit recall /\ in_unit precision /\ in_unit ndcg) /\
  (0 < 1 -> one_user_ground_truth = [] ->
   evaluate_model topk_stable one_user_model one_user_ground_truth one_user_train 1 1
   = Ok (NaN, NaN, NaN)) /\
  (1 = 0 ->
   evaluate_model topk_stable one_user_model one_user_ground_truth one_user_train 1 1
   = Raise ValueError).
Proof.
  apply (evaluate_model_spec topk_stable 1 2 1 one_user_model one_user_ground_truth
           one_user_train 1).
  - exact topk_stable_valid.
  - exact one_user_model_valid.
  - lia.
  - apply one_user_evaluable. reflexivity.
Defined.

(** ** The whole training run *)

Lemma rebuild_in_range (U I : nat) (interactions : list (nat * nat)) :
  in_range U I interactions ->
  dict_in_range U I (rebuild_user_item_dict interactions).
Proof.
  intros Hr u items Hu. unfold in_range in Hr. rewrite Forall_forall in Hr.
  unfold rebuild_user_item_dict in Hu. split.
  - assert (Hk : is_Some (foldl (fun d '(u, i) => <[u := default ∅ (d !! u) ∪ {[i]}]> d)
                            ∅ interactions !! u)) by (by eexists).
    apply rebuild_step_keys in Hk as [[? Hk]|Hk]; [by rewrite lookup_empty in Hk|].
    apply list_elem_of_fmap in Hk as ([u' i] & -> & Hin). by apply (Hr _ Hin).
  - intros i Hi.
    assert (Hin : i ∈ default ∅ (foldl (fun d '(u, i) => <[u := default ∅ (d !! u) ∪ {[i]}]> d)
                                   ∅ interactions !! u)) by (by rewrite Hu).
    apply rebuild_step_lookup in Hin as [Hin|Hin];
      [rewrite lookup_empty in Hin; by apply elem_of_empty in Hin|].
    by apply (Hr _ Hin).
Qed.

Section TrainingTotal.

Variable rng : Type.
Variable random_shuffle : rng -> list nat -> rng * list nat.
Variable random_choice : rng -> list nat -> rng * nat.
Variable np_random_permutation : rng -> nat -> rng * list nat.
Variable optimizer : Type.
Variable optimizer_step :
  optimizer -> LightGCN.t -> list nat -> list nat -> list nat -> optimizer * LightGCN.t.
Variable topk : list fval -> nat -> result (list nat).
Variables U I : nat.

Hypothesis np_random_permutation_valid :
  forall g n, (np_random_permutation g n).2 ≡ₚ seq 0 n.
Hypothesis random_shuffle_permutes : forall g l, (random_shuffle g l).2 ≡ₚ l.
Hypothesis random_choice_member :
  forall g l, l <> [] -> (random_choice g l).2 ∈ l.
Hypothesis optimizer_step_valid :
  forall opt m users pos neg,
    valid_model U I m -> valid_model U I (optimizer_step opt m users pos neg).2.
Hypothesis topk_is_valid : topk_valid topk.

Lemma epoch_loop_returns (cfg : config) (test_ground_truth : list (nat * list nat))
    (user_item_dict : gmap nat (gset nat)) (all_items : gset nat) (batch_size k : nat)
    (remaining epoch : nat) (st : train_state rng optimizer) (es : EarlyStopping.t) :
  (0 <= cfg.(cfg_reg_lambda))%R -> 0 < batch_size -> 0 < k ->
  dict_in_range U I user_item_dict ->
  (forall i, i ∈ all_items -> i < I) ->
  Forall (evaluable U I k user_item_dict) test_ground_truth ->
  valid_model U I st.(st_model rng optimizer) ->
  EarlyStopping.early_stop es = false ->
  exists st' es',
    epoch_loop rng random_shuffle random_choice np_random_permutation optimizer
      optimizer_step topk cfg test_ground_truth user_item_dict all_items batch_size k
      remaining epoch st es
    = Ok (st', es', epoch + remaining) /\
    valid_model U I st'.(st_model rng optimizer) /\
    EarlyStopping.early_stop es' = false.
Proof.
  intros Hlam Hbs Hk Hd Hall Hgt. revert epoch st es.
  induction remaining as [|remaining IH]; intros epoch st es Hm Hes.
  - exists st, es. by rewrite Nat.add_0_r.
  - cbn [epoch_loop].
    destruct (train_one_epoch_ok rng random_shuffle random_choice np_random_permutation
                optimizer optimizer_step np_random_permutation_valid
                random_shuffle_permutes random_choice_member U I optimizer_step_valid
                cfg st user_item_dict all_items batch_size Hlam Hbs Hm Hd Hall)
      as (st1 & loss & -> & _ & Hm1).
    cbn [mbind result_bind].
    destruct (evaluate_model_returns topk topk_is_valid U I k
                st1.(st_model rng optimizer) test_ground_truth user_item_dict
                Hm1 Hk Hgt 1024 ltac:(lia))
      as (rl & pl & nl & -> & _).
    cbn [mbind result_bind]. rewrite early_stop_unchanged, Hes.
    destruct (IH (epoch + 1) st1 (EarlyStopping.__call__ es (np_mean rl)) Hm1)
      as (st' & es' & -> & Hm' & Hes'); [by rewrite early_stop_unchanged|].
    exists st', es'. split; [|done]. do 2 f_equal. lia.
Qed.

(** X23.  With well-behaved random sources, optimizer and top-k, a well-shaped
    finite model, in-range interactions and evaluable held-out entries,
    [train_lightgcn] raises nothing and runs exactly [epochs] epochs, for any
    patience: the early-stop flag is still [False] at the end and the model
    is still well-shaped and finite. *)
Theorem train_lightgcn_completes (cfg : config) (st : train_state rng optimizer)
    (interactions : list (nat * nat)) (test_ground_truth : list (nat * list nat))
    (epochs batch_size k patience : nat) :
  (0 <= cfg.(cfg_reg_lambda))%R -> 0 < batch_size -> 0 < k ->
  valid_model U I st.(st_model rng optimizer) ->
  in_range U I interactions ->
  Forall (evaluable U I k (rebuild_user_item_dict interactions)) test_ground_truth ->
  exists st' es',
    train_lightgcn rng random_shuffle random_choice np_random_permutation optimizer
      optimizer_step topk cfg st interactions test_ground_truth epochs batch_size k
      patience
    = Ok (st', es', epochs) /\
    valid_model U I st'.(st_model rng optimizer) /\
    EarlyStopping.early_stop es' = false.
Proof.
  intros Hlam Hbs Hk Hm Hr Hgt. unfold train_lightgcn.
  destruct (epoch_loop_returns cfg test_ground_truth
              (rebuild_user_item_dict interactions)
              (set_seq 0 st.(st_model rng optimizer).(LightGCN.num_items))
              batch_size k epochs 0 st (EarlyStopping.__init__ patience (Num 0) true))
    as (st' & es' & Hloop & Hm' & Hes'); try done.
  - by apply rebuild_in_range.
  - intros i Hi. apply elem_of_set_seq in Hi.
    destruct Hm as (_ & _ & _ & HI). lia.
  - exists st', es'. by rewrite Hloop.
Qed.

End TrainingTotal.

Lemma train_lightgcn_completes_witness :
  exists st' es',
    train_lightgcn unit no_shuffle first_choice identity_permutation unit no_update
      topk_stable notebook_config (mk_state unit unit tt tt one_user_model)
      [(0, 0)] one_user_ground_truth 2 1 1 1
    = Ok (st', es', 2) /\
    valid_model 1 2 st'.(st_model unit unit) /\
    EarlyStopping.early_stop es' = false.
Proof.
  apply (train_lightgcn_completes unit no_shuffle first_choice identity_permutation
           unit no_update topk_stable 1 2).
  - intros g n. reflexivity.
  - intros g l. reflexivity.
  - exact first_choice_member.
  - intros opt m users pos neg Hm. exact Hm.
  - exact topk_stable_valid.
  - cbn. lra.
  - lia.
  - lia.
  - exact one_user_model_valid.
  - unfold in_range. repeat constructor.
  - apply one_user_evaluable. reflexivity.
Defined.

(** ** The run cell on well-formed files *)

Section RunTotal.

Variable rng : Type.
Variable random_shuffle : rng -> list nat -> rng * list nat.
Variable random_choice : rng -> list nat -> rng * nat.
Variable np_random_permutation : rng -> nat -> rng * list nat.
Variable optimizer : Type.
Variable optimizer_step :
  optimizer -> LightGCN.t -> list nat -> list nat -> list nat -> optimizer * LightGCN.t.
Variable topk : list fval -> nat -> result (list nat).

Hypothesis np_random_permutation_valid :
  forall g n, (np_random_permutation g n).2 ≡ₚ seq 0 n.
Hypothesis random_shuffle_permutes : forall g l, (random_shuffle g l).2 ≡ₚ l.
Hypothesis random_choice_member :
  forall g l, l <> [] -> (random_choice g l).2 ∈ l.
Hypothesis optimizer_step_valid :
  forall U I opt m users pos neg,
    valid_model U I m -> valid_model U I (optimizer_step opt m users pos neg).2.
Hypothesis topk_is_valid : topk_valid topk.

(** X24.  On training lines that each list an item, with finite initial weights
    of the right number of rows and evaluable held-out entries, the run cell
    (model construction, training, final evaluation) returns a metric
    triple, each metric in [0, 1] when the ground truth is not empty. *)
Theorem run_cell_completes (cfg : config) (g : rng) (opt : optimizer)
    (user_weight item_weight : matrix) (train_lines test_lines : list (list nat)) :
  (0 <= cfg.(cfg_reg_lambda))%R ->
  0 < cfg.(cfg_batch_size) -> 0 < cfg.(cfg_eval_k) ->
  train_lines <> [] ->
  Forall (fun line => 2 <= length line) train_lines ->
  finite_matrix user_weight -> finite_matrix item_weight ->
  length user_weight = length train_lines ->
  (forall num_items,
     count_items (load_train train_lines) (load_test test_lines) = Ok num_items ->
     length item_weight = num_items /\
     Forall (evaluable (length train_lines) num_items cfg.(cfg_eval_k)
               (load_train train_lines))
       (load_test test_lines)) ->
  exists recall precision ndcg,
    run_cell rng random_shuffle random_choice np_random_permutation optimizer
      optimizer_step topk cfg g opt user_weight item_weight train_lines test_lines
    = Ok (recall, precision, ndcg) /\
    (load_test test_lines <> [] ->
     in_unit recall /\ in_unit precision /\ in_unit ndcg).
Proof.
  intros Hlam Hbs Hk Hne Hall HfU HfI HlU Hitems. unfold run_cell. cbv zeta.
  assert (Hlisted : exists i, listed_item (load_train train_lines) (load_test test_lines) i).
  { destruct train_lines as [|line lines]; [done|].
    inversion Hall as [|? ? Hlen _]; subst.
    destruct line as [|x [|y line]]; cbn in Hlen; try lia.
    exists y. left.
    assert (Hy : y ∈ default ∅ (load_train ((x :: y :: line) :: lines) !! 0)).
    { apply load_train_elem. exists (x :: y :: line). split; [done|]. cbn. left. }
    destruct (load_train _ !! 0) as [s|] eqn:Hs;
      [by exists 0, s|by apply elem_of_empty in Hy]. }
  destruct Hlisted as [i0 Hi0].
  destruct (count_items_ok _ _ i0 Hi0) as [I Hc]. rewrite Hc. cbn [mbind result_bind].
  destruct (Hitems I Hc) as [HlI Hgt].
  pose proof (loaded_pairs_in_range train_lines _ _ Hall Hc) as Hr.
  rewrite (count_users_all_lines train_lines Hall) in Hr |- *.
  unfold LightGCN.__init__. rewrite (build_adj_matrix_ok _ _ _ Hr).
  cbn [mbind result_bind].
  set (U := length train_lines) in *.
  set (pairs := train_pairs (load_train train_lines)) in *.
  set (model := LightGCN.mk U I _ _ _ _ _).
  assert (Hm : valid_model U I model).
  { split; [by repeat split|]. split; [|done].
    split; [done|]. split; [done|]. apply norm_adj_finite. }
  assert (Hround : rebuild_user_item_dict pairs = load_train train_lines).
  { apply rebuild_train_pairs. intros u items. apply load_train_nonempty. }
  unfold train_lightgcn.
  destruct (epoch_loop_returns rng random_shuffle random_choice np_random_permutation
              optimizer optimizer_step topk U I np_random_permutation_valid
              random_shuffle_permutes random_choice_member (optimizer_step_valid U I)
              topk_is_valid cfg (load_test test_lines) (rebuild_user_item_dict pairs)
              (set_seq 0 I) cfg.(cfg_batch_size) cfg.(cfg_eval_k) cfg.(cfg_epochs) 0
              (mk_state rng optimizer g opt model)
              (EarlyStopping.__init__ cfg.(cfg_patience) (Num 0) true))
    as (st' & es' & Hloop & Hm' & _); try done.
  - by apply rebuild_in_range.
  - intros i Hi. apply elem_of_set_seq in Hi. lia.
  - by rewrite Hround.
  - cbn [st_model LightGCN.num_items model] in *. rewrite Hloop.
    cbn [mbind result_bind].
    destruct (evaluate_model_returns topk topk_is_valid U I cfg.(cfg_eval_k)
                st'.(st_model rng optimizer) (load_test test_lines)
                (rebuild_user_item_dict pairs) Hm' Hk)
      with (batch_size := 1024)
      as (rl & pl & nl & -> & Hlr & Hlp & Hln & Hfr & Hfp & Hfn);
      [by rewrite Hround|lia|].
    do 3 eexists. split; [done|]. intros Hne'.
    assert (Hpos : 0 < length (load_test test_lines))
      by (destruct (load_test test_lines); [done|simpl; lia]).
    repeat split; apply np_mean_in_unit; try done; intros ->; simpl in *; lia.
Qed.

End RunTotal.

Lemma run_cell_completes_witness :
  exists recall precision ndcg,
    run_cell unit no_shuffle first_choice identity_permutation unit no_update
      topk_stable tiny_config tt tt [[Num 1]; [Num 2]] [[Num 1]; [Num 2]; [Num 3]]
      tiny_train_lines tiny_test_lines
    = Ok (recall, precision, ndcg) /\
    (load_test tiny_test_lines <> [] ->
     in_unit recall /\ in_unit precision /\ in_unit ndcg).
Proof.
  apply (run_cell_completes unit no_shuffle first_choice identity_permutation unit
           no_update topk_stable).
  - intros g n. reflexivity.
  - intros g l. reflexivity.
  - exact first_choice_member.
  - intros U I opt m users pos neg Hm. exact Hm.
  - exact topk_stable_valid.
  - cbn. lra.
  - cbn. lia.
  - cbn. lia.
  - done.
  - repeat constructor.
  - by repeat constructor.
  - by repeat constructor.
  - reflexivity.
  - intros num_items Hc.
    assert (H3 : count_items (load_train tiny_train_lines) (load_test tiny_test_lines)
                 = Ok 3) by (vm_compute; reflexivity).
    rewrite H3 in Hc. injection Hc as <-. split; [reflexivity|].
    assert (He : load_test tiny_test_lines = [(0, [2]); (1, [1])])
      by (vm_compute; reflexivity).
    rewrite He. unfold evaluable. cbn [fst snd length tiny_train_lines tiny_config
                                       cfg_eval_k].
    repeat constructor; try done; vm_compute; lia.
Defined.

(** ** The shape of the propagated embeddings *)

Lemma message_passing_rectangular (adj : coo) (x : matrix) (d L : nat) :
  rectangular d x -> x <> [] -> adj.(shape).1 = length x ->
  Forall (fun e : nat * nat * fval => e.1.2 < length x) adj.(entries) ->
  Forall (fun t => rectangular d t /\ length t = length x)
    (LightGCN.message_passing adj x L).
Proof.
  revert x. induction L as [|L IH]; intros x Hx Hne Hshape Hcols; [constructor|].
  cbn [LightGCN.message_passing]. cbv zeta.
  destruct (sparse_mm_rectangular adj x d Hx Hne Hcols) as [Hx' Hlen].
  constructor; [split; [done|lia]|].
  assert (Hne' : sparse_mm adj x <> []).
  { intros Hnil. rewrite Hnil in Hlen. cbn in Hlen. destruct x; [done|]. simpl in *. lia. }
  specialize (IH (sparse_mm adj x) Hx' Hne').
  rewrite Hlen, Hshape in IH. apply IH; [done|exact Hcols].
Qed.

Lemma length_vdiv_count (v : list fval) (n : nat) : length (vdiv_count v n) = length v.
Proof. unfold vdiv_count. by rewrite length_fmap. Qed.

Lemma mean_stack_rectangular (x : matrix) (ts : list matrix) (d : nat) :
  rectangular d x ->
  Forall (fun t => rectangular d t /\ length t = length x) ts ->
  rectangular d (mean_dim1 (stack_dim1 (x :: ts))).
Proof.
  intros Hx Hts. unfold mean_dim1, stack_dim1, rectangular.
  rewrite <- list_fmap_compose. apply Forall_fmap, Forall_forall.
  intros a Ha. apply elem_of_seq in Ha as [_ Ha]. rewrite Nat.add_0_l in Ha.
  unfold compose. cbn beta. rewrite length_vdiv_count, fmap_cons. cbn [sum_slices].
  destruct (lookup_lt_is_Some_2 x a Ha) as [row Hrow]. rewrite Hrow. cbn [default].
  apply length_foldl_vadd; [by eapply Forall_lookup_1 in Hx|].
  apply Forall_fmap. eapply Forall_impl; [exact Hts|].
  intros t [Ht Hlen]. cbn.
  destruct (lookup_lt_is_Some_2 t a) as [r Hr]; [lia|]. rewrite Hr. cbn.
  by eapply Forall_lookup_1 in Ht.
Qed.

(** X25.  For in-range interactions and weight tables of [embedding_dim]
    columns, whatever floats they hold, [getEmbedding] and [forward] return
    the same pair: [num_users] rows and [num_items] rows of [embedding_dim]
    entries each. *)
Theorem embeddings_have_declared_shape
    (U I d L : nat) (user_weight item_weight : matrix) (pairs : list (nat * nat)) :
  in_range U I pairs ->
  length user_weight = U -> length item_weight = I ->
  rectangular d (user_weight ++ item_weight) ->
  exists self user_emb item_emb,
    LightGCN.__init__ U I d L user_weight item_weight pairs = Ok self /\
    LightGCN.getEmbedding self = (user_emb, item_emb) /\
    LightGCN.forward self = (user_emb, item_emb) /\
    length user_emb = U /\ length item_emb = I /\
    rectangular d user_emb /\ rectangular d item_emb.
Proof.
  intros Hr HU HI Hrect. unfold LightGCN.__init__.
  rewrite (build_adj_matrix_ok U I pairs Hr). cbn [mbind result_bind].
  set (self := LightGCN.mk U I d L user_weight item_weight (norm_adj_of U I pairs)).
  assert (Hws : well_shaped self) by (by repeat split).
  exists self, (LightGCN.getEmbedding self).1, (LightGCN.getEmbedding self).2.
  split; [done|]. split; [by destruct (LightGCN.getEmbedding self)|].
  split; [rewrite (forward_as_getEmbedding self Hws);
          by destruct (LightGCN.getEmbedding self)|].
  destruct (getEmbedding_lengths self HU) as [HlU HlI].
  split; [done|]. split; [by rewrite HlI|].
  assert (Hout : rectangular d
            (mean_dim1 (stack_dim1
               (cat user_weight item_weight
                :: LightGCN.message_passing (norm_adj_of U I pairs)
                     (cat user_weight item_weight) L)))).
  { destruct (decide (cat user_weight item_weight = [])) as [Hnil|Hne].
    - rewrite Hnil. unfold mean_dim1, stack_dim1. cbn. constructor.
    - apply mean_stack_rectangular; [done|].
      assert (Hlen : length (cat user_weight item_weight) = U + I)
        by (unfold cat; rewrite length_app; lia).
      apply message_passing_rectangular; [done|done|by rewrite Hlen|].
      rewrite Hlen. eapply Forall_impl; [by apply norm_adj_coordinates|].
      by intros e [_ ?]. }
  unfold LightGCN.getEmbedding. cbn [fst snd self LightGCN.user_embedding
    LightGCN.item_embedding LightGCN.norm_adj LightGCN.num_layers LightGCN.num_users].
  split; [by apply Forall_take|by apply Forall_drop].
Qed.

Lemma embeddings_have_declared_shape_witness :
  exists self user_emb item_emb,
    LightGCN.__init__ 2 2 1 3 [[Num 1]; [Num 2]] [[Num 3]; [Num 4]] [(0, 0); (1, 0)]
    = Ok self /\
    LightGCN.getEmbedding self = (user_emb, item_emb) /\
    LightGCN.forward self = (user_emb, item_emb) /\
    length user_emb = 2 /\ length item_emb = 2 /\
    rectangular 1 user_emb /\ rectangular 1 item_emb.
Proof.
  apply embeddings_have_declared_shape.
  - unfold in_range. repeat constructor.
  - reflexivity.
  - reflexivity.
  - unfold rectangular. repeat constructor.
Defined.

(** ** The size of the normalized weights *)

Lemma length_filter_impl {A : Type} (P Q : A -> Prop)
    `{!forall x, Decision (P x)} `{!forall x, Decision (Q x)} (l : list A) :
  (forall x, P x -> Q x) -> length (filter P l) <= length (filter Q l).
Proof.
  intros HPQ. induction l as [|x l IH]; [done|].
  rewrite !filter_cons.
  destruct (decide (P x)) as [HP|HP], (decide (Q x)) as [HQ|HQ]; cbn [length]; try lia.
  exfalso. by apply HQ, HPQ.
Qed.

Lemma multiplicity_le_degree (U I : nat) (pairs : list (nat * nat)) (a b : nat) :
  in_range U I pairs ->
  multiplicity U pairs a b <= degree U pairs a /\
  multiplicity U pairs a b <= degree U pairs b.
Proof.
  intros Hr. unfold multiplicity, degree.
  rewrite <- (length_filter_or (fun p : nat * nat => p.1 = a /\ p.2 + U = b)
                               (fun p : nat * nat => p.2 + U = a /\ p.1 = b)).
  2:{ eapply Forall_impl; [exact Hr|]. intros [u i] [Hu Hi] [[? ?] [? ?]].
      simpl in *. lia. }
  split; apply length_filter_impl; intros [u i]; unfold touches; simpl; tauto.
Qed.

Lemma normalized_weight_bounds (m da db : nat) (eps : R) :
  (0 < eps)%R -> m <= da -> m <= db ->
  (0 <= INR m * (/ sqrt (INR da + eps) * 1 * / sqrt (INR db + eps)) <= 1)%R.
Proof.
  intros Heps Hda Hdb.
  pose proof (pos_INR m) as Hm. pose proof (le_INR _ _ Hda) as Ha.
  pose proof (le_INR _ _ Hdb) as Hb.
  assert (Hs : (0 < sqrt (INR m + eps))%R) by (apply sqrt_lt_R0; lra).
  assert (Hsa : (sqrt (INR m + eps) <= sqrt (INR da + eps))%R) by (apply sqrt_le_1; lra).
  assert (Hsb : (sqrt (INR m + eps) <= sqrt (INR db + eps))%R) by (apply sqrt_le_1; lra).
  assert (Hia : (0 < / sqrt (INR da + eps) <= / sqrt (INR m + eps))%R).
  { split; [apply Rinv_0_lt_compat; lra|apply Rinv_le_contravar; lra]. }
  assert (Hib : (0 < / sqrt (INR db + eps) <= / sqrt (INR m + eps))%R).
  { split; [apply Rinv_0_lt_compat; lra|apply Rinv_le_contravar; lra]. }
  assert (Hsq : (/ sqrt (INR m + eps) * / sqrt (INR m + eps) = / (INR m + eps))%R).
  { rewrite <- Rinv_mult, sqrt_sqrt by lra. done. }
  assert (Hprod : (/ sqrt (INR da + eps) * / sqrt (INR db + eps) <= / (INR m + eps))%R).
  { rewrite <- Hsq. apply Rmult_le_compat; lra. }
  assert (Hpos : (0 < / sqrt (INR da + eps) * / sqrt (INR db + eps))%R)
    by (apply Rmult_lt_0_compat; lra).
  rewrite Rmult_1_r. split; [apply Rmult_le_pos; lra|].
  apply Rle_trans with (INR m * / (INR m + eps))%R.
  - apply Rmult_le_compat_l; [done|exact Hprod].
  - apply (Rmult_le_reg_r (INR m + eps)); [lra|].
    rewrite Rmult_assoc, Rinv_l by lra. lra.
Qed.

(** X26.  For in-range interactions, repeated or not, every entry of the
    normalized adjacency is a number that is at least 0 and at most 1. *)
Theorem norm_adj_weights_at_most_one (U I : nat) (pairs : list (nat * nat)) :
  in_range U I pairs ->
  exists norm,
    LightGCN.build_adj_matrix U I pairs = Ok norm /\
    forall a b, exists w, entry norm a b = Num w /\ (0 <= w <= 1)%R.
Proof.
  intros Hr. exists (norm_adj_of U I pairs). split; [by apply build_adj_matrix_ok|].
  intros a b. rewrite (norm_entry U I) by done. eexists. split; [done|].
  destruct (multiplicity_le_degree U I pairs a b Hr) as [Ha Hb].
  unfold dinv. apply normalized_weight_bounds; [apply eps_pos|done|done].
Qed.

Lemma norm_adj_weights_at_most_one_witness :
  exists norm,
    LightGCN.build_adj_matrix 2 2 [(0, 0); (0, 0); (1, 0); (1, 1)] = Ok norm /\
    forall a b, exists w, entry norm a b = Num w /\ (0 <= w <= 1)%R.
Proof.
  apply norm_adj_weights_at_most_one. unfold in_range. repeat constructor.
Defined.

(** ** Scores that are not numbers *)

Lemma fgtb_nan_r (x y : fval) : fgtb x (fadd NaN y) = false.
Proof. by destruct x, y. Qed.

Lemma fgtb_nan_l (x : fval) : fgtb NaN x = false.
Proof. by destruct x. Qed.

Lemma call_nan_best (es : EarlyStopping.t) (scores : list fval) :
  EarlyStopping.best_score es = Some NaN ->
  EarlyStopping.best_score (foldl EarlyStopping.__call__ es scores) = Some NaN /\
  EarlyStopping.counter (foldl EarlyStopping.__call__ es scores)
  = EarlyStopping.counter es + length scores.
Proof.
  revert es. induction scores as [|x scores IH]; intros es Hb.
  - cbn. split; [done|lia].
  - cbn [foldl length].
    assert (Hcall : EarlyStopping.best_score (EarlyStopping.__call__ es x) = Some NaN /\
                    EarlyStopping.counter (EarlyStopping.__call__ es x)
                    = EarlyStopping.counter es + 1).
    { unfold EarlyStopping.__call__. by rewrite Hb, fgtb_nan_r. }
    destruct Hcall as [Hb' Hc'].
    destruct (IH _ Hb') as [-> ->]. rewrite Hc'. split; [done|lia].
Qed.

(** X27.  A [nan] score never counts as an improvement: once a best score is
    set, a [nan] score leaves it unchanged and increments the counter; and
    when the first score is [nan], the best score stays [nan] and the counter
    counts every later score, whatever its value. *)
Theorem early_stopping_nan_scores (patience : nat) (delta : fval) (verbose : bool) :
  (forall es : EarlyStopping.t, EarlyStopping.best_score es <> None ->
     EarlyStopping.best_score (EarlyStopping.__call__ es NaN) = EarlyStopping.best_score es /\
     EarlyStopping.counter (EarlyStopping.__call__ es NaN) = EarlyStopping.counter es + 1) /\
  (forall scores,
     let es := foldl EarlyStopping.__call__
                 (EarlyStopping.__init__ patience delta verbose) (NaN :: scores) in
     EarlyStopping.best_score es = Some NaN /\
     EarlyStopping.counter es = length scores).
Proof.
  split.
  - intros es Hb. unfold EarlyStopping.__call__.
    destruct (EarlyStopping.best_score es) as [best|]; [|done].
    by rewrite fgtb_nan_l.
  - intros scores. cbv zeta. cbn [foldl].
    destruct (call_nan_best
                (EarlyStopping.__call__ (EarlyStopping.__init__ patience delta verbose) NaN)
                scores) as [-> ->]; done.
Qed.

(** ** Batches of unequal length *)

Lemma broadcast_mismatch {A B C : Type} (f : A -> B -> C) (a : list A) (b : list B) :
  length a <> length b -> length a <> 1 -> length b <> 1 ->
  broadcast f a b = Raise RuntimeError.
Proof.
  intros Hab Ha Hb. unfold broadcast. rewrite decide_False by done.
  destruct a as [|x [|x' a]]; destruct b as [|y [|y' b]]; cbn in *; done.
Qed.

Lemma broadcast_singleton_l {A B C : Type} (f : A -> B -> C) (x : A) (b : list B) :
  broadcast f [x] b = Ok (f x <$> b).
Proof.
  unfold broadcast. destruct (decide (length [x] = length b)) as [Hl|Hl]; [|done].
  destruct b as [|y [|y' b]]; done.
Qed.

(** X28.  With in-range ids, [bpr_loss] raises [RuntimeError] when the user and
    positive-item batches differ in length and neither has length 1; with a
    single user and equally long item batches it broadcasts the user and
    returns a loss without raising. *)
Theorem bpr_loss_unequal_batches (cfg : config) (model : LightGCN.t)
    (users pos_items neg_items : list nat) :
  well_shaped model ->
  Forall (fun u => u < model.(LightGCN.num_users)) users ->
  Forall (fun i => i < model.(LightGCN.num_items)) pos_items ->
  Forall (fun i => i < model.(LightGCN.num_items)) neg_items ->
  (length users <> length pos_items -> length users <> 1 -> length pos_items <> 1 ->
   bpr_loss cfg model users pos_items neg_items = Raise RuntimeError) /\
  (length users = 1 -> length pos_items = length neg_items ->
   exists loss, bpr_loss cfg model users pos_items neg_items = Ok loss).
Proof.
  intros (HU & HI & _) Hu Hp Hn.
  destruct (getEmbedding_lengths model HU) as [HlU HlI].
  unfold bpr_loss, LightGCN.getEmbeddingTriple.
  destruct (LightGCN.getEmbedding model) as [user_emb item_emb]. cbn [fst snd] in *.
  destruct (gather_in_range user_emb users) as (ue & -> & Hlue & _); [by rewrite HlU|].
  destruct (gather_in_range item_emb pos_items) as (pe & -> & Hlpe & _);
    [by rewrite HlI, HI|].
  destruct (gather_in_range item_emb neg_items) as (ne & -> & Hlne & _);
    [by rewrite HlI, HI|].
  destruct (gather_in_range model.(LightGCN.user_embedding) users)
    as (ue0 & -> & _ & _); [by rewrite HU|].
  destruct (gather_in_range model.(LightGCN.item_embedding) pos_items)
    as (pe0 & -> & _ & _); [by rewrite HI|].
  destruct (gather_in_range model.(LightGCN.item_embedding) neg_items)
    as (ne0 & -> & _ & _); [by rewrite HI|].
  cbn [mbind result_bind]. split.
  - intros Hne H1 H2. rewrite (broadcast_mismatch dot ue pe) by congruence. done.
  - intros H1 Hpn. destruct ue as [|x [|x' ue]]; cbn in Hlue; try lia.
    rewrite !broadcast_singleton_l. cbn [mbind result_bind].
    rewrite broadcast_same_length by (rewrite !length_fmap; lia).
    cbn [mbind result_bind]. by eexists.
Qed.

Lemma bpr_loss_unequal_batches_witness :
  (length [0; 1] <> length [0; 0; 1] -> length [0; 1] <> 1 -> length [0; 0; 1] <> 1 ->
   bpr_loss notebook_config zero_model [0; 1] [0; 0; 1] [1; 1] = Raise RuntimeError) /\
  (length [0; 1] = 1 -> length [0; 0; 1] = length [1; 1] ->
   exists loss, bpr_loss notebook_config zero_model [0; 1] [0; 0; 1] [1; 1] = Ok loss).
Proof.
  apply (bpr_loss_unequal_batches notebook_config zero_model [0; 1] [0; 0; 1] [1; 1]).
  - exact zero_model_well_shaped.
  - repeat constructor.
  - repeat constructor.
  - repeat constructor.
Defined.
